(** * catcaster: the dispatcher / registry core of [main.ts]

    A shallow embedding of the realtime fan-out server: the WebSocket
    registry [clients], the SSE registry [sseClients], the global ticker,
    the per-connection command protocol and the configuration hot-reload.

    The program is a single-threaded event loop.  Every handler of the
    source is a function from the world before the event to the world
    after it; what a handler transmits or invokes is appended to an effect
    log kept in the world.  A handler runs without a break up to its end
    or up to an [await]; the one [await] between two reads of the shared
    state is that of the ticker's callback, which is taken in two events:
    the callback up to [await fetchCatBytes()], and its resumption, on the
    world as it is by then.  What the platform or a collaborator decides
    ([Number], [toLowerCase], [JSON.parse], [randomCatUrl], [Math.random],
    the outcome of [fetchCatBytes] and of [loadConfig], [Date.now], the
    transport state) enters as a section variable or as a field of the
    event. *)

From Stdlib Require Import List String Ascii Bool Arith ZArith QArith Lia.
From Stdlib Require Import Qround.
Import ListNotations.

Local Open Scope string_scope.
Local Open Scope Z_scope.

(** ** JavaScript strings

    A string is kept as the bytes of its UTF-8 encoding: the text of a
    WebSocket text frame and of a file read by [Deno.readTextFile] is
    well-formed Unicode, and on such text the encoding is one to one and
    goes through concatenation, comparison and the search for an ASCII
    character.  A character outside ASCII takes two to four bytes, none of
    which is an ASCII byte, and the first of which is never a byte that
    continues another character, so that the bytes of a character occur
    in a text only where that character does. *)

Module Js.

(** The number of bytes of the white-space character that [s] begins
    with, 0 when it begins with none.  White space is what [trim] strips
    and what the class [\s] matches, WhiteSpace and LineTerminator of
    ECMAScript: TAB, LF, VT, FF, CR, SP, U+00A0, U+1680, U+2000 to U+200A,
    U+2028, U+2029, U+202F, U+205F, U+3000 and U+FEFF. *)
Definition space_len (s : string) : nat :=
  match s with
  | EmptyString => 0
  | String a r =>
      let n := nat_of_ascii a in
      if ((9 <=? n) && (n <=? 13) || (n =? 32))%nat then 1
      else
        match r with
        | EmptyString => 0
        | String b r' =>
            let m := nat_of_ascii b in
            if ((n =? 194) && (m =? 160))%nat then 2
            else
              match r' with
              | EmptyString => 0
              | String c _ =>
                  let k := nat_of_ascii c in
                  if ((n =? 225) && (m =? 154) && (k =? 128)
                      || (n =? 226) && (m =? 128)
                         && ((128 <=? k) && (k <=? 138)
                             || (k =? 168) || (k =? 169) || (k =? 175))
                      || (n =? 226) && (m =? 129) && (k =? 159)
                      || (n =? 227) && (m =? 128) && (k =? 128)
                      || (n =? 239) && (m =? 187) && (k =? 191))%nat
                  then 3 else 0
              end
        end
  end.

Definition lower_ascii (a : ascii) : ascii :=
  let n := nat_of_ascii a in
  if ((65 <=? n) && (n <=? 90))%nat then ascii_of_nat (n + 32) else a.

(** [s.toLowerCase()] on the letters A to Z, every other byte kept.  It is
    the whole of [toLowerCase] on ASCII text.  The configuration loader
    and the MIME table compare its result with words of lower-case ASCII
    letters other than k: there it decides as [toLowerCase] does, since
    the only characters outside ASCII whose lower case holds an ASCII
    letter are U+212A, which gives k, and U+0130, which gives i followed
    by U+0307. *)
Fixpoint toLowerCase (s : string) : string :=
  match s with
  | EmptyString => EmptyString
  | String a r => String (lower_ascii a) (toLowerCase r)
  end.

(** Every byte is below 128. *)
Fixpoint is_ascii (s : string) : bool :=
  match s with
  | EmptyString => true
  | String a r => (nat_of_ascii a <? 128)%nat && is_ascii r
  end.

(** Drops the white space [s] begins with; [skip] counts the bytes still
    to drop of a character that has been recognised. *)
Fixpoint trimStart_go (skip : nat) (s : string) : string :=
  match s with
  | EmptyString => EmptyString
  | String _ r =>
      match skip with
      | S k => trimStart_go k r
      | O =>
          match space_len s with
          | S k => trimStart_go k r
          | O => s
          end
      end
  end.

Definition trimStart (s : string) : string := trimStart_go 0 s.

(** [s] is white space from end to end, or empty. *)
Fixpoint blank_go (skip : nat) (s : string) : bool :=
  match s with
  | EmptyString => true
  | String _ r =>
      match skip with
      | S k => blank_go k r
      | O =>
          match space_len s with
          | S k => blank_go k r
          | O => false
          end
      end
  end.

Definition blank (s : string) : bool := blank_go 0 s.

(** Drops the trailing white space: a byte is kept unless nothing but
    white space starts at it. *)
Fixpoint trimEnd (s : string) : string :=
  match s with
  | EmptyString => EmptyString
  | String a r => if blank s then EmptyString else String a (trimEnd r)
  end.

(** [s.trim()] *)
Definition trim (s : string) : string := trimEnd (trimStart s).

(** [s.startsWith(p)] *)
Definition startsWith (s p : string) : bool := String.prefix p s.

(** [s.split(/\s+/)]: the pieces between the maximal runs of white space;
    a run at either end leaves an empty piece there, and the empty string
    splits into one empty piece.  [in_run] tells that the last character
    read was white space, [skip] counts the bytes of it still to pass. *)
Fixpoint split_ws_go (skip : nat) (in_run : bool) (cur : string) (s : string)
  : list string :=
  match s with
  | EmptyString => [cur]
  | String a r =>
      match skip with
      | S k => split_ws_go k in_run cur r
      | O =>
          match space_len s with
          | S k =>
              if in_run then split_ws_go k true EmptyString r
              else cur :: split_ws_go k true EmptyString r
          | O => split_ws_go 0 false (cur ++ String a EmptyString) r
          end
      end
  end.

Definition split_ws (s : string) : list string :=
  split_ws_go 0 false EmptyString s.

(** White space occurs somewhere in [s]. *)
Fixpoint has_space (s : string) : bool :=
  match s with
  | EmptyString => false
  | String _ r => negb (Nat.eqb (space_len s) 0) || has_space r
  end.

End Js.

(** ** JavaScript numbers

    A [number] is NaN, an infinity or a finite value.  The finite values
    are kept as rationals: every finite double is one, and the comparisons
    below are the exact comparisons of IEEE 754. *)

Inductive number : Type :=
| NaN
| PosInf
| NegInf
| Fin (q : Q).

Definition ofZ (z : Z) : number := Fin (inject_Z z).

(** [Number.isFinite(x)] *)
Definition isFinite (x : number) : bool :=
  match x with Fin _ => true | _ => false end.

Definition Qltb (x y : Q) : bool := negb (Qle_bool y x).

(** [x < y]; false as soon as an operand is NaN. *)
Definition num_ltb (x y : number) : bool :=
  match x, y with
  | NaN, _ | _, NaN => false
  | PosInf, _ => false
  | _, NegInf => false
  | NegInf, _ => true
  | _, PosInf => true
  | Fin a, Fin b => Qltb a b
  end.

(** [x > y] is [y < x]. *)
Definition num_gtb (x y : number) : bool := num_ltb y x.

(** ** [Map<string, V>]: an association list in insertion order *)

Module JsMap.
Section Ops.
Context {V : Type}.

Definition t := list (string * V).

Fixpoint get (k : string) (m : t) : option V :=
  match m with
  | [] => None
  | (k', v) :: r => if String.eqb k k' then Some v else get k r
  end.

(** [m.set(k, v)] keeps the position of a key that is present and
    appends a new one. *)
Fixpoint set (k : string) (v : V) (m : t) : t :=
  match m with
  | [] => [(k, v)]
  | (k', v') :: r =>
      if String.eqb k k' then (k', v) :: r else (k', v') :: set k v r
  end.

(** [m.delete(k)] *)
Fixpoint delete (k : string) (m : t) : t :=
  match m with
  | [] => []
  | (k', v') :: r =>
      if String.eqb k k' then r else (k', v') :: delete k r
  end.

(** [m.size] *)
Definition size (m : t) : Z := Z.of_nat (List.length m).

Definition keys (m : t) : list string := map fst m.

(** [m.values()] *)
Definition values (m : t) : list V := map snd m.

(** Changes the value stored under [k], when there is one: the effect of
    an assignment to a field of the object [m.get(k)]. *)
Fixpoint update (k : string) (f : V -> V) (m : t) : t :=
  match m with
  | [] => []
  | (k', v') :: r =>
      if String.eqb k k' then (k', f v') :: r else (k', v') :: update k f r
  end.
End Ops.
Arguments t : clear implicits.
End JsMap.

(** ** Data model *)

Inductive Mode : Type := url | bin.

Definition Mode_eqb (a b : Mode) : bool :=
  match a, b with
  | url, url | bin, bin => true
  | _, _ => false
  end.

(** [WebSocket.readyState] *)
Inductive ReadyState : Type := CONNECTING | OPEN | CLOSING | CLOSED.

Definition isOpen (r : ReadyState) : bool :=
  match r with OPEN => true | _ => false end.

Record WebSocket : Type := { readyState : ReadyState }.

(** [type WsClient] *)
Record WsClient : Type := {
  ws : WebSocket;
  id : string;
  intervalMs : number;
  paused : bool;
  lastSentAt : Z;
  mode : Mode
}.

Definition set_ws (s : WebSocket) (c : WsClient) : WsClient :=
  {| ws := s; id := id c; intervalMs := intervalMs c; paused := paused c;
     lastSentAt := lastSentAt c; mode := mode c |}.
Definition set_intervalMs (x : number) (c : WsClient) : WsClient :=
  {| ws := ws c; id := id c; intervalMs := x; paused := paused c;
     lastSentAt := lastSentAt c; mode := mode c |}.
Definition set_paused (b : bool) (c : WsClient) : WsClient :=
  {| ws := ws c; id := id c; intervalMs := intervalMs c; paused := b;
     lastSentAt := lastSentAt c; mode := mode c |}.
Definition set_lastSentAt (t : Z) (c : WsClient) : WsClient :=
  {| ws := ws c; id := id c; intervalMs := intervalMs c; paused := paused c;
     lastSentAt := t; mode := mode c |}.
Definition set_mode (m : Mode) (c : WsClient) : WsClient :=
  {| ws := ws c; id := id c; intervalMs := intervalMs c; paused := paused c;
     lastSentAt := lastSentAt c; mode := m |}.

(** [type SseClient]: the controller either takes what is enqueued or, once
    its stream is closed or errored, throws. *)
Record SseClient : Type := {
  sse_id : string;
  ctrl_usable : bool
}.

(** [type AppConfig].  The numeric fields of a loaded configuration are
    integers: [clampInt] floors and [DEFAULTS] holds integers. *)
Record AppConfig : Type := {
  target_ip : string;
  port : Z;
  cat_interval_ms : Z;
  cat_mode : Mode;
  max_clients : Z;
  allow_origins : list string
}.

Definition DEFAULTS : AppConfig :=
  {| target_ip := "127.0.0.1"; port := 8000; cat_interval_ms := 2500;
     cat_mode := url; max_clients := 50; allow_origins := ["*"] |}.

(** The object built by [safeConfigForClient]. *)
Record SafeConfig : Type := {
  safe_target_ip : string;
  safe_port : Z;
  safe_cat_interval_ms : Z;
  safe_cat_mode : Mode;
  safe_max_clients : Z
}.

(** [makeState()] of [lib/state.ts] *)
Record State : Type := {
  startedAt : Z;
  httpRequests : nat;
  wsConnections : nat;
  wsMessages : nat;
  catsSent : nat;
  errors : nat
}.

Definition makeState (now : Z) : State :=
  {| startedAt := now; httpRequests := 0; wsConnections := 0;
     wsMessages := 0; catsSent := 0; errors := 0 |}.

(** [MOODS] *)
Inductive Mood : Type :=
| PurringPackets | CatDelivery | MeowSockets | FelineFrames | WhiskerPowered.

Definition MOODS : list Mood :=
  [PurringPackets; CatDelivery; MeowSockets; FelineFrames; WhiskerPowered].

(** ** What the server emits *)

Inductive OkMessage : Type :=
| IntervalSetTo (ms : number)     (* `interval set to ${ms} ms` *)
| PausedMsg                       (* "paused" *)
| ResumedMsg                      (* "resumed" *)
| ModeSetTo (m : Mode).           (* `mode set to ${m}` *)

(** The objects passed through [JSON.stringify] to [ws.send]. *)
Inductive ServerMsg : Type :=
| MsgHello (i : string) (mood : Mood) (cfg : SafeConfig)
| MsgConfig (cfg : SafeConfig)
| MsgError (message : string)
| MsgCatUrl (u : string) (ts : Z)
| MsgCatBin (mime : string) (ts : Z)
| MsgHelp
| MsgOk (m : OkMessage)
| MsgPong (ts : Z)
| MsgYou (i : string) (ms : number) (p : bool) (m : Mode).

Inductive Frame : Type :=
| TextFrame (m : ServerMsg)
| BinaryFrame (bytes : list Byte.byte).

Inductive SseEvent : Type :=
| SseHello (i : string) (mood : Mood) (cfg : SafeConfig)
| SseConfig (cfg : SafeConfig)
| SsePulse (uptime_s : Z) (nclients : Z) (cats_sent : nat) (mood : Mood)
| SseKeepalive (t : Z).

(** One entry of the effect log: a frame handed to the socket of the
    client registered under a key of [clients], an event enqueued on the
    controller registered under a key of [sseClients], an
    invocation of [fetchCatBytes], a creation or a clearing of the ticker's
    timer. *)
Inductive Effect : Type :=
| WsSend (to : string) (f : Frame)
| SseEnqueue (to : string) (e : SseEvent)
| FetchCatBytes
| SetInterval (handle : nat)
| ClearInterval (handle : nat).

(** What [fetchCatBytes()] settles to, and what [loadConfig()] settles
    to; [LoadErr] is a rejection, which the loader of [lib/config.ts]
    never gives (see [loadResult], below). *)
Record Payload : Type := { p_type : string; p_bytes : list Byte.byte }.

Inductive FetchResult : Type :=
| FetchOk (p : Payload)
| FetchErr (e : string).

Inductive LoadResult : Type :=
| LoadOk (cfg : AppConfig)
| LoadErr (e : string).

(** The module-level variables of [main.ts], the count of random draws
    taken so far, the effect log, and the callbacks of the ticker that are
    suspended at [await fetchCatBytes()], each by the [t] it holds. *)
Record World : Type := {
  config : AppConfig;
  state : State;
  clients : JsMap.t WsClient;
  sseClients : JsMap.t SseClient;
  ticker : option nat;
  timers : nat;
  draws : nat;
  log : list Effect;
  pending : list Z
}.

Definition set_config (x : AppConfig) (w : World) : World :=
  {| config := x; state := state w; clients := clients w;
     sseClients := sseClients w; ticker := ticker w; timers := timers w;
     draws := draws w; log := log w; pending := pending w |}.
Definition set_state (x : State) (w : World) : World :=
  {| config := config w; state := x; clients := clients w;
     sseClients := sseClients w; ticker := ticker w; timers := timers w;
     draws := draws w; log := log w; pending := pending w |}.
Definition set_clients (x : JsMap.t WsClient) (w : World) : World :=
  {| config := config w; state := state w; clients := x;
     sseClients := sseClients w; ticker := ticker w; timers := timers w;
     draws := draws w; log := log w; pending := pending w |}.
Definition set_sseClients (x : JsMap.t SseClient) (w : World) : World :=
  {| config := config w; state := state w; clients := clients w;
     sseClients := x; ticker := ticker w; timers := timers w;
     draws := draws w; log := log w; pending := pending w |}.
Definition set_ticker (x : option nat) (n : nat) (w : World) : World :=
  {| config := config w; state := state w; clients := clients w;
     sseClients := sseClients w; ticker := x; timers := n;
     draws := draws w; log := log w; pending := pending w |}.
Definition set_draws (x : nat) (w : World) : World :=
  {| config := config w; state := state w; clients := clients w;
     sseClients := sseClients w; ticker := ticker w; timers := timers w;
     draws := x; log := log w; pending := pending w |}.
Definition emit (es : list Effect) (w : World) : World :=
  {| config := config w; state := state w; clients := clients w;
     sseClients := sseClients w; ticker := ticker w; timers := timers w;
     draws := draws w; log := log w ++ es; pending := pending w |}.
Definition set_pending (x : list Z) (w : World) : World :=
  {| config := config w; state := state w; clients := clients w;
     sseClients := sseClients w; ticker := ticker w; timers := timers w;
     draws := draws w; log := log w; pending := x |}.

Definition incr_wsConnections (s : State) : State :=
  {| startedAt := startedAt s; httpRequests := httpRequests s;
     wsConnections := S (wsConnections s); wsMessages := wsMessages s;
     catsSent := catsSent s; errors := errors s |}.
Definition incr_wsMessages (s : State) : State :=
  {| startedAt := startedAt s; httpRequests := httpRequests s;
     wsConnections := wsConnections s; wsMessages := S (wsMessages s);
     catsSent := catsSent s; errors := errors s |}.
Definition incr_catsSent (s : State) : State :=
  {| startedAt := startedAt s; httpRequests := httpRequests s;
     wsConnections := wsConnections s; wsMessages := wsMessages s;
     catsSent := S (catsSent s); errors := errors s |}.
Definition incr_errors (s : State) : State :=
  {| startedAt := startedAt s; httpRequests := httpRequests s;
     wsConnections := wsConnections s; wsMessages := wsMessages s;
     catsSent := catsSent s; errors := S (errors s) |}.
Definition incr_httpRequests (s : State) : State :=
  {| startedAt := startedAt s; httpRequests := S (httpRequests s);
     wsConnections := wsConnections s; wsMessages := wsMessages s;
     catsSent := catsSent s; errors := errors s |}.

(** ** The handlers of [main.ts] *)

Definition Response_status := Z.

Inductive Response : Type :=
| TextResponse (body : string) (status : Response_status)   (* text(body, status) *)
| JsonConfig (body : SafeConfig) (status : Response_status) (* json(safeConfigForClient()) *)
| Upgraded (i : string).                                    (* the 101 of upgradeWebSocket *)

(** [ev.data] of a message event *)
Inductive MessageData : Type :=
| DataString (s : string)
| DataBinary (bytes : list Byte.byte).

(** What the handler reads from [JSON.parse(s)]: the fields [cmd], [ms] and
    [mode] of the object, each through [String(...)], the empty string
    standing for a field that is missing or null. *)
Record JsonCmd : Type := { j_cmd : string; j_ms : string; j_mode : string }.

Section Server.

(** [Number(s)] on a string. *)
Variable Number : string -> number.
(** [s.toLowerCase()], with the case mapping of Unicode. *)
Variable toLowerCase : string -> string.
(** [JSON.parse(s)], [None] when it throws. *)
Variable JSON_parse : string -> option JsonCmd.
(** [randomCatUrl()] of [lib/cat.ts] and [randomMood()], by the index
    of the random draw. *)
Variable randomCatUrl : nat -> string.
Variable randomMood : nat -> Mood.

Definition includes (x : string) (l : list string) : bool :=
  existsb (String.eqb x) l.

Definition originAllowed (origin : option string) (cfg : AppConfig) : bool :=
  match origin with
  | None => true
  | Some o =>
      if String.eqb o EmptyString then true
      else if includes "*" (allow_origins cfg) then true
      else includes o (allow_origins cfg)
  end.

Definition safeConfigForClient (cfg : AppConfig) : SafeConfig :=
  {| safe_target_ip := target_ip cfg; safe_port := port cfg;
     safe_cat_interval_ms := cat_interval_ms cfg;
     safe_cat_mode := cat_mode cfg; safe_max_clients := max_clients cfg |}.

Definition wsOpen (c : WsClient) : bool := isOpen (readyState (ws c)).

(** [c.ws.send(f)] for the client [c] registered under [k]: throws
    ([None]) unless the socket is OPEN, as Deno's [WebSocket.send] does. *)
Definition ws_send (k : string) (c : WsClient) (f : Frame) (w : World)
  : option World :=
  if wsOpen c then Some (emit [WsSend k f] w) else None.

(** [broadcastSse(event, data)]: a controller that throws is skipped. *)
Definition broadcastSse (e : SseEvent) (w : World) : World :=
  emit (flat_map (fun kc => if ctrl_usable (snd kc)
                            then [SseEnqueue (fst kc) e] else [])
                 (sseClients w)) w.

(** The loop [for (const c of clients.values()) if (OPEN) c.ws.send(m)]. *)
Definition sendToOpen (m : ServerMsg) (w : World) : World :=
  emit (flat_map (fun kc => if wsOpen (snd kc)
                            then [WsSend (fst kc) (TextFrame m)] else [])
                 (clients w)) w.

Definition broadcastConfigUpdate (w : World) : World :=
  let w := broadcastSse (SseConfig (safeConfigForClient (config w))) w in
  sendToOpen (MsgConfig (safeConfigForClient (config w))) w.

(** *** The global tick *)

Definition startTickerIfNeeded (w : World) : World :=
  match ticker w with
  | Some _ => w
  | None =>
      emit [SetInterval (timers w)]
           (set_ticker (Some (timers w)) (S (timers w)) w)
  end.

Definition stopTickerIfNoClients (w : World) : World :=
  if JsMap.size (clients w) =? 0 then
    match ticker w with
    | Some h => emit [ClearInterval h] (set_ticker None (timers w) w)
    | None => w
    end
  else w.

Definition wantsBin (c : WsClient) : bool :=
  Mode_eqb (mode c) bin && negb (paused c).

Definition someoneWantsBin (w : World) : bool :=
  existsb wantsBin (JsMap.values (clients w)).

(** The test that lets the loop reach [c.lastSentAt = t]. *)
Definition due (t : Z) (c : WsClient) : bool :=
  negb (paused c) && wsOpen c
  && negb (num_ltb (ofZ (t - lastSentAt c)) (intervalMs c)).

(** The body of the push loop for one client.  A [send] that throws
    leaves the [try] block before [catsSent] is counted. *)
Definition push_one (t : Z) (binPayload : option Payload)
           (k : string) (c : WsClient) (w : World) : WsClient * World :=
  if paused c then (c, w)
  else if negb (wsOpen c) then (c, w)
  else if num_ltb (ofZ (t - lastSentAt c)) (intervalMs c) then (c, w)
  else
    let c := set_lastSentAt t c in
    match mode c with
    | url =>
        let u := randomCatUrl (draws w) in
        let w := set_draws (S (draws w)) w in
        match ws_send k c (TextFrame (MsgCatUrl u t)) w with
        | Some w => (c, set_state (incr_catsSent (state w)) w)
        | None => (c, w)
        end
    | bin =>
        match binPayload with
        | None => (c, w)
        | Some p =>
            match ws_send k c (TextFrame (MsgCatBin (p_type p) t)) w with
            | Some w1 =>
                match ws_send k c (BinaryFrame (p_bytes p)) w1 with
                | Some w2 => (c, set_state (incr_catsSent (state w2)) w2)
                | None => (c, w1)
                end
            | None => (c, w)
            end
        end
    end.

Fixpoint push_loop (t : Z) (binPayload : option Payload)
         (cs : JsMap.t WsClient) (w : World) : JsMap.t WsClient * World :=
  match cs with
  | [] => ([], w)
  | (k, c) :: r =>
      let '(c', w1) := push_one t binPayload k c w in
      let '(r', w2) := push_loop t binPayload r w1 in
      ((k, c') :: r', w2)
  end.

(** Lines 141-152: the fetch, and what the [catch] does. *)
Definition fetch_step (fr : FetchResult) (w : World) : option Payload * World :=
  if someoneWantsBin w then
    let w := emit [FetchCatBytes] w in
    match fr with
    | FetchOk p => (Some p, w)
    | FetchErr e =>
        (None, sendToOpen (MsgError e) (set_state (incr_errors (state w)) w))
    end
  else (None, w).

Definition pulse (now : Z) (w : World) : SseEvent :=
  SsePulse ((now - startedAt (state w)) / 1000) (JsMap.size (clients w))
           (catsSent (state w)) (randomMood (draws w)).

(** A run of the ticker's callback during whose fetch no other handler
    runs: [t] is the [nowMs()] of its first line, [now] the one of the
    pulse, [fr] what [fetchCatBytes()] settles to when it is invoked.  It
    is [tick_begin] followed at once by [tick_resume], below, which take
    the callback in its two parts. *)
Definition tick (t now : Z) (fr : FetchResult) (w : World) : World :=
  if JsMap.size (clients w) =? 0 then w
  else
    let '(binPayload, w) := fetch_step fr w in
    let '(cs, w) := push_loop t binPayload (clients w) w in
    let w := set_clients cs w in
    set_draws (S (draws w)) (broadcastSse (pulse now w) w).

(** Lines 144-152, what follows the [await]: the payload is kept, or the
    [catch] counts the error and notifies the open sockets. *)
Definition tick_settle (fr : FetchResult) (w : World) : option Payload * World :=
  match fr with
  | FetchOk p => (Some p, w)
  | FetchErr e =>
      (None, sendToOpen (MsgError e) (set_state (incr_errors (state w)) w))
  end.

(** Lines 154-183: the push loop and the pulse. *)
Definition tick_finish (t now : Z) (binPayload : option Payload) (w : World)
  : World :=
  let '(cs, w) := push_loop t binPayload (clients w) w in
  let w := set_clients cs w in
  set_draws (S (draws w)) (broadcastSse (pulse now w) w).

(** The callback from its first line: with no client it returns; when
    some client wants [bin] it invokes [fetchCatBytes] and is suspended at
    the [await], holding [t]; otherwise nothing is awaited and it runs to
    its end, [now] being the [nowMs()] of the pulse. *)
Definition tick_begin (t now : Z) (w : World) : World :=
  if JsMap.size (clients w) =? 0 then w
  else if someoneWantsBin w
       then set_pending (t :: pending w) (emit [FetchCatBytes] w)
       else tick_finish t now None w.

Fixpoint remove_first (t : Z) (l : list Z) : list Z :=
  match l with
  | [] => []
  | x :: r => if x =? t then r else x :: remove_first t r
  end.

Definition is_pending (t : Z) (w : World) : bool :=
  existsb (Z.eqb t) (pending w).

(** The callback that was suspended holding [t] resumes when its fetch
    has settled to [fr], and runs to its end on the world as it is now:
    whatever was registered, closed, paused or reconfigured in between is
    what the two loops and the pulse read.  Whether the ticker is still
    set plays no part. *)
Definition tick_resume (t now : Z) (fr : FetchResult) (w : World) : World :=
  if is_pending t w then
    let w := set_pending (remove_first t (pending w)) w in
    let '(binPayload, w) := tick_settle fr w in
    tick_finish t now binPayload w
  else w.

(** The callback from the point where nothing more is awaited: [o] is
    [None] when no fetch was made, and what the fetch settled to
    otherwise.  It is the second branch of [tick_begin] and the body of
    [tick_resume]. *)
Definition tick_rest (t now : Z) (o : option FetchResult) (w : World) : World :=
  match o with
  | None => tick_finish t now None w
  | Some fr =>
      let '(binPayload, w) := tick_settle fr w in
      tick_finish t now binPayload w
  end.

(** *** WebSocket handlers *)

Definition newClient (i : string) (cfg : AppConfig) : WsClient :=
  {| ws := {| readyState := CONNECTING |}; id := i;
     intervalMs := ofZ (cat_interval_ms cfg); paused := false;
     lastSentAt := 0; mode := cat_mode cfg |}.

(** [handleWs(req)] for an upgrade request with the given [origin]
    header; [i] is what [uid()] returns. *)
Definition handleWs (origin : option string) (i : string) (w : World)
  : Response * World :=
  if negb (originAllowed origin (config w))
  then (TextResponse "Origin not allowed" 403, w)
  else if max_clients (config w) <=? JsMap.size (clients w)
  then (TextResponse "Too many clients" 429, w)
  else
    let w := set_clients (JsMap.set i (newClient i (config w)) (clients w)) w in
    let w := set_state (incr_wsConnections (state w)) w in
    (Upgraded i, startTickerIfNeeded w).

(** [socket.onopen]: the transport has reached OPEN and the hello goes
    out. *)
Definition onopen (i : string) (w : World) : World :=
  match JsMap.get i (clients w) with
  | None => w
  | Some _ =>
      let w := set_clients
                 (JsMap.update i (set_ws {| readyState := OPEN |}) (clients w)) w in
      set_draws (S (draws w))
        (emit [WsSend i (TextFrame (MsgHello i (randomMood (draws w))
                                      (safeConfigForClient (config w))))] w)
  end.

(** [reply(obj)] in the closure of the socket registered under [i],
    whose client is [c]. *)
Definition reply (i : string) (c : WsClient) (m : ServerMsg) (w : World) : World :=
  if wsOpen c then emit [WsSend i (TextFrame m)] w else w.

Definition parseMode (m : string) : option Mode :=
  if String.eqb m "url" then Some url
  else if String.eqb m "bin" then Some bin
  else None.

Definition dquote : string := String (ascii_of_nat 34) EmptyString.

(** The text [mode must be "url" or "bin"]. *)
Definition modeError : string :=
  "mode must be " ++ dquote ++ "url" ++ dquote ++ " or "
                  ++ dquote ++ "bin" ++ dquote.

Definition setField (i : string) (f : WsClient -> WsClient) (w : World) : World :=
  set_clients (JsMap.update i f (clients w)) w.

(** [handleCommand(cmd, args)] in the closure of the socket registered
    under [i]; [now] is the [Date.now()] of [ping]. *)
Definition handleCommand (i : string) (now : Z) (cmd : string)
           (args : list string) (w : World) : World :=
  match JsMap.get i (clients w) with
  | None => w
  | Some c =>
      if String.eqb cmd "help" then reply i c MsgHelp w
      else if String.eqb cmd "interval" then
        let ms := match args with a :: _ => Number a | [] => NaN end in
        if negb (isFinite ms) || num_ltb ms (ofZ 200) || num_gtb ms (ofZ 60000)
        then reply i c (MsgError "interval must be 200..60000 ms") w
        else reply i c (MsgOk (IntervalSetTo ms)) (setField i (set_intervalMs ms) w)
      else if String.eqb cmd "pause" then
        reply i c (MsgOk PausedMsg) (setField i (set_paused true) w)
      else if String.eqb cmd "resume" then
        reply i c (MsgOk ResumedMsg) (setField i (set_paused false) w)
      else if String.eqb cmd "mode" then
        let m := toLowerCase (match args with a :: _ => a | [] => EmptyString end) in
        match parseMode m with
        | None => reply i c (MsgError modeError) w
        | Some m' => reply i c (MsgOk (ModeSetTo m')) (setField i (set_mode m') w)
        end
      else if String.eqb cmd "ping" then reply i c (MsgPong now) w
      else if String.eqb cmd "whoami" then
        reply i c (MsgYou (id c) (intervalMs c) (paused c) (mode c)) w
      else reply i c (MsgError ("unknown command: " ++ cmd)) w
  end.

(** The plain-text stage of [socket.onmessage]:
    [const [cmd, ...args] = s.split(/\s+/); handleCommand(cmd.toLowerCase(), args)]. *)
Definition textCommand (i : string) (now : Z) (s : string) (w : World) : World :=
  match Js.split_ws s with
  | cmd :: args => handleCommand i now (toLowerCase cmd) args w
  | [] => w
  end.

(** The structured stage, for a message that parsed. *)
Definition jsonCommand (i : string) (now : Z) (obj : JsonCmd) (w : World) : World :=
  let cmd := j_cmd obj in
  if String.eqb cmd EmptyString then w
  else if String.eqb cmd "interval" then handleCommand i now "interval" [j_ms obj] w
  else if String.eqb cmd "mode" then handleCommand i now "mode" [j_mode obj] w
  else if String.eqb cmd "pause" then handleCommand i now "pause" [] w
  else if String.eqb cmd "resume" then handleCommand i now "resume" [] w
  else if String.eqb cmd "help" then handleCommand i now "help" [] w
  else if String.eqb cmd "ping" then handleCommand i now "ping" [] w
  else if String.eqb cmd "whoami" then handleCommand i now "whoami" [] w
  else handleCommand i now cmd [] w.

(** [socket.onmessage] of the socket registered under [i]. *)
Definition onmessage (i : string) (now : Z) (data : MessageData) (w : World) : World :=
  let w := set_state (incr_wsMessages (state w)) w in
  match data with
  | DataBinary _ => w
  | DataString d =>
      let s := Js.trim d in
      if String.eqb s EmptyString then w
      else if Js.startsWith s "{" then
        match JSON_parse s with
        | Some obj => jsonCommand i now obj w
        | None => textCommand i now s w
        end
      else textCommand i now s w
  end.

(** [cleanup], installed as [onclose] and [onerror]. *)
Definition cleanup (i : string) (w : World) : World :=
  stopTickerIfNoClients (set_clients (JsMap.delete i (clients w)) w).

(** *** SSE endpoint *)

(** [handleSse], up to the point where it throws.  [start(controller)]
    runs inside [new ReadableStream(...)], that is, inside the initialiser
    of [const stream]: it registers the stream, enqueues the hello and
    sets the keep-alive timer, and then reads [stream], which is not
    initialised yet, so that a ReferenceError leaves [start], the
    constructor and [handleSse].  The registration and the hello stay. *)
Definition handleSse (i : string) (w : World) : World :=
  let w := set_sseClients
             (JsMap.set i {| sse_id := i; ctrl_usable := true |} (sseClients w)) w in
  set_draws (S (draws w))
    (emit [SseEnqueue i (SseHello i (randomMood (draws w))
                           (safeConfigForClient (config w)))] w).

(** [String(e)] for that error. *)
Definition streamError : string :=
  "ReferenceError: Cannot access 'stream' before initialization".

(** [GET /events] under [withLog], whose [catch] counts the error and
    answers 500. *)
Definition serveEvents (i : string) (w : World) : Response * World :=
  let w := handleSse i w in
  (TextResponse ("Internal error: " ++ streamError) 500,
   set_state (incr_errors (state w)) w).

(** The callback of the keep-alive timer of the stream registered under
    [i]: an enqueue on its controller, inside a [try]. *)
Definition keepalive (i : string) (now : Z) (w : World) : World :=
  match JsMap.get i (sseClients w) with
  | Some c => if ctrl_usable c then emit [SseEnqueue i (SseKeepalive now)] w else w
  | None => w
  end.

(** [cancel()]: it reads [stream], which never got initialised, and
    throws before it reaches [sseClients.delete(id)].  No stream is
    handed to a consumer, so nothing calls it either. *)
Definition sseCancel (i : string) (w : World) : World := w.

(** *** Configuration *)

(** The body of the hot-reload loop for one change event; [lr] is what
    [loadConfig(CONFIG_PATH)] settles to. *)
Definition reload (lr : LoadResult) (w : World) : World :=
  match lr with
  | LoadOk cfg => broadcastConfigUpdate (set_config cfg w)
  | LoadErr _ => set_state (incr_errors (state w)) w
  end.

(** [GET /api/config] *)
Definition apiConfig (w : World) : Response * World :=
  let w := set_state (incr_httpRequests (state w)) w in
  (JsonConfig (safeConfigForClient (config w)) 200, w).

(** ** The event loop *)

Inductive Event : Type :=
| EUpgrade (origin : option string) (i : string)   (* GET /ws *)
| EOpen (i : string)
| EMessage (i : string) (now : Z) (data : MessageData)
| EClose (i : string)                              (* close or error *)
| ETransport (i : string) (r : ReadyState)         (* the socket changes state *)
| ETick (t now : Z) (fr : FetchResult)             (* the ticker fires, nothing runs during the fetch *)
| ETickBegin (t now : Z)                           (* the ticker fires *)
| ETickResume (t now : Z) (fr : FetchResult)       (* the fetch of a suspended callback settles *)
| ESubscribe (i : string)                          (* GET /events *)
| ECancel (i : string)
| EStreamGone (i : string)                         (* a stream closes under its controller *)
| EKeepalive (i : string) (now : Z)                (* a keep-alive timer fires *)
| EConfigChange (lr : LoadResult)
| EApiConfig.

Definition step (w : World) (e : Event) : World :=
  match e with
  | EUpgrade origin i =>
      snd (handleWs origin i (set_state (incr_httpRequests (state w)) w))
  | EOpen i => onopen i w
  | EMessage i now data => onmessage i now data w
  | EClose i => cleanup i w
  | ETransport i r => setField i (set_ws {| readyState := r |}) w
  | ETick t now fr =>
      match ticker w with
      | Some _ => tick t now fr w
      | None => w
      end
  | ETickBegin t now =>
      match ticker w with
      | Some _ => tick_begin t now w
      | None => w
      end
  | ETickResume t now fr => tick_resume t now fr w
  | ESubscribe i =>
      snd (serveEvents i (set_state (incr_httpRequests (state w)) w))
  | ECancel i => sseCancel i w
  | EStreamGone i =>
      set_sseClients
        (JsMap.update i (fun c => {| sse_id := sse_id c; ctrl_usable := false |})
                      (sseClients w)) w
  | EKeepalive i now => keepalive i now w
  | EConfigChange lr => reload lr w
  | EApiConfig => snd (apiConfig w)
  end.

(** The world after the top level of [main.ts] has run. *)
Definition init (cfg : AppConfig) (now : Z) : World :=
  {| config := cfg; state := makeState now; clients := [];
     sseClients := []; ticker := None; timers := 0%nat; draws := 0%nat;
     log := []; pending := [] |}.

Definition run (w : World) (es : list Event) : World := fold_left step es w.

Inductive reachable : World -> Prop :=
| reach_init cfg now : reachable (init cfg now)
| reach_step w e : reachable w -> reachable (step w e).

End Server.

(** ** Reading the effect log *)

(** What was logged between the world [w] and a later world [w']. *)
Definition since (w w' : World) : list Effect :=
  skipn (List.length (log w)) (log w').

Definition isFetch (e : Effect) : bool :=
  match e with FetchCatBytes => true | _ => false end.

(** How often [fetchCatBytes] was invoked in a stretch of the log. *)
Definition fetches (es : list Effect) : nat :=
  List.length (filter isFetch es).

(** The frames handed to the socket registered under [i], in order. *)
Definition frames_to (i : string) (es : list Effect) : list Frame :=
  flat_map (fun e => match e with
                     | WsSend j f => if String.eqb i j then [f] else []
                     | _ => []
                     end) es.

(** A payload push: the [cat] message of either mode, or the binary frame. *)
Definition isPush (f : Frame) : bool :=
  match f with
  | TextFrame (MsgCatUrl _ _) | TextFrame (MsgCatBin _ _) | BinaryFrame _ => true
  | TextFrame _ => false
  end.

Definition isBinPush (f : Frame) : bool :=
  match f with
  | TextFrame (MsgCatBin _ _) | BinaryFrame _ => true
  | TextFrame _ => false
  end.

(** Keys are pairwise distinct: what [Map] guarantees. *)
Fixpoint distinct (l : list string) : bool :=
  match l with
  | [] => true
  | x :: r => negb (existsb (String.eqb x) r) && distinct r
  end.

(** ** A concrete platform, for running the model *)

Module Demo.

Fixpoint digits (acc : Z) (s : string) : option Z :=
  match s with
  | EmptyString => Some acc
  | String a r =>
      let n := nat_of_ascii a in
      if ((48 <=? n) && (n <=? 57))%nat
      then digits (10 * acc + Z.of_nat (n - 48)) r
      else None
  end.

(** [Number(s)] on strings of decimal digits (the empty string is 0);
    [NaN] stands for everything else. *)
Definition Number (s : string) : number :=
  match digits 0 s with Some z => ofZ z | None => NaN end.

Definition ping_text : string :=
  "{" ++ dquote ++ "cmd" ++ dquote ++ ":" ++ dquote ++ "ping" ++ dquote ++ "}".

Definition interval_text : string :=
  "{" ++ dquote ++ "cmd" ++ dquote ++ ":" ++ dquote ++ "interval" ++ dquote
      ++ "," ++ dquote ++ "ms" ++ dquote ++ ":1200}".

(** [JSON.parse] on the two texts [{"cmd":"ping"}] and
    [{"cmd":"interval","ms":1200}]; it throws on everything else. *)
Definition JSON_parse (s : string) : option JsonCmd :=
  if String.eqb s ping_text
  then Some {| j_cmd := "ping"; j_ms := EmptyString; j_mode := EmptyString |}
  else if String.eqb s interval_text
  then Some {| j_cmd := "interval"; j_ms := "1200"; j_mode := EmptyString |}
  else None.

Definition randomCatUrl (n : nat) : string := "https://cataas.com/cat".

Definition randomMood (n : nat) : Mood := nth (n mod 5) MOODS PurringPackets.

(** [toLowerCase] on ASCII text. *)
Definition toLowerCase : string -> string := Js.toLowerCase.

Definition handleCommand := handleCommand Number toLowerCase.
Definition onmessage := onmessage Number toLowerCase JSON_parse.
Definition tick := tick randomCatUrl randomMood.
Definition tick_begin := tick_begin randomCatUrl randomMood.
Definition tick_resume := tick_resume randomCatUrl randomMood.
Definition step := step Number toLowerCase JSON_parse randomCatUrl randomMood.
Definition run := run Number toLowerCase JSON_parse randomCatUrl randomMood.
Definition reachable := reachable Number toLowerCase JSON_parse randomCatUrl randomMood.

Definition binConfig : AppConfig :=
  {| target_ip := "127.0.0.1"; port := 8000; cat_interval_ms := 2500;
     cat_mode := bin; max_clients := 50; allow_origins := ["*"] |}.

Definition png : Payload :=
  {| p_type := "image/png"; p_bytes := [Byte.x89; Byte.x50; Byte.x4e; Byte.x47] |}.

(** Two clients in [bin] mode, both open. *)
Definition twoBin : World :=
  run (init binConfig 0)
      [EUpgrade None "a"; EUpgrade None "b"; EOpen "a"; EOpen "b"].

(** One client in [bin] mode, registered and not yet open. *)
Definition connecting : World :=
  run (init binConfig 0) [EUpgrade None "a"].

Definition strictConfig : AppConfig :=
  {| target_ip := "127.0.0.1"; port := 8000; cat_interval_ms := 2500;
     cat_mode := url; max_clients := 1;
     allow_origins := ["https://cats.example"] |}.

(** A server at capacity: [max_clients] is 1 and one client is registered. *)
Definition full : World :=
  run (init strictConfig 0) [EUpgrade (Some "https://cats.example") "a"].

(** [connecting] and [twoBin] with the ticker's callback suspended at its
    fetch, begun at 5000. *)
Definition awaiting : World := step connecting (ETickBegin 5000 5000).
Definition twoBinAwaiting : World := step twoBin (ETickBegin 5000 5000).

(** A stream is subscribed, a client in [bin] mode registers, the ticker
    fires and awaits its fetch, and the client closes. *)
Definition emptied : World :=
  run (init binConfig 0)
      [ESubscribe "s"; EUpgrade None "a"; ETickBegin 5000 5000; EClose "a"].

(** One client in [bin] mode whose socket has closed, pushed to at 4900. *)
Definition closedBin : World :=
  run (init binConfig 0)
      [EUpgrade None "a"; EOpen "a"; ETick 4900 4900 (FetchOk png);
       ETransport "a" CLOSED].

End Demo.

(** ** What one run of the push loop does, client by client *)

Section LoopSpec.
Variable randomCatUrl : nat -> string.

(** A due client is stamped with the time of the tick. *)
Definition stamp (t : Z) (c : WsClient) : WsClient :=
  if due t c then set_lastSentAt t c else c.

(** The frames the loop hands to the socket of [c], when the next random
    draw has index [n]. *)
Definition client_frames (t : Z) (binPayload : option Payload) (n : nat)
           (c : WsClient) : list Frame :=
  if due t c then
    match mode c with
    | url => [TextFrame (MsgCatUrl (randomCatUrl n) t)]
    | bin =>
        match binPayload with
        | Some p => [TextFrame (MsgCatBin (p_type p) t); BinaryFrame (p_bytes p)]
        | None => []
        end
    end
  else [].

Definition client_draws (t : Z) (c : WsClient) : nat :=
  if due t c && Mode_eqb (mode c) url then 1 else 0.

Fixpoint loop_log (t : Z) (binPayload : option Payload) (n : nat)
         (cs : JsMap.t WsClient) : list Effect :=
  match cs with
  | [] => []
  | (k, c) :: r =>
      map (WsSend k) (client_frames t binPayload n c)
          ++ loop_log t binPayload (n + client_draws t c) r
  end.
End LoopSpec.

(** The error notices of a failed fetch. *)
Definition notices (e : string) (cs : JsMap.t WsClient) : list Effect :=
  flat_map (fun kc => if wsOpen (snd kc)
                      then [WsSend (fst kc) (TextFrame (MsgError e))] else []) cs.

(** What the fetch stage of a tick logs, and the payload it leaves. *)
Definition fetch_log (fr : FetchResult) (w : World) : list Effect :=
  if someoneWantsBin w then
    FetchCatBytes :: match fr with
                     | FetchErr e => notices e (clients w)
                     | FetchOk _ => []
                     end
  else [].

Definition payload_of (fr : FetchResult) (w : World) : option Payload :=
  if someoneWantsBin w then
    match fr with FetchOk p => Some p | FetchErr _ => None end
  else None.

Definition failed (fr : FetchResult) (w : World) : bool :=
  someoneWantsBin w && match fr with FetchErr _ => true | FetchOk _ => false end.

Definition isSse (e : Effect) : bool :=
  match e with SseEnqueue _ _ => true | _ => false end.

(** The parts of the world that neither the push loop nor a broadcast
    touches. *)
Definition frame_eq (w w' : World) : Prop :=
  config w' = config w /\ sseClients w' = sseClients w
  /\ ticker w' = ticker w /\ timers w' = timers w
  /\ errors (state w') = errors (state w)
  /\ startedAt (state w') = startedAt (state w)
  /\ wsMessages (state w') = wsMessages (state w)
  /\ wsConnections (state w') = wsConnections (state w)
  /\ httpRequests (state w') = httpRequests (state w).

(** An event leaves the ticker and the keys of the registry alone. *)
Definition quiet (w w' : World) : Prop :=
  ticker w' = ticker w /\ JsMap.keys (clients w') = JsMap.keys (clients w).

(** The bound of the [interval] command, as the specification words it:
    a finite number between 200 and 60000. *)
Definition in_bound (ms : number) : Prop :=
  exists q : Q, ms = Fin q /\ (200 <= q)%Q /\ (q <= 60000)%Q.

(** Two entries of the registry that agree but for one field. *)
Definition only_stamp_differs (c c' : WsClient) : Prop :=
  ws c' = ws c /\ id c' = id c /\ intervalMs c' = intervalMs c
  /\ paused c' = paused c /\ mode c' = mode c.

Definition only_interval_differs (c c' : WsClient) : Prop :=
  ws c' = ws c /\ id c' = id c /\ paused c' = paused c
  /\ lastSentAt c' = lastSentAt c /\ mode c' = mode c.

Definition only_mode_differs (c c' : WsClient) : Prop :=
  ws c' = ws c /\ id c' = id c /\ intervalMs c' = intervalMs c
  /\ paused c' = paused c /\ lastSentAt c' = lastSentAt c.

(** What a callback works with once nothing more is awaited: the payload,
    the notices of the [catch], and whether the fetch failed. *)
Definition payload_in (o : option FetchResult) : option Payload :=
  match o with Some (FetchOk p) => Some p | _ => None end.

Definition notices_in (o : option FetchResult) (cs : JsMap.t WsClient)
  : list Effect :=
  match o with Some (FetchErr e) => notices e cs | _ => [] end.

Definition notice_in (o : option FetchResult) (c : WsClient) : list Frame :=
  match o with
  | Some (FetchErr e) => if wsOpen c then [TextFrame (MsgError e)] else []
  | _ => []
  end.

Definition failed_in (o : option FetchResult) : bool :=
  match o with Some (FetchErr _) => true | _ => false end.


(** What is assumed of [toLowerCase] where a theorem needs it: ASCII text
    is lowered letter by letter, and a leading brace stays in front
    whatever follows it. *)
Definition lowers_ascii (toLowerCase : string -> string) : Prop :=
  forall s, Js.is_ascii s = true -> toLowerCase s = Js.toLowerCase s.

Definition keeps_brace (toLowerCase : string -> string) : Prop :=
  forall r, exists r', toLowerCase (String "{" r) = String "{" r'.

(** ** Sentences of the specification, as they are worded *)

(** A tick whose fetch fails, taken where the callback resumes: one more
    error, every client in [bin] mode notified, no [bin] payload pushed,
    the due clients in [url] mode served. *)
Definition fetch_failure_as_stated
           (randomCatUrl : nat -> string) (randomMood : nat -> Mood) : Prop :=
  forall (t now : Z) (e : string) (w : World),
    NoDup (JsMap.keys (clients w)) ->
    is_pending t w = true ->
    errors (state (tick_resume randomCatUrl randomMood t now (FetchErr e) w))
    = S (errors (state w))
    /\ (forall k c, JsMap.get k (clients w) = Some c -> mode c = bin ->
          In (TextFrame (MsgError e))
             (frames_to k (since w (tick_resume randomCatUrl randomMood t now (FetchErr e) w))))
    /\ (forall k,
          existsb isBinPush
                  (frames_to k (since w (tick_resume randomCatUrl randomMood t now (FetchErr e) w)))
          = false)
    /\ (forall k c, JsMap.get k (clients w) = Some c -> mode c = url -> due t c = true ->
          exists u, In (TextFrame (MsgCatUrl u t))
                       (frames_to k (since w (tick_resume randomCatUrl randomMood t now (FetchErr e) w)))).

(** [lastSentAt] moves only with an attempted push: a client that is
    handed a payload frame by the callback is stamped, any other keeps its
    stamp. *)
Definition stamp_only_on_push_as_stated
           (randomCatUrl : nat -> string) (randomMood : nat -> Mood) : Prop :=
  forall (t now : Z) (fr : FetchResult) (w : World) (k : string) (c c' : WsClient),
    NoDup (JsMap.keys (clients w)) ->
    is_pending t w = true ->
    JsMap.get k (clients w) = Some c ->
    JsMap.get k (clients (tick_resume randomCatUrl randomMood t now fr w)) = Some c' ->
    (existsb isPush (frames_to k (since w (tick_resume randomCatUrl randomMood t now fr w))) = true ->
     lastSentAt c' = t)
    /\ (existsb isPush (frames_to k (since w (tick_resume randomCatUrl randomMood t now fr w))) = false ->
        lastSentAt c' = lastSentAt c).


(** An upgrade request at or above [max_clients] is refused with the
    capacity error and registers nothing; one below it, from an allowed
    origin, is registered. *)
Definition upgrade_capacity_as_stated : Prop :=
  forall (origin : option string) (i : string) (w : World),
    (max_clients (config w) <= JsMap.size (clients w) ->
     handleWs origin i w = (TextResponse "Too many clients" 429, w))
    /\ (JsMap.size (clients w) < max_clients (config w) ->
        originAllowed origin (config w) = true ->
        fst (handleWs origin i w) = Upgraded i
        /\ JsMap.get i (clients (snd (handleWs origin i w)))
           = Some (newClient i (config w))).

(** ** Further parts of the program

    The pieces of [main.ts] and of the files under [lib/] that the tick, the
    registry and the command protocol do not reach: more string
    operations, the CORS headers, the configuration loader, the path
    guard, the MIME table and the file viewer. *)

Module JsStr.

(** [s.split(c)] for a separator of one character: the pieces between the
    occurrences of [c], empty pieces included. *)
Fixpoint split_char (c : ascii) (s : string) : list string :=
  match s with
  | EmptyString => [EmptyString]
  | String a r =>
      if Ascii.eqb a c then EmptyString :: split_char c r
      else match split_char c r with
           | h :: t => String a h :: t
           | [] => [String a EmptyString]
           end
  end.

(** [parts.join(sep)] *)
Definition join (sep : string) (parts : list string) : string :=
  String.concat sep parts.

(** [s.includes(c)] for one character. *)
Fixpoint includes_char (c : ascii) (s : string) : bool :=
  match s with
  | EmptyString => false
  | String a r => Ascii.eqb a c || includes_char c r
  end.

(** [s.replaceAll(c, rep)] for a pattern of one character. *)
Fixpoint replaceAll_char (c : ascii) (rep : string) (s : string) : string :=
  match s with
  | EmptyString => EmptyString
  | String a r =>
      if Ascii.eqb a c then rep ++ replaceAll_char c rep r
      else String a (replaceAll_char c rep r)
  end.

Definition LF : ascii := ascii_of_nat 10.
Definition CR : ascii := ascii_of_nat 13.

Definition cons_head (a : ascii) (l : list string) : list string :=
  match l with
  | h :: t => String a h :: t
  | [] => [String a EmptyString]
  end.

(** [s.split(/\r?\n/)]: a line ends at LF, and a CR right before that LF
    belongs to the separator. *)
Fixpoint split_lines (s : string) : list string :=
  match s with
  | EmptyString => [EmptyString]
  | String a r =>
      if Ascii.eqb a LF then EmptyString :: split_lines r
      else
        match r with
        | String b r' =>
            if Ascii.eqb a CR && Ascii.eqb b LF
            then EmptyString :: split_lines r'
            else cons_head a (split_lines r)
        | EmptyString => cons_head a (split_lines r)
        end
  end.

(** The cut of [line] at its first [=]: [line.slice(0, eq)] and
    [line.slice(eq + 1)], or [None] when [indexOf] gives -1. *)
Fixpoint cut_eq (s : string) : option (string * string) :=
  match s with
  | EmptyString => None
  | String a r =>
      if Ascii.eqb a "=" then Some (EmptyString, r)
      else match cut_eq r with
           | Some (k, v) => Some (String a k, v)
           | None => None
           end
  end.

Definition nonEmpty (s : string) : bool :=
  match s with EmptyString => false | String _ _ => true end.

End JsStr.

(** [corsHeaders(origin)]: the value of [access-control-allow-origin], the
    other two headers being constants; [None] is the empty header set. *)
Definition corsHeaders (origin : option string) (cfg : AppConfig) : option string :=
  if includes "*" (allow_origins cfg) then
    Some (match origin with Some o => o | None => "*" end)
  else
    match origin with
    | Some o =>
        if JsStr.nonEmpty o && includes o (allow_origins cfg) then Some o else None
    | None => None
    end.

(** *** [lib/config.ts] *)

Module Config.
Section Load.
Variable Number : string -> number.

(** [clampInt(v, min, max, fallback)] for a [v] read from the parsed file,
    a string or [undefined].  Every caller passes integers for the last
    three arguments, so the result is an integer: the floor of a finite
    number, or one of the arguments. *)
Definition clampInt (v : option string) (min max fallback : Z) : Z :=
  match (match v with Some s => Number s | None => NaN end) with
  | Fin q =>
      let x := Qfloor q in
      if x <? min then min
      else if max <? x then max
      else x
  | _ => fallback
  end.

(** The body of the loop of [parseCfg] for one raw line. *)
Definition parse_line (out : JsMap.t string) (rawLine : string) : JsMap.t string :=
  let line := Js.trim rawLine in
  if negb (JsStr.nonEmpty line) || Js.startsWith line "#" || Js.startsWith line ";"
  then out
  else match JsStr.cut_eq line with
       | None => out
       | Some (k, v) => JsMap.set (Js.trim k) (Js.trim v) out
       end.

(** [parseCfg(text)].  The record [out] is read back only under the six
    keys of [loadConfig], none of which the prototype of an object
    defines, so it is kept as a map. *)
Definition parseCfg (text : string) : JsMap.t string :=
  fold_left parse_line (JsStr.split_lines text) [].

Definition orElse (v : option string) (d : string) : string :=
  match v with Some s => s | None => d end.

(** [loadConfig(path)]; [file] is what [Deno.readTextFile(path)] gives,
    [None] when it throws. *)
Definition loadConfig (file : option string) : AppConfig :=
  match file with
  | None => DEFAULTS
  | Some text =>
      let kv := parseCfg text in
      let catMode :=
        if String.eqb (Js.toLowerCase (orElse (JsMap.get "cat_mode" kv) "url")) "bin"
        then bin else url in
      let allowRaw := Js.trim (orElse (JsMap.get "allow_origins" kv) "*") in
      let allowOrigins :=
        if String.eqb allowRaw "*" then ["*"]
        else filter JsStr.nonEmpty (map Js.trim (JsStr.split_char "," allowRaw)) in
      {| target_ip := orElse (JsMap.get "target_ip" kv) (target_ip DEFAULTS);
         port := clampInt (JsMap.get "port" kv) 1 65535 (port DEFAULTS);
         cat_interval_ms :=
           clampInt (JsMap.get "cat_interval_ms" kv) 200 60000 (cat_interval_ms DEFAULTS);
         cat_mode := catMode;
         max_clients :=
           clampInt (JsMap.get "max_clients" kv) 1 10000 (max_clients DEFAULTS);
         allow_origins :=
           match allowOrigins with [] => ["*"] | _ => allowOrigins end |}
  end.
End Load.
End Config.



(** *** The path guard [safeJoin] *)

Module SafePath.

(** [Error("path traversal denied")] and [Error("bad path")] *)
Inductive PathError : Type := TraversalDenied | BadPath.

Definition backslash : ascii := ascii_of_nat 92.

(** [p.replaceAll("\\", "/")] *)
Definition normalize (p : string) : string :=
  JsStr.replaceAll_char backslash "/" p.

(** The loop over [parts]: the first part that offends decides. *)
Fixpoint check_parts (parts : list string) : option PathError :=
  match parts with
  | [] => None
  | part :: r =>
      if String.eqb part "." || String.eqb part EmptyString then check_parts r
      else if String.eqb part ".." then Some TraversalDenied
      else if JsStr.includes_char zero part then Some BadPath
      else check_parts r
  end.

Definition parts_of (requested : string) : list string :=
  let req := normalize requested in
  let rel := if Js.startsWith req "/" then req else "/" ++ req in
  filter JsStr.nonEmpty (JsStr.split_char "/" rel).

(** [safeJoin(root, requested)], [inl] for a throw. *)
Definition safeJoin (root requested : string) : PathError + string :=
  let parts := parts_of requested in
  match check_parts parts with
  | Some e => inl e
  | None => inr (root ++ "/" ++ JsStr.join "/" parts)
  end.

End SafePath.

(** *** The MIME table *)

Module Mime.

Definition MAP : JsMap.t string :=
  [(".html", "text/html; charset=utf-8");
   (".js", "text/javascript; charset=utf-8");
   (".css", "text/css; charset=utf-8");
   (".svg", "image/svg+xml");
   (".png", "image/png");
   (".jpg", "image/jpeg");
   (".jpeg", "image/jpeg");
   (".gif", "image/gif");
   (".ico", "image/x-icon");
   (".txt", "text/plain; charset=utf-8");
   (".json", "application/json; charset=utf-8")].

(** [path.slice(path.lastIndexOf("."))], [None] when there is no dot. *)
Fixpoint from_last_dot (s : string) : option string :=
  match s with
  | EmptyString => None
  | String a r =>
      match from_last_dot r with
      | Some e => Some e
      | None => if Ascii.eqb a "." then Some s else None
      end
  end.

(** [contentTypeFromPath(path)] *)
Definition contentTypeFromPath (path : string) : string :=
  let ext := match from_last_dot path with
             | Some e => Js.toLowerCase e
             | None => EmptyString
             end in
  match JsMap.get ext MAP with
  | Some ty => ty
  | None => "application/octet-stream"
  end.

End Mime.

(** *** The file viewer of [/files/...] *)

Module Viewer.

(** The three [replaceAll] of [serveDataFile], in their order. *)
Definition escape (raw : string) : string :=
  JsStr.replaceAll_char ">" "&gt;"
    (JsStr.replaceAll_char "<" "&lt;"
       (JsStr.replaceAll_char "&" "&amp;" raw)).

(** The page of the viewer: the two holes of its template. *)
Record Page : Type := { viewing : string; shown : string }.

Fixpoint drop (n : nat) (s : string) : string :=
  match n, s with
  | O, _ => s
  | S n', String _ r => drop n' r
  | S _, EmptyString => EmptyString
  end.

(** [serveDataFile(req, pathname)] over a file system that answers
    [Deno.readTextFile]: [inl] when [safeJoin] throws, which happens before
    the [try]; [inr None] for the [null] of the [catch]. *)
Definition serveDataFile (readTextFile : string -> option string)
           (pathname : string) : SafePath.PathError + option Page :=
  let sliced := drop 6 pathname in
  let rel := if JsStr.nonEmpty sliced then sliced else "/" in
  match SafePath.safeJoin "./data" rel with
  | inl e => inl e
  | inr full =>
      match readTextFile full with
      | Some raw => inr (Some {| viewing := full; shown := escape raw |})
      | None => inr None
      end
  end.

End Viewer.

(** The events enqueued on the controller registered under [i], in order. *)
Definition events_to (i : string) (es : list Effect) : list SseEvent :=
  flat_map (fun e => match e with
                     | SseEnqueue j f => if String.eqb i j then [f] else []
                     | _ => []
                     end) es.

(** A client that the loop of a tick hands a payload to. *)
Definition pushed (t : Z) (binPayload : option Payload) (c : WsClient) : bool :=
  due t c
  && (Mode_eqb (mode c) url
      || match binPayload with Some _ => true | None => false end).

(** *** What the further properties are stated with *)

(** What a command may do to the world: nothing outside the registry and
    the log, nothing to another client, nothing to the socket, the id or
    the stamp of its own, no interval out of the bound, and at most one
    frame, addressed to its sender. *)
Definition command_effect (i : string) (w w' : World) : Prop :=
  config w' = config w /\ state w' = state w /\ sseClients w' = sseClients w
  /\ ticker w' = ticker w /\ timers w' = timers w /\ draws w' = draws w
  /\ (exists f : WsClient -> WsClient,
        clients w' = JsMap.update i f (clients w)
        /\ forall c, ws (f c) = ws c /\ id (f c) = id c
                     /\ lastSentAt (f c) = lastSentAt c
                     /\ (in_bound (intervalMs c) -> in_bound (intervalMs (f c))))
  /\ (exists fs : list Frame,
        log w' = (log w ++ map (WsSend i) fs)%list /\ (List.length fs <= 1)%nat).

(** The events a broadcast enqueues. *)
Definition sse_events (ev : SseEvent) (ss : JsMap.t SseClient) : list Effect :=
  flat_map (fun kc => if ctrl_usable (snd kc)
                      then [SseEnqueue (fst kc) ev] else []) ss.

(** How an entry of the registry may change in place: same key, and an
    interval inside the bound stays inside it. *)
Definition entry_kept (kc kc' : string * WsClient) : Prop :=
  fst kc = fst kc'
  /\ (in_bound (intervalMs (snd kc)) -> in_bound (intervalMs (snd kc'))).

(** The counters of [s'] are those of [s] or above; the start time is the
    same. *)
Definition counters_le (s s' : State) : Prop :=
  startedAt s' = startedAt s
  /\ (httpRequests s <= httpRequests s')%nat
  /\ (wsConnections s <= wsConnections s')%nat
  /\ (wsMessages s <= wsMessages s')%nat
  /\ (catsSent s <= catsSent s')%nat
  /\ (errors s <= errors s')%nat.

(** Timers created minus timers cleared, over a stretch of the log. *)
Fixpoint timers_alive (es : list Effect) : Z :=
  match es with
  | [] => 0
  | SetInterval _ :: r => timers_alive r + 1
  | ClearInterval _ :: r => timers_alive r - 1
  | _ :: r => timers_alive r
  end.

(** One for a ticker that is set, none for [null]. *)
Definition ticker_count (w : World) : Z :=
  match ticker w with Some _ => 1 | None => 0 end.

Definition isTimer (e : Effect) : bool :=
  match e with SetInterval _ | ClearInterval _ => true | _ => false end.

Example further_probe :
  JsStr.split_char "/" "/a//b" = [EmptyString; "a"; EmptyString; "b"]
  /\ JsStr.split_char "," EmptyString = [EmptyString]
  /\ SafePath.safeJoin "./public" "/css/../../etc" = inl SafePath.TraversalDenied
  /\ SafePath.safeJoin "./public" "/./a/b.txt" = inr "./public/./a/b.txt"
  /\ Mime.contentTypeFromPath "/img/Cat.PNG" = "image/png"
  /\ Mime.contentTypeFromPath "/a.b/c" = "application/octet-stream"
  /\ Viewer.escape "a<b>&c" = "a&lt;b&gt;&amp;c"
  /\ Config.parseCfg
       "# demo
port = 80
port=81
bad line
; x=1"
     = [("port", "81")].
Proof. repeat split; reflexivity. Qed.

Example split_probe :
  Js.split_ws "interval  1200" = ["interval"; "1200"]
  /\ Js.split_ws " a" = [EmptyString; "a"] /\ Js.split_ws "a " = ["a"; EmptyString]
  /\ Js.split_ws EmptyString = [EmptyString]
  /\ Js.trim "  pause  " = "pause" /\ Js.trim "   " = EmptyString
  /\ Js.toLowerCase "MoDe" = "mode".
Proof. repeat split; reflexivity. Qed.

(** ** The effect log *)

Lemma since_app (w w' : World) (d : list Effect) :
  log w' = (log w ++ d)%list -> since w w' = d.
Proof.
  unfold since. intros ->.
  rewrite skipn_app, skipn_all, Nat.sub_diag. reflexivity.
Qed.

Lemma since_refl (w w' : World) : log w' = log w -> since w w' = [].
Proof. intros H. apply since_app. now rewrite app_nil_r. Qed.

Lemma fetches_app (a b : list Effect) :
  fetches (a ++ b)%list = (fetches a + fetches b)%nat.
Proof. unfold fetches. now rewrite filter_app, length_app. Qed.

Lemma frames_to_app (i : string) (a b : list Effect) :
  frames_to i (a ++ b)%list = (frames_to i a ++ frames_to i b)%list.
Proof. unfold frames_to. apply flat_map_app. Qed.

Lemma frames_to_same (k : string) (fs : list Frame) :
  frames_to k (map (WsSend k) fs) = fs.
Proof.
  induction fs as [|f fs IH]; simpl; [reflexivity|].
  rewrite String.eqb_refl. simpl. now f_equal.
Qed.

Lemma frames_to_other (k k' : string) (fs : list Frame) :
  String.eqb k k' = false -> frames_to k (map (WsSend k') fs) = [].
Proof.
  intros H. induction fs as [|f fs IH]; simpl; [reflexivity|].
  now rewrite H.
Qed.

Lemma fetches_sends (k : string) (fs : list Frame) :
  fetches (map (WsSend k) fs) = 0%nat.
Proof. induction fs as [|f fs IH]; simpl; [reflexivity|exact IH]. Qed.

(** ** [Map] keeps its keys distinct *)

Lemma distinct_NoDup (l : list string) : distinct l = true <-> NoDup l.
Proof.
  induction l as [|x r IH]; simpl.
  - split; [constructor|reflexivity].
  - rewrite andb_true_iff, negb_true_iff, IH. split.
    + intros [Hx Hr]. constructor; [|assumption].
      intros Hin. assert (existsb (String.eqb x) r = true) as E.
      { apply existsb_exists. exists x. split; [assumption|apply String.eqb_refl]. }
      congruence.
    + intros H. inversion H as [|? ? Hx Hr]; subst. split; [|assumption].
      destruct (existsb (String.eqb x) r) eqn:E; [|reflexivity].
      apply existsb_exists in E as (y & Hy & Hxy).
      apply String.eqb_eq in Hxy. subst y. contradiction.
Qed.

Lemma get_In {V : Type} (k : string) (v : V) (m : JsMap.t V) :
  JsMap.get k m = Some v -> In (k, v) m.
Proof.
  induction m as [|[k' v'] r IH]; simpl; [discriminate|].
  destruct (String.eqb k k') eqn:E.
  - apply String.eqb_eq in E. intros [= ->]. subst. now left.
  - intros H. right. now apply IH.
Qed.

Lemma keys_set_in {V : Type} (k x : string) (v : V) (m : JsMap.t V) :
  In x (JsMap.keys (JsMap.set k v m)) <-> x = k \/ In x (JsMap.keys m).
Proof.
  induction m as [|[k' v'] r IH]; simpl.
  - intuition.
  - destruct (String.eqb k k') eqn:E; simpl.
    + apply String.eqb_eq in E. subst k'. intuition.
    + rewrite IH. intuition.
Qed.

Lemma set_NoDup {V : Type} (k : string) (v : V) (m : JsMap.t V) :
  NoDup (JsMap.keys m) -> NoDup (JsMap.keys (JsMap.set k v m)).
Proof.
  induction m as [|[k' v'] r IH]; simpl; intros H.
  - constructor; [intros []|constructor].
  - inversion H as [|? ? Hk Hr]; subst.
    destruct (String.eqb k k') eqn:E; simpl.
    + now constructor.
    + constructor; [|now apply IH].
      fold (JsMap.keys (JsMap.set k v r)). rewrite keys_set_in.
      intros [->|Hin]; [|contradiction].
      now rewrite String.eqb_refl in E.
Qed.

Lemma keys_delete_in {V : Type} (k x : string) (m : JsMap.t V) :
  In x (JsMap.keys (JsMap.delete k m)) -> In x (JsMap.keys m).
Proof.
  induction m as [|[k' v'] r IH]; simpl; [tauto|].
  destruct (String.eqb k k'); simpl; intuition.
Qed.

Lemma delete_NoDup {V : Type} (k : string) (m : JsMap.t V) :
  NoDup (JsMap.keys m) -> NoDup (JsMap.keys (JsMap.delete k m)).
Proof.
  induction m as [|[k' v'] r IH]; simpl; intros H; [constructor|].
  inversion H as [|? ? Hk Hr]; subst.
  destruct (String.eqb k k'); simpl; [assumption|].
  constructor; [|now apply IH].
  intros Hin. apply Hk. eapply keys_delete_in. exact Hin.
Qed.

Lemma keys_update {V : Type} (k : string) (f : V -> V) (m : JsMap.t V) :
  JsMap.keys (JsMap.update k f m) = JsMap.keys m.
Proof.
  induction m as [|[k' v'] r IH]; simpl; [reflexivity|].
  destruct (String.eqb k k'); simpl; [reflexivity|].
  f_equal. exact IH.
Qed.

Lemma get_update {V : Type} (k : string) (f : V -> V) (m : JsMap.t V) (v : V) :
  JsMap.get k m = Some v -> JsMap.get k (JsMap.update k f m) = Some (f v).
Proof.
  induction m as [|[k' v'] r IH]; simpl; [discriminate|].
  destruct (String.eqb k k') eqn:E; simpl; rewrite E.
  - now intros [= ->].
  - exact IH.
Qed.

Lemma get_update_other {V : Type} (i j : string) (f : V -> V) (m : JsMap.t V) :
  j <> i -> JsMap.get j (JsMap.update i f m) = JsMap.get j m.
Proof.
  intros Hne. induction m as [|[k v] r IH]; simpl; [reflexivity|].
  destruct (String.eqb i k) eqn:E; simpl.
  - apply String.eqb_eq in E. subst k.
    destruct (String.eqb j i) eqn:E'; [|reflexivity].
    apply String.eqb_eq in E'. contradiction.
  - destruct (String.eqb j k); [reflexivity|exact IH].
Qed.

Lemma get_set_same {V : Type} (k : string) (v : V) (m : JsMap.t V) :
  JsMap.get k (JsMap.set k v m) = Some v.
Proof.
  induction m as [|[k' v'] r IH]; simpl.
  - now rewrite String.eqb_refl.
  - destruct (String.eqb k k') eqn:E; simpl; rewrite E; [reflexivity|exact IH].
Qed.


Lemma size_zero {V : Type} (m : JsMap.t V) :
  (JsMap.size m =? 0) = true <-> m = [].
Proof.
  unfold JsMap.size. destruct m as [|x r].
  - split; reflexivity.
  - split; [|discriminate].
    intros H. apply Z.eqb_eq in H. simpl List.length in H. lia.
Qed.

(** ** The push loop *)


Lemma frame_eq_refl (w : World) : frame_eq w w.
Proof. unfold frame_eq. tauto. Qed.

Lemma frame_eq_trans (a b c : World) :
  frame_eq a b -> frame_eq b c -> frame_eq a c.
Proof. unfold frame_eq. intuition congruence. Qed.

Section TickFacts.
Variable randomCatUrl : nat -> string.
Variable randomMood : nat -> Mood.

Lemma push_one_spec (t : Z) (bp : option Payload) (k : string)
      (c : WsClient) (w : World) :
  fst (push_one randomCatUrl t bp k c w) = stamp t c
  /\ log (snd (push_one randomCatUrl t bp k c w))
     = (log w ++ map (WsSend k) (client_frames randomCatUrl t bp (draws w) c))%list
  /\ draws (snd (push_one randomCatUrl t bp k c w)) = (draws w + client_draws t c)%nat
  /\ clients (snd (push_one randomCatUrl t bp k c w)) = clients w
  /\ frame_eq w (snd (push_one randomCatUrl t bp k c w)).
Proof.
  unfold push_one, stamp, client_frames, client_draws, due, ws_send.
  remember (num_ltb (ofZ (t - lastSentAt c)) (intervalMs c)) as late eqn:Hl.
  clear Hl.
  destruct (paused c) eqn:Hp; simpl.
  { rewrite app_nil_r, Nat.add_0_r. auto using frame_eq_refl. }
  destruct (wsOpen c) eqn:Ho; simpl.
  2:{ rewrite app_nil_r, Nat.add_0_r. auto using frame_eq_refl. }
  destruct late; simpl.
  { rewrite app_nil_r, Nat.add_0_r. auto using frame_eq_refl. }
  unfold wsOpen in *. simpl. rewrite Ho.
  destruct (mode c) eqn:Hm; simpl.
  - rewrite Nat.add_1_r. unfold frame_eq. simpl. tauto.
  - destruct bp as [p|]; simpl.
    + rewrite Nat.add_0_r, <- app_assoc.
      unfold frame_eq. simpl. tauto.
    + rewrite app_nil_r, Nat.add_0_r. auto using frame_eq_refl.
Qed.

Lemma push_loop_spec (t : Z) (bp : option Payload) (cs : JsMap.t WsClient) :
  forall w : World,
    fst (push_loop randomCatUrl t bp cs w) = map (fun kc => (fst kc, stamp t (snd kc))) cs
    /\ log (snd (push_loop randomCatUrl t bp cs w))
       = (log w ++ loop_log randomCatUrl t bp (draws w) cs)%list
    /\ clients (snd (push_loop randomCatUrl t bp cs w)) = clients w
    /\ frame_eq w (snd (push_loop randomCatUrl t bp cs w)).
Proof.
  induction cs as [|[k c] r IH]; intros w; simpl.
  - rewrite app_nil_r. auto using frame_eq_refl.
  - destruct (push_one_spec t bp k c w) as (H1 & H2 & H3 & H4 & H5).
    destruct (push_one randomCatUrl t bp k c w) as [c' w1]. simpl in *.
    specialize (IH w1). destruct IH as (I1 & I2 & I3 & I4).
    destruct (push_loop randomCatUrl t bp r w1) as [r' w2]. simpl in *.
    subst c' r'. split; [reflexivity|]. split; [|split].
    + rewrite I2, H2, H3, app_assoc. reflexivity.
    + congruence.
    + apply (frame_eq_trans _ _ _ H5 I4).
Qed.

Lemma fetch_step_spec (fr : FetchResult) (w : World) :
  fst (fetch_step fr w) = payload_of fr w
  /\ log (snd (fetch_step fr w)) = (log w ++ fetch_log fr w)%list
  /\ draws (snd (fetch_step fr w)) = draws w
  /\ clients (snd (fetch_step fr w)) = clients w
  /\ errors (state (snd (fetch_step fr w)))
     = (errors (state w) + if failed fr w then 1 else 0)%nat
  /\ catsSent (state (snd (fetch_step fr w))) = catsSent (state w)
  /\ config (snd (fetch_step fr w)) = config w
  /\ sseClients (snd (fetch_step fr w)) = sseClients w
  /\ ticker (snd (fetch_step fr w)) = ticker w.
Proof.
  unfold fetch_step, payload_of, fetch_log, failed, sendToOpen, notices.
  destruct (someoneWantsBin w); [destruct fr as [p|e]|]; simpl;
    rewrite ?app_nil_r, ?Nat.add_0_r, ?Nat.add_1_r, <- ?app_assoc; simpl;
    repeat split; reflexivity.
Qed.

Lemma broadcastSse_spec (ev : SseEvent) (w : World) :
  exists pl : list Effect,
    forallb isSse pl = true
    /\ broadcastSse ev w = emit pl w
    /\ (forall k c, In (k, c) (sseClients w) -> ctrl_usable c = true ->
                    In (SseEnqueue k ev) pl).
Proof.
  unfold broadcastSse. eexists. split; [|split; [reflexivity|]].
  - induction (sseClients w) as [|[k c] r IH]; simpl; [reflexivity|].
    destruct (ctrl_usable c); simpl; exact IH.
  - intros k c Hin Hu. apply in_flat_map. exists (k, c). split; [assumption|].
    simpl. rewrite Hu. now left.
Qed.

Lemma push_one_cats (t : Z) (bp : option Payload) (k : string)
      (c : WsClient) (w : World) :
  catsSent (state (snd (push_one randomCatUrl t bp k c w)))
  = (catsSent (state w) + if pushed t bp c then 1 else 0)%nat.
Proof.
  unfold push_one, pushed, due, ws_send.
  remember (num_ltb (ofZ (t - lastSentAt c)) (intervalMs c)) as late eqn:Hl.
  clear Hl.
  destruct (paused c); simpl; [now rewrite Nat.add_0_r|].
  destruct (wsOpen c) eqn:Ho; simpl; [|now rewrite Nat.add_0_r].
  destruct late; simpl; [now rewrite Nat.add_0_r|].
  unfold wsOpen in *. simpl. rewrite Ho.
  destruct (mode c); simpl; [now rewrite Nat.add_1_r|].
  destruct bp; simpl; [now rewrite Nat.add_1_r|now rewrite Nat.add_0_r].
Qed.

Lemma push_loop_cats (t : Z) (bp : option Payload) (cs : JsMap.t WsClient) :
  forall w,
    catsSent (state (snd (push_loop randomCatUrl t bp cs w)))
    = (catsSent (state w)
       + List.length (filter (pushed t bp) (JsMap.values cs)))%nat.
Proof.
  induction cs as [|[k c] r IH]; intros w; simpl; [now rewrite Nat.add_0_r|].
  pose proof (push_one_cats t bp k c w) as H1.
  destruct (push_one randomCatUrl t bp k c w) as [c' w1]. simpl in H1.
  specialize (IH w1).
  destruct (push_loop randomCatUrl t bp r w1) as [r' w2]. simpl in *.
  rewrite IH, H1. destruct (pushed t bp c); simpl; lia.
Qed.

Lemma push_one_pending (t : Z) (bp : option Payload) (k : string)
      (c : WsClient) (w : World) :
  pending (snd (push_one randomCatUrl t bp k c w)) = pending w.
Proof.
  unfold push_one, ws_send.
  remember (num_ltb (ofZ (t - lastSentAt c)) (intervalMs c)) as late eqn:Hl.
  clear Hl.
  destruct (paused c); simpl; [reflexivity|].
  destruct (wsOpen c) eqn:Ho; simpl; [|reflexivity].
  destruct late; simpl; [reflexivity|].
  unfold wsOpen in *. simpl. rewrite Ho.
  destruct (mode c); simpl; [reflexivity|].
  destruct bp; reflexivity.
Qed.

Lemma push_loop_pending (t : Z) (bp : option Payload) (cs : JsMap.t WsClient) :
  forall w, pending (snd (push_loop randomCatUrl t bp cs w)) = pending w.
Proof.
  induction cs as [|[k c] r IH]; intros w; simpl; [reflexivity|].
  pose proof (push_one_pending t bp k c w) as H1.
  destruct (push_one randomCatUrl t bp k c w) as [c' w1]. simpl in H1.
  specialize (IH w1).
  destruct (push_loop randomCatUrl t bp r w1) as [r' w2]. simpl in *.
  congruence.
Qed.

(** The push loop and the pulse, as a whole. *)
Lemma finish_spec (t now : Z) (bp : option Payload) (w : World) :
  exists n : nat,
    log (tick_finish randomCatUrl randomMood t now bp w)
    = (log w ++ loop_log randomCatUrl t bp (draws w) (clients w)
             ++ sse_events
                  (SsePulse ((now - startedAt (state w)) / 1000)
                            (JsMap.size (clients w))
                            (catsSent (state w)
                             + List.length (filter (pushed t bp)
                                                   (JsMap.values (clients w))))%nat
                            (randomMood n))
                  (sseClients w))%list
    /\ clients (tick_finish randomCatUrl randomMood t now bp w)
       = map (fun kc => (fst kc, stamp t (snd kc))) (clients w)
    /\ catsSent (state (tick_finish randomCatUrl randomMood t now bp w))
       = (catsSent (state w)
          + List.length (filter (pushed t bp) (JsMap.values (clients w))))%nat
    /\ frame_eq w (tick_finish randomCatUrl randomMood t now bp w)
    /\ pending (tick_finish randomCatUrl randomMood t now bp w) = pending w.
Proof.
  unfold tick_finish.
  destruct (push_loop_spec t bp (clients w) w) as (P1 & P2 & P3 & P4).
  pose proof (push_loop_cats t bp (clients w) w) as P5.
  pose proof (push_loop_pending t bp (clients w) w) as P6.
  destruct (push_loop randomCatUrl t bp (clients w) w) as [cs w2].
  cbn [fst snd] in *.
  destruct P4 as (Q1 & Q2 & Q3 & Q4 & Q5 & Q6 & Q7 & Q8 & Q9).
  exists (draws w2). unfold broadcastSse, pulse, sse_events. simpl.
  assert (JsMap.size cs = JsMap.size (clients w)) as ->.
  { subst cs. unfold JsMap.size. now rewrite length_map. }
  rewrite P2, Q2, Q6, P5, <- !app_assoc.
  unfold frame_eq. simpl. repeat split; congruence.
Qed.

Lemma settle_spec (fr : FetchResult) (w : World) :
  fst (tick_settle fr w) = payload_in (Some fr)
  /\ log (snd (tick_settle fr w))
     = (log w ++ notices_in (Some fr) (clients w))%list
  /\ draws (snd (tick_settle fr w)) = draws w
  /\ clients (snd (tick_settle fr w)) = clients w
  /\ errors (state (snd (tick_settle fr w)))
     = (errors (state w) + if failed_in (Some fr) then 1 else 0)%nat
  /\ catsSent (state (snd (tick_settle fr w))) = catsSent (state w)
  /\ startedAt (state (snd (tick_settle fr w))) = startedAt (state w)
  /\ httpRequests (state (snd (tick_settle fr w))) = httpRequests (state w)
  /\ wsConnections (state (snd (tick_settle fr w))) = wsConnections (state w)
  /\ wsMessages (state (snd (tick_settle fr w))) = wsMessages (state w)
  /\ config (snd (tick_settle fr w)) = config w
  /\ sseClients (snd (tick_settle fr w)) = sseClients w
  /\ ticker (snd (tick_settle fr w)) = ticker w
  /\ timers (snd (tick_settle fr w)) = timers w
  /\ pending (snd (tick_settle fr w)) = pending w.
Proof.
  unfold tick_settle, sendToOpen, notices.
  destruct fr as [p|e]; simpl;
    rewrite ?app_nil_r, ?Nat.add_0_r, ?Nat.add_1_r;
    repeat split; reflexivity.
Qed.

(** The callback from the point where nothing more is awaited, as a
    whole. *)
Lemma rest_spec (t now : Z) (o : option FetchResult) (w : World) :
  exists n : nat,
    log (tick_rest randomCatUrl randomMood t now o w)
    = (log w ++ notices_in o (clients w)
             ++ loop_log randomCatUrl t (payload_in o) (draws w) (clients w)
             ++ sse_events
                  (SsePulse ((now - startedAt (state w)) / 1000)
                            (JsMap.size (clients w))
                            (catsSent (state w)
                             + List.length (filter (pushed t (payload_in o))
                                                   (JsMap.values (clients w))))%nat
                            (randomMood n))
                  (sseClients w))%list
    /\ clients (tick_rest randomCatUrl randomMood t now o w)
       = map (fun kc => (fst kc, stamp t (snd kc))) (clients w)
    /\ catsSent (state (tick_rest randomCatUrl randomMood t now o w))
       = (catsSent (state w)
          + List.length (filter (pushed t (payload_in o))
                                (JsMap.values (clients w))))%nat
    /\ errors (state (tick_rest randomCatUrl randomMood t now o w))
       = (errors (state w) + if failed_in o then 1 else 0)%nat
    /\ startedAt (state (tick_rest randomCatUrl randomMood t now o w))
       = startedAt (state w)
    /\ httpRequests (state (tick_rest randomCatUrl randomMood t now o w))
       = httpRequests (state w)
    /\ wsConnections (state (tick_rest randomCatUrl randomMood t now o w))
       = wsConnections (state w)
    /\ wsMessages (state (tick_rest randomCatUrl randomMood t now o w))
       = wsMessages (state w)
    /\ config (tick_rest randomCatUrl randomMood t now o w) = config w
    /\ sseClients (tick_rest randomCatUrl randomMood t now o w) = sseClients w
    /\ ticker (tick_rest randomCatUrl randomMood t now o w) = ticker w
    /\ timers (tick_rest randomCatUrl randomMood t now o w) = timers w
    /\ pending (tick_rest randomCatUrl randomMood t now o w) = pending w.
Proof.
  destruct o as [fr|]; cbn [tick_rest].
  - destruct (settle_spec fr w)
      as (S1 & S2 & S3 & S4 & S5 & S6 & S7 & S8 & S9 & S10 & S11 & S12 & S13 & S14 & S15).
    destruct (tick_settle fr w) as [bp w1]. cbn [fst snd] in *.
    destruct (finish_spec t now bp w1) as (n & F1 & F2 & F3 & F4 & F5).
    destruct F4 as (Q1 & Q2 & Q3 & Q4 & Q5 & Q6 & Q7 & Q8 & Q9).
    exists n. subst bp.
    rewrite F1, F2, F3, S2, S3, S4, S6, S7, S12, <- !app_assoc.
    repeat split; congruence.
  - destruct (finish_spec t now None w) as (n & F1 & F2 & F3 & F4 & F5).
    destruct F4 as (Q1 & Q2 & Q3 & Q4 & Q5 & Q6 & Q7 & Q8 & Q9).
    exists n. cbn [notices_in payload_in failed_in].
    rewrite F1, F2, F3, Nat.add_0_r.
    repeat split; congruence.
Qed.

(** One tick, as a whole. *)
Lemma tick_spec (t now : Z) (fr : FetchResult) (w : World) :
  clients w <> [] ->
  exists pl : list Effect,
    forallb isSse pl = true
    /\ log (tick randomCatUrl randomMood t now fr w)
       = (log w ++ fetch_log fr w
                ++ loop_log randomCatUrl t (payload_of fr w) (draws w) (clients w)
                ++ pl)%list
    /\ clients (tick randomCatUrl randomMood t now fr w)
       = map (fun kc => (fst kc, stamp t (snd kc))) (clients w)
    /\ errors (state (tick randomCatUrl randomMood t now fr w))
       = (errors (state w) + if failed fr w then 1 else 0)%nat
    /\ config (tick randomCatUrl randomMood t now fr w) = config w
    /\ sseClients (tick randomCatUrl randomMood t now fr w) = sseClients w
    /\ ticker (tick randomCatUrl randomMood t now fr w) = ticker w.
Proof.
  intros Hne. unfold tick.
  destruct (JsMap.size (clients w) =? 0) eqn:Hs.
  { apply size_zero in Hs. contradiction. }
  destruct (fetch_step_spec fr w) as (F1 & F2 & F3 & F4 & F5 & F6 & F7 & F8 & F9).
  destruct (fetch_step fr w) as [bp w1]. cbn [fst snd] in *.
  destruct (push_loop_spec t bp (clients w1) w1) as (P1 & P2 & P3 & P4).
  destruct (push_loop randomCatUrl t bp (clients w1) w1) as [cs w2].
  cbn [fst snd] in *.
  destruct P4 as (Q1 & Q2 & Q3 & Q4 & Q5 & _).
  destruct (broadcastSse_spec (pulse randomMood now (set_clients cs w2))
                              (set_clients cs w2)) as (pl & S1 & S2 & _).
  exists pl. rewrite S2. simpl. subst bp.
  rewrite P2, F2, F3, F4, <- !app_assoc.
  repeat split; try congruence.
Qed.
End TickFacts.

(** ** Reading the log of a tick *)

Lemma get_notin {V : Type} (k : string) (m : JsMap.t V) :
  JsMap.get k m = None <-> ~ In k (JsMap.keys m).
Proof.
  induction m as [|[k' v] r IH]; simpl.
  - split; [intros _ []|reflexivity].
  - destruct (String.eqb k k') eqn:E.
    + apply String.eqb_eq in E. subst k'. split; [discriminate|].
      intros H. exfalso. apply H. now left.
    + rewrite IH. apply String.eqb_neq in E. split.
      * intros H [H'|H']; [congruence|contradiction].
      * intros H H'. apply H. now right.
Qed.

Lemma sse_silent (k : string) (pl : list Effect) :
  forallb isSse pl = true -> frames_to k pl = [] /\ fetches pl = 0%nat.
Proof.
  induction pl as [|e r IH]; simpl; [auto|].
  intros H. apply andb_true_iff in H as [He Hr].
  destruct (IH Hr) as [I1 I2]. destruct e; try discriminate. simpl.
  split; assumption.
Qed.

Lemma fetches_notices (e : string) (cs : JsMap.t WsClient) :
  fetches (notices e cs) = 0%nat.
Proof.
  induction cs as [|[k c] r IH]; simpl; [reflexivity|].
  unfold notices in *. simpl. destruct (wsOpen c); simpl; exact IH.
Qed.

Lemma frames_to_notices_absent (e k : string) (cs : JsMap.t WsClient) :
  ~ In k (JsMap.keys cs) -> frames_to k (notices e cs) = [].
Proof.
  induction cs as [|[k' c] r IH]; simpl; [reflexivity|].
  intros H. unfold notices in *. simpl.
  assert (String.eqb k k' = false) as E.
  { apply String.eqb_neq. intros ->. apply H. now left. }
  rewrite frames_to_app, IH by tauto.
  destruct (wsOpen c); simpl; [rewrite E|]; reflexivity.
Qed.

Lemma frames_to_notices (e k : string) (c : WsClient) (cs : JsMap.t WsClient) :
  NoDup (JsMap.keys cs) -> JsMap.get k cs = Some c ->
  frames_to k (notices e cs)
  = if wsOpen c then [TextFrame (MsgError e)] else [].
Proof.
  induction cs as [|[k' c'] r IH]; simpl; [discriminate|].
  intros Hnd Hget. inversion Hnd as [|? ? Hk Hr]; subst.
  change (notices e ((k', c') :: r))
    with ((if wsOpen (snd (k', c'))
           then [WsSend (fst (k', c')) (TextFrame (MsgError e))] else [])
            ++ notices e r)%list.
  rewrite frames_to_app. simpl fst; simpl snd.
  destruct (String.eqb k k') eqn:E.
  - apply String.eqb_eq in E. subst k'. injection Hget as ->.
    rewrite frames_to_notices_absent by assumption.
    destruct (wsOpen c); simpl; [rewrite String.eqb_refl|]; reflexivity.
  - rewrite IH by assumption.
    destruct (wsOpen c'); simpl; [rewrite E|]; reflexivity.
Qed.

Section LoopLog.
Variable randomCatUrl : nat -> string.
Variables (t : Z) (bp : option Payload).

Lemma fetches_loop (cs : JsMap.t WsClient) :
  forall n, fetches (loop_log randomCatUrl t bp n cs) = 0%nat.
Proof.
  induction cs as [|[k c] r IH]; intros n; simpl; [reflexivity|].
  now rewrite fetches_app, fetches_sends, IH.
Qed.

Lemma frames_to_loop_absent (k : string) (cs : JsMap.t WsClient) :
  ~ In k (JsMap.keys cs) ->
  forall n, frames_to k (loop_log randomCatUrl t bp n cs) = [].
Proof.
  induction cs as [|[k' c] r IH]; intros H n; simpl; [reflexivity|].
  simpl in H. rewrite frames_to_app, IH by tauto.
  rewrite frames_to_other; [reflexivity|].
  apply String.eqb_neq. intros ->. apply H. now left.
Qed.

Lemma frames_to_loop (k : string) (c : WsClient) (cs : JsMap.t WsClient) :
  NoDup (JsMap.keys cs) -> JsMap.get k cs = Some c ->
  forall n, exists n',
    frames_to k (loop_log randomCatUrl t bp n cs)
    = client_frames randomCatUrl t bp n' c.
Proof.
  induction cs as [|[k' c'] r IH]; simpl; [discriminate|].
  intros Hnd Hget n. inversion Hnd as [|? ? Hk Hr]; subst.
  rewrite frames_to_app.
  destruct (String.eqb k k') eqn:E.
  - apply String.eqb_eq in E. subst k'. injection Hget as ->.
    exists n. rewrite frames_to_same, frames_to_loop_absent by assumption.
    apply app_nil_r.
  - rewrite frames_to_other by assumption. simpl.
    apply IH; assumption.
Qed.
End LoopLog.

Lemma due_wantsBin (t : Z) (c : WsClient) :
  mode c = bin -> due t c = true -> wantsBin c = true.
Proof.
  unfold due, wantsBin. intros -> H.
  apply andb_true_iff in H as [H _]. apply andb_true_iff in H as [H _].
  exact H.
Qed.

Lemma someoneWantsBin_intro (w : World) (k : string) (c : WsClient) :
  JsMap.get k (clients w) = Some c -> wantsBin c = true ->
  someoneWantsBin w = true.
Proof.
  intros Hget Hw. unfold someoneWantsBin. apply existsb_exists.
  exists c. split; [|assumption].
  apply get_In in Hget. unfold JsMap.values.
  change c with (snd (k, c)). now apply in_map.
Qed.

Lemma get_nonempty {V : Type} (k : string) (v : V) (m : JsMap.t V) :
  JsMap.get k m = Some v -> m <> [].
Proof. destruct m; [discriminate|discriminate]. Qed.

Lemma someoneWantsBin_nonempty (w : World) :
  someoneWantsBin w = true -> clients w <> [].
Proof.
  unfold someoneWantsBin. destruct (clients w); [discriminate|discriminate].
Qed.

(** ** The tick dispatcher: fetch once, share the result *)

Section Dispatcher.
Variable randomCatUrl : nat -> string.
Variable randomMood : nat -> Mood.

Lemma tick_since (t now : Z) (fr : FetchResult) (w : World) :
  clients w <> [] ->
  exists pl : list Effect,
    forallb isSse pl = true
    /\ since w (tick randomCatUrl randomMood t now fr w)
       = (fetch_log fr w
            ++ loop_log randomCatUrl t (payload_of fr w) (draws w) (clients w)
            ++ pl)%list.
Proof.
  intros Hne. destruct (tick_spec randomCatUrl randomMood t now fr w Hne)
    as (pl & Hpl & Hlog & _).
  exists pl. split; [assumption|]. now apply since_app.
Qed.

Lemma tick_fetches (t now : Z) (fr : FetchResult) (w : World) :
  fetches (since w (tick randomCatUrl randomMood t now fr w))
  = if someoneWantsBin w then 1%nat else 0%nat.
Proof.
  destruct (clients w) as [|kc r] eqn:Hc.
  - unfold tick, someoneWantsBin. rewrite Hc. simpl.
    now rewrite since_refl.
  - destruct (tick_since t now fr w) as (pl & Hpl & ->).
    { rewrite Hc. discriminate. }
    rewrite !fetches_app, fetches_loop.
    destruct (sse_silent EmptyString pl Hpl) as [_ ->].
    unfold fetch_log. destruct (someoneWantsBin w); [|reflexivity].
    destruct fr as [p|e]; [reflexivity|].
    change (fetches (FetchCatBytes :: notices e (clients w)))
      with (S (fetches (notices e (clients w)))).
    now rewrite fetches_notices.
Qed.

Lemma someoneWantsBin_iff (w : World) :
  someoneWantsBin w = true
  <-> exists k c, In (k, c) (clients w) /\ mode c = bin /\ paused c = false.
Proof.
  unfold someoneWantsBin, wantsBin. rewrite existsb_exists. split.
  - intros (c & Hin & H). apply andb_true_iff in H as [Hm Hp].
    apply in_map_iff in Hin as ([k c'] & <- & Hin).
    exists k, c'. simpl in *. repeat split; [assumption| |].
    + destruct (mode c'); [discriminate|reflexivity].
    + now apply negb_true_iff.
  - intros (k & c & Hin & Hm & Hp). exists c. split.
    + change c with (snd (k, c)). now apply in_map.
    + rewrite Hm, Hp. reflexivity.
Qed.

End Dispatcher.

(** ** The frames one client is handed in a tick *)

Lemma get_map_values {V : Type} (f : V -> V) (k : string) (m : JsMap.t V) :
  JsMap.get k (map (fun kc => (fst kc, f (snd kc))) m)
  = option_map f (JsMap.get k m).
Proof.
  induction m as [|[k' v] r IH]; simpl; [reflexivity|].
  destruct (String.eqb k k'); [reflexivity|exact IH].
Qed.

Lemma client_frames_no_payload (rc : nat -> string) (t : Z) (n : nat) (c : WsClient) :
  existsb isBinPush (client_frames rc t None n c) = false.
Proof.
  unfold client_frames. destruct (due t c); [|reflexivity].
  destruct (mode c); reflexivity.
Qed.

Lemma client_frames_pushed (rc : nat -> string) (t : Z) (bp : option Payload)
      (n : nat) (c : WsClient) :
  existsb isPush (client_frames rc t bp n c)
  = due t c && (Mode_eqb (mode c) url || match bp with Some _ => true | None => false end).
Proof.
  unfold client_frames. destruct (due t c); [|reflexivity].
  destruct (mode c); [reflexivity|]. destruct bp; reflexivity.
Qed.

Section ClientView.
Variable randomCatUrl : nat -> string.
Variable randomMood : nat -> Mood.

Lemma tick_frames_absent (t now : Z) (fr : FetchResult) (w : World) (k : string) :
  JsMap.get k (clients w) = None ->
  frames_to k (since w (tick randomCatUrl randomMood t now fr w)) = [].
Proof.
  intros Hget. destruct (clients w) as [|kc r] eqn:Hc.
  - unfold tick. rewrite Hc. simpl. now rewrite since_refl.
  - destruct (tick_since randomCatUrl randomMood t now fr w) as (pl & Hpl & ->).
    { rewrite Hc. discriminate. }
    rewrite <- Hc in *. apply get_notin in Hget.
    rewrite !frames_to_app, frames_to_loop_absent by assumption.
    destruct (sse_silent k pl Hpl) as [-> _]. rewrite !app_nil_r.
    unfold fetch_log. destruct (someoneWantsBin w); [|reflexivity].
    destruct fr as [p|e]; [reflexivity|].
    change (frames_to k (FetchCatBytes :: notices e (clients w)))
      with (frames_to k (notices e (clients w))).
    now apply frames_to_notices_absent.
Qed.

End ClientView.

(** ** The callback in its two parts *)

Lemma frames_to_sse_events (k : string) (ev : SseEvent) (ss : JsMap.t SseClient) :
  frames_to k (sse_events ev ss) = [].
Proof.
  induction ss as [|[k' c] r IH]; [reflexivity|].
  unfold sse_events in *. simpl. destruct (ctrl_usable c); simpl; exact IH.
Qed.

Lemma fetches_sse_events (ev : SseEvent) (ss : JsMap.t SseClient) :
  fetches (sse_events ev ss) = 0%nat.
Proof.
  induction ss as [|[k' c] r IH]; [reflexivity|].
  unfold sse_events in *. simpl. destruct (ctrl_usable c); simpl; exact IH.
Qed.

Lemma get_of_in {V : Type} (k : string) (v : V) (m : JsMap.t V) :
  NoDup (JsMap.keys m) -> In (k, v) m -> JsMap.get k m = Some v.
Proof.
  induction m as [|[k' v'] r IH]; intros Hnd Hin; [destruct Hin|].
  simpl in *. inversion Hnd as [|? ? Hk Hr]; subst.
  destruct Hin as [[= -> ->]|Hin]; [now rewrite String.eqb_refl|].
  destruct (String.eqb k k') eqn:E; [|now apply IH].
  apply String.eqb_eq in E. subst k'. exfalso. apply Hk.
  change k with (fst (k, v)). now apply in_map.
Qed.

Lemma remove_first_head (t : Z) (l : list Z) : remove_first t (t :: l) = l.
Proof. simpl. now rewrite Z.eqb_refl. Qed.

Section Callback.
Variable randomCatUrl : nat -> string.
Variable randomMood : nat -> Mood.

Lemma rest_since (t now : Z) (o : option FetchResult) (w : World) :
  exists n : nat,
    since w (tick_rest randomCatUrl randomMood t now o w)
    = (notices_in o (clients w)
         ++ loop_log randomCatUrl t (payload_in o) (draws w) (clients w)
         ++ sse_events
              (SsePulse ((now - startedAt (state w)) / 1000)
                        (JsMap.size (clients w))
                        (catsSent (state (tick_rest randomCatUrl randomMood t now o w)))
                        (randomMood n))
              (sseClients w))%list.
Proof.
  destruct (rest_spec randomCatUrl randomMood t now o w) as (n & Hl & _ & Hc & _).
  exists n. rewrite Hc. now apply since_app.
Qed.

Lemma rest_fetches (t now : Z) (o : option FetchResult) (w : World) :
  fetches (since w (tick_rest randomCatUrl randomMood t now o w)) = 0%nat.
Proof.
  destruct (rest_since t now o w) as (n & ->).
  rewrite !fetches_app, fetches_loop, fetches_sse_events.
  destruct o as [[p|e]|]; simpl; try reflexivity.
  now rewrite fetches_notices.
Qed.

Lemma rest_frames (t now : Z) (o : option FetchResult) (w : World)
      (k : string) (c : WsClient) :
  NoDup (JsMap.keys (clients w)) ->
  JsMap.get k (clients w) = Some c ->
  exists n,
    frames_to k (since w (tick_rest randomCatUrl randomMood t now o w))
    = (notice_in o c ++ client_frames randomCatUrl t (payload_in o) n c)%list.
Proof.
  intros Hnd Hget. destruct (rest_since t now o w) as (n0 & ->).
  destruct (frames_to_loop randomCatUrl t (payload_in o)
                           k c (clients w) Hnd Hget (draws w)) as (n & Hn).
  exists n. rewrite !frames_to_app, Hn, frames_to_sse_events, app_nil_r.
  f_equal. destruct o as [[p|e]|]; simpl; try reflexivity.
  now apply frames_to_notices.
Qed.

Lemma rest_frames_absent (t now : Z) (o : option FetchResult) (w : World)
      (k : string) :
  JsMap.get k (clients w) = None ->
  frames_to k (since w (tick_rest randomCatUrl randomMood t now o w)) = [].
Proof.
  intros Hget. destruct (rest_since t now o w) as (n0 & ->).
  apply get_notin in Hget.
  rewrite !frames_to_app, frames_to_loop_absent, frames_to_sse_events by assumption.
  rewrite !app_nil_r.
  destruct o as [[p|e]|]; simpl; try reflexivity.
  now apply frames_to_notices_absent.
Qed.

Lemma rest_client (t now : Z) (o : option FetchResult) (w : World)
      (k : string) (c : WsClient) :
  JsMap.get k (clients w) = Some c ->
  JsMap.get k (clients (tick_rest randomCatUrl randomMood t now o w))
  = Some (stamp t c).
Proof.
  intros Hget.
  destruct (rest_spec randomCatUrl randomMood t now o w) as (n & _ & Hc & _).
  now rewrite Hc, (get_map_values (stamp t)), Hget.
Qed.

(** The two parts of the callback, by their cases. *)
Lemma resume_rest (t now : Z) (fr : FetchResult) (w : World) :
  is_pending t w = true ->
  tick_resume randomCatUrl randomMood t now fr w
  = tick_rest randomCatUrl randomMood t now (Some fr)
              (set_pending (remove_first t (pending w)) w).
Proof. intros H. unfold tick_resume. now rewrite H. Qed.

Lemma resume_idle (t now : Z) (fr : FetchResult) (w : World) :
  is_pending t w = false -> tick_resume randomCatUrl randomMood t now fr w = w.
Proof. intros H. unfold tick_resume. now rewrite H. Qed.

Lemma begin_empty (t now : Z) (w : World) :
  clients w = [] -> tick_begin randomCatUrl randomMood t now w = w.
Proof. intros H. unfold tick_begin. now rewrite H. Qed.

Lemma begin_await (t now : Z) (w : World) :
  someoneWantsBin w = true ->
  tick_begin randomCatUrl randomMood t now w
  = set_pending (t :: pending w) (emit [FetchCatBytes] w).
Proof.
  intros H. unfold tick_begin. rewrite H.
  destruct (JsMap.size (clients w) =? 0) eqn:E; [|reflexivity].
  apply size_zero in E. now apply someoneWantsBin_nonempty in H.
Qed.

Lemma begin_rest (t now : Z) (w : World) :
  clients w <> [] -> someoneWantsBin w = false ->
  tick_begin randomCatUrl randomMood t now w
  = tick_rest randomCatUrl randomMood t now None w.
Proof.
  intros Hne H. unfold tick_begin. rewrite H.
  destruct (JsMap.size (clients w) =? 0) eqn:E; [|reflexivity].
  apply size_zero in E. contradiction.
Qed.

(** A callback during whose fetch nothing else runs is [tick]. *)
Lemma tick_uninterleaved (t now now' : Z) (fr : FetchResult) (w : World) :
  (someoneWantsBin w = true ->
   tick_resume randomCatUrl randomMood t now fr
               (tick_begin randomCatUrl randomMood t now' w)
   = tick randomCatUrl randomMood t now fr w)
  /\ (someoneWantsBin w = false ->
      tick_begin randomCatUrl randomMood t now w
      = tick randomCatUrl randomMood t now fr w).
Proof.
  split; intros H.
  - rewrite (begin_await t now' w H).
    unfold tick_resume, is_pending. cbn [pending set_pending existsb].
    rewrite Z.eqb_refl. cbn [orb]. rewrite remove_first_head.
    unfold tick, fetch_step. rewrite H.
    destruct (JsMap.size (clients w) =? 0) eqn:E.
    { apply size_zero in E. now apply someoneWantsBin_nonempty in H. }
    unfold tick_finish. destruct w, fr; reflexivity.
  - unfold tick_begin, tick, fetch_step. rewrite H. reflexivity.
Qed.

Lemma resume_frames (t now : Z) (fr : FetchResult) (w : World)
      (k : string) (c : WsClient) :
  NoDup (JsMap.keys (clients w)) ->
  JsMap.get k (clients w) = Some c ->
  is_pending t w = true ->
  exists n,
    frames_to k (since w (tick_resume randomCatUrl randomMood t now fr w))
    = (notice_in (Some fr) c
         ++ client_frames randomCatUrl t (payload_in (Some fr)) n c)%list.
Proof.
  intros Hnd Hget Hp. rewrite (resume_rest t now fr w Hp).
  exact (rest_frames t now (Some fr) (set_pending _ w) k c Hnd Hget).
Qed.

Lemma resume_frames_absent (t now : Z) (fr : FetchResult) (w : World) (k : string) :
  JsMap.get k (clients w) = None ->
  frames_to k (since w (tick_resume randomCatUrl randomMood t now fr w)) = [].
Proof.
  intros Hget. destruct (is_pending t w) eqn:Hp.
  - rewrite (resume_rest t now fr w Hp).
    exact (rest_frames_absent t now (Some fr) (set_pending _ w) k Hget).
  - rewrite (resume_idle t now fr w Hp). now rewrite since_refl.
Qed.

Lemma resume_fetches (t now : Z) (fr : FetchResult) (w : World) :
  fetches (since w (tick_resume randomCatUrl randomMood t now fr w)) = 0%nat.
Proof.
  destruct (is_pending t w) eqn:Hp.
  - rewrite (resume_rest t now fr w Hp).
    exact (rest_fetches t now (Some fr) (set_pending _ w)).
  - rewrite (resume_idle t now fr w Hp). now rewrite since_refl.
Qed.

Lemma resume_client (t now : Z) (fr : FetchResult) (w : World)
      (k : string) (c : WsClient) :
  is_pending t w = true ->
  JsMap.get k (clients w) = Some c ->
  JsMap.get k (clients (tick_resume randomCatUrl randomMood t now fr w))
  = Some (stamp t c).
Proof.
  intros Hp Hget. rewrite (resume_rest t now fr w Hp).
  exact (rest_client t now (Some fr) (set_pending _ w) k c Hget).
Qed.

Lemma begin_fetches (t now : Z) (w : World) :
  fetches (since w (tick_begin randomCatUrl randomMood t now w))
  = if someoneWantsBin w then 1%nat else 0%nat.
Proof.
  destruct (someoneWantsBin w) eqn:Hs.
  - rewrite (begin_await t now w Hs).
    assert (since w (set_pending (t :: pending w) (emit [FetchCatBytes] w))
            = [FetchCatBytes]) as -> by now apply since_app.
    reflexivity.
  - destruct (clients w) as [|kc r] eqn:Hc.
    + rewrite begin_empty by exact Hc. now rewrite since_refl.
    + rewrite begin_rest; [|rewrite Hc; discriminate|exact Hs].
      apply rest_fetches.
Qed.

Lemma begin_cases (t now : Z) (w : World) :
  tick_begin randomCatUrl randomMood t now w = w
  \/ tick_begin randomCatUrl randomMood t now w
     = set_pending (t :: pending w) (emit [FetchCatBytes] w)
  \/ tick_begin randomCatUrl randomMood t now w
     = tick_rest randomCatUrl randomMood t now None w.
Proof.
  destruct (clients w) as [|kc r] eqn:Hc; [left; now apply begin_empty|].
  destruct (someoneWantsBin w) eqn:Hs.
  - right. left. now apply begin_await.
  - right. right. apply begin_rest; [rewrite Hc; discriminate|exact Hs].
Qed.

Lemma resume_cases (t now : Z) (fr : FetchResult) (w : World) :
  tick_resume randomCatUrl randomMood t now fr w = w
  \/ tick_resume randomCatUrl randomMood t now fr w
     = tick_rest randomCatUrl randomMood t now (Some fr)
                 (set_pending (remove_first t (pending w)) w).
Proof.
  destruct (is_pending t w) eqn:Hp.
  - right. now apply resume_rest.
  - left. now apply resume_idle.
Qed.

Lemma rest_keeps (t now : Z) (o : option FetchResult) (w : World) :
  config (tick_rest randomCatUrl randomMood t now o w) = config w
  /\ sseClients (tick_rest randomCatUrl randomMood t now o w) = sseClients w
  /\ ticker (tick_rest randomCatUrl randomMood t now o w) = ticker w
  /\ timers (tick_rest randomCatUrl randomMood t now o w) = timers w
  /\ pending (tick_rest randomCatUrl randomMood t now o w) = pending w
  /\ clients (tick_rest randomCatUrl randomMood t now o w)
     = map (fun kc => (fst kc, stamp t (snd kc))) (clients w).
Proof.
  destruct (rest_spec randomCatUrl randomMood t now o w)
    as (n & _ & Hc & _ & _ & _ & _ & _ & _ & H1 & H2 & H3 & H4 & H5).
  repeat split; assumption.
Qed.

Lemma rest_counters (t now : Z) (o : option FetchResult) (w : World) :
  counters_le (state w) (state (tick_rest randomCatUrl randomMood t now o w)).
Proof.
  destruct (rest_spec randomCatUrl randomMood t now o w)
    as (n & _ & _ & H1 & H2 & H3 & H4 & H5 & H6 & _).
  unfold counters_le. rewrite H1, H2, H3, H4, H5, H6.
  repeat split; lia.
Qed.

(** What the callback logs once nothing more is awaited: no timer, and
    no frame for an id that is not registered. *)
Lemma rest_log (t now : Z) (o : option FetchResult) (w : World) :
  exists d,
    log (tick_rest randomCatUrl randomMood t now o w) = (log w ++ d)%list
    /\ (forall i, JsMap.get i (clients w) = None -> frames_to i d = []).
Proof.
  destruct (rest_spec randomCatUrl randomMood t now o w) as (n & Hl & _).
  eexists. split; [exact Hl|]. intros i Hn.
  rewrite <- (since_app w _ _ Hl). now apply rest_frames_absent.
Qed.

Lemma begin_keeps (t now : Z) (w : World) :
  config (tick_begin randomCatUrl randomMood t now w) = config w
  /\ sseClients (tick_begin randomCatUrl randomMood t now w) = sseClients w
  /\ ticker (tick_begin randomCatUrl randomMood t now w) = ticker w
  /\ timers (tick_begin randomCatUrl randomMood t now w) = timers w.
Proof.
  destruct (begin_cases t now w) as [->|[->| ->]]; try (repeat split; reflexivity).
  destruct (rest_keeps t now None w) as (H1 & H2 & H3 & H4 & _).
  repeat split; assumption.
Qed.

Lemma resume_keeps (t now : Z) (fr : FetchResult) (w : World) :
  config (tick_resume randomCatUrl randomMood t now fr w) = config w
  /\ sseClients (tick_resume randomCatUrl randomMood t now fr w) = sseClients w
  /\ ticker (tick_resume randomCatUrl randomMood t now fr w) = ticker w
  /\ timers (tick_resume randomCatUrl randomMood t now fr w) = timers w.
Proof.
  destruct (resume_cases t now fr w) as [->| ->]; [repeat split; reflexivity|].
  destruct (rest_keeps t now (Some fr) (set_pending (remove_first t (pending w)) w))
    as (H1 & H2 & H3 & H4 & _).
  repeat split; assumption.
Qed.

Lemma begin_clients (t now : Z) (w : World) :
  clients (tick_begin randomCatUrl randomMood t now w) = clients w
  \/ clients (tick_begin randomCatUrl randomMood t now w)
     = map (fun kc => (fst kc, stamp t (snd kc))) (clients w).
Proof.
  destruct (begin_cases t now w) as [->|[->| ->]]; [now left|now left|right].
  now destruct (rest_keeps t now None w) as (_ & _ & _ & _ & _ & H).
Qed.

Lemma resume_clients (t now : Z) (fr : FetchResult) (w : World) :
  clients (tick_resume randomCatUrl randomMood t now fr w) = clients w
  \/ clients (tick_resume randomCatUrl randomMood t now fr w)
     = map (fun kc => (fst kc, stamp t (snd kc))) (clients w).
Proof.
  destruct (resume_cases t now fr w) as [->| ->]; [now left|right].
  now destruct (rest_keeps t now (Some fr)
                           (set_pending (remove_first t (pending w)) w))
    as (_ & _ & _ & _ & _ & H).
Qed.

Lemma begin_counters (t now : Z) (w : World) :
  counters_le (state w) (state (tick_begin randomCatUrl randomMood t now w)).
Proof.
  destruct (begin_cases t now w) as [->|[->| ->]];
    [| |apply rest_counters]; unfold counters_le; simpl; repeat split; lia.
Qed.

Lemma resume_counters (t now : Z) (fr : FetchResult) (w : World) :
  counters_le (state w) (state (tick_resume randomCatUrl randomMood t now fr w)).
Proof.
  destruct (resume_cases t now fr w) as [->| ->].
  - unfold counters_le; simpl; repeat split; lia.
  - exact (rest_counters t now (Some fr) (set_pending _ w)).
Qed.

Lemma begin_log (t now : Z) (w : World) :
  exists d,
    log (tick_begin randomCatUrl randomMood t now w) = (log w ++ d)%list
    /\ (forall i, JsMap.get i (clients w) = None -> frames_to i d = []).
Proof.
  destruct (begin_cases t now w) as [->|[->| ->]].
  - exists []. split; [now rewrite app_nil_r|reflexivity].
  - exists [FetchCatBytes]. split; reflexivity.
  - apply rest_log.
Qed.

Lemma resume_log (t now : Z) (fr : FetchResult) (w : World) :
  exists d,
    log (tick_resume randomCatUrl randomMood t now fr w) = (log w ++ d)%list
    /\ (forall i, JsMap.get i (clients w) = None -> frames_to i d = []).
Proof.
  destruct (resume_cases t now fr w) as [->| ->].
  - exists []. split; [now rewrite app_nil_r|reflexivity].
  - exact (rest_log t now (Some fr) (set_pending _ w)).
Qed.

Lemma stamp_fields (t : Z) (c : WsClient) :
  lastSentAt (stamp t c) = (if due t c then t else lastSentAt c)
  /\ only_stamp_differs c (stamp t c).
Proof.
  unfold stamp, only_stamp_differs. destruct (due t c); simpl; tauto.
Qed.

Lemma due_open (t : Z) (c : WsClient) : due t c = true -> wsOpen c = true.
Proof.
  unfold due. intros Hd. apply andb_true_iff in Hd as [Hd _].
  now apply andb_true_iff in Hd as [_ Hd].
Qed.

(** C1: a callback of the ticker invokes [fetchCatBytes] at most once,
    before it awaits anything: once when some client wants [bin], as is
    the case when a client in [bin] mode is due, and the callback is then
    suspended with nothing sent; not at all when no client wants [bin],
    and then no client in [bin] mode is due.  When the callback resumes
    with the result of its fetch it fetches no more, and every client
    that is then in [bin] mode and due is handed the header and the bytes
    of that one result. *)
Theorem single_fetch_shared (t now now' : Z) (w0 w : World) :
  ((exists k c, JsMap.get k (clients w0) = Some c /\ mode c = bin /\ due t c = true) ->
   someoneWantsBin w0 = true)
  /\ (someoneWantsBin w0 = true ->
      since w0 (tick_begin randomCatUrl randomMood t now w0) = [FetchCatBytes]
      /\ fetches (since w0 (tick_begin randomCatUrl randomMood t now w0)) = 1%nat
      /\ is_pending t (tick_begin randomCatUrl randomMood t now w0) = true)
  /\ (someoneWantsBin w0 = false ->
      fetches (since w0 (tick_begin randomCatUrl randomMood t now w0)) = 0%nat
      /\ pending (tick_begin randomCatUrl randomMood t now w0) = pending w0)
  /\ (NoDup (JsMap.keys (clients w)) ->
      is_pending t w = true ->
      forall fr,
        fetches (since w (tick_resume randomCatUrl randomMood t now' fr w)) = 0%nat
        /\ forall p, fr = FetchOk p ->
           forall k c, JsMap.get k (clients w) = Some c -> mode c = bin ->
                       due t c = true ->
             frames_to k (since w (tick_resume randomCatUrl randomMood t now' fr w))
             = [TextFrame (MsgCatBin (p_type p) t); BinaryFrame (p_bytes p)]).
Proof.
  split; [|split; [|split]].
  - intros (k & c & Hget & Hm & Hd).
    eapply someoneWantsBin_intro; [exact Hget|]. now apply (due_wantsBin t).
  - intros Hs. rewrite (begin_await t now w0 Hs).
    assert (since w0 (set_pending (t :: pending w0) (emit [FetchCatBytes] w0))
            = [FetchCatBytes]) as ->.
    { now apply since_app. }
    split; [reflexivity|]. split; [reflexivity|].
    unfold is_pending. simpl. now rewrite Z.eqb_refl.
  - intros Hs. destruct (clients w0) as [|kc r] eqn:Hc.
    + rewrite begin_empty by exact Hc. now rewrite since_refl.
    + rewrite begin_rest; [|rewrite Hc; discriminate|exact Hs].
      split; [apply rest_fetches|].
      now destruct (rest_spec randomCatUrl randomMood t now None w0)
        as (n & _ & _ & _ & _ & _ & _ & _ & _ & _ & _ & _ & _ & H).
  - intros Hnd Hp fr. split; [apply resume_fetches|].
    intros p -> k c Hget Hm Hd.
    destruct (resume_frames t now' (FetchOk p) w k c Hnd Hget Hp) as (n & ->).
    unfold client_frames. simpl. now rewrite Hd, Hm.
Qed.

(** C2, amended: when the fetch of a callback fails, the callback, on
    resuming, raises the error counter by exactly one; the failure notice
    goes to every client whose socket is then OPEN, whatever its mode, and
    to no other; no [bin] header and no binary frame is handed to anyone;
    and every client then due in [url] mode still gets its [url] push,
    after the notice. *)
Theorem failed_fetch_tick (t now : Z) (e : string) (w : World) :
  NoDup (JsMap.keys (clients w)) ->
  is_pending t w = true ->
  errors (state (tick_resume randomCatUrl randomMood t now (FetchErr e) w))
  = S (errors (state w))
  /\ (forall k c, JsMap.get k (clients w) = Some c ->
        (In (TextFrame (MsgError e))
            (frames_to k (since w (tick_resume randomCatUrl randomMood t now (FetchErr e) w)))
         <-> wsOpen c = true))
  /\ (forall k,
        existsb isBinPush
                (frames_to k (since w (tick_resume randomCatUrl randomMood t now (FetchErr e) w)))
        = false)
  /\ (forall k c, JsMap.get k (clients w) = Some c -> mode c = url -> due t c = true ->
        exists n,
          frames_to k (since w (tick_resume randomCatUrl randomMood t now (FetchErr e) w))
          = [TextFrame (MsgError e); TextFrame (MsgCatUrl (randomCatUrl n) t)]).
Proof.
  intros Hnd Hp. split; [|split; [|split]].
  - rewrite (resume_rest t now (FetchErr e) w Hp).
    destruct (rest_spec randomCatUrl randomMood t now (Some (FetchErr e))
                        (set_pending (remove_first t (pending w)) w))
      as (n & _ & _ & _ & He & _).
    rewrite He. simpl. apply Nat.add_1_r.
  - intros k c Hget.
    destruct (resume_frames t now (FetchErr e) w k c Hnd Hget Hp) as (n & ->).
    unfold notice_in, payload_in, client_frames.
    destruct (wsOpen c); simpl.
    + split; [reflexivity|]. intros _. now left.
    + split; [|discriminate]. intros Hin. exfalso.
      destruct (due t c); [|contradiction].
      destruct (mode c); simpl in Hin; [|contradiction].
      destruct Hin as [Hin|[]]. discriminate.
  - intros k. destruct (JsMap.get k (clients w)) as [c|] eqn:Hget.
    + destruct (resume_frames t now (FetchErr e) w k c Hnd Hget Hp) as (n & ->).
      rewrite existsb_app. cbn [payload_in].
      rewrite client_frames_no_payload, orb_false_r.
      unfold notice_in. destruct (wsOpen c); reflexivity.
    + now rewrite resume_frames_absent.
  - intros k c Hget Hm Hd.
    destruct (resume_frames t now (FetchErr e) w k c Hnd Hget Hp) as (n & ->).
    exists n. unfold notice_in, client_frames.
    now rewrite Hd, Hm, (due_open t c Hd).
Qed.

(** C8, amended: the push loop of a callback sets [lastSentAt] to the time
    the callback took at its start exactly on the clients that are due
    when the loop runs (not paused, socket OPEN, interval elapsed), and
    changes no other field; every client that is handed a payload frame
    is due, and a due client is handed none only when it is in [bin] mode
    and the fetch failed.  The loop runs where the callback resumes, or,
    for a callback that awaits nothing, where it began; a callback that is
    suspended has stamped nobody. *)
Theorem stamp_on_due (t now : Z) (w : World) (k : string) (c : WsClient) :
  NoDup (JsMap.keys (clients w)) ->
  JsMap.get k (clients w) = Some c ->
  (is_pending t w = true ->
   forall fr,
     (exists c',
        JsMap.get k (clients (tick_resume randomCatUrl randomMood t now fr w)) = Some c'
        /\ lastSentAt c' = (if due t c then t else lastSentAt c)
        /\ only_stamp_differs c c')
     /\ (existsb isPush
           (frames_to k (since w (tick_resume randomCatUrl randomMood t now fr w))) = true ->
         due t c = true)
     /\ (existsb isPush
           (frames_to k (since w (tick_resume randomCatUrl randomMood t now fr w))) = false ->
         due t c = true ->
         mode c = bin /\ exists e, fr = FetchErr e))
  /\ (someoneWantsBin w = false ->
      (exists c',
         JsMap.get k (clients (tick_begin randomCatUrl randomMood t now w)) = Some c'
         /\ lastSentAt c' = (if due t c then t else lastSentAt c)
         /\ only_stamp_differs c c')
      /\ existsb isPush
           (frames_to k (since w (tick_begin randomCatUrl randomMood t now w)))
         = due t c)
  /\ (someoneWantsBin w = true ->
      JsMap.get k (clients (tick_begin randomCatUrl randomMood t now w)) = Some c).
Proof.
  intros Hnd Hget. split; [|split].
  - intros Hp fr.
    destruct (resume_frames t now fr w k c Hnd Hget Hp) as (n & ->).
    rewrite existsb_app, client_frames_pushed.
    assert (existsb isPush (notice_in (Some fr) c) = false) as ->.
    { destruct fr; simpl; [reflexivity|]. destruct (wsOpen c); reflexivity. }
    simpl. split; [|split].
    + exists (stamp t c). split; [now apply resume_client|apply stamp_fields].
    + intros H. now apply andb_true_iff in H as [H _].
    + intros H Hd. rewrite Hd in H. simpl in H.
      apply orb_false_iff in H as [Hm Hb].
      split; [destruct (mode c); [discriminate|reflexivity]|].
      destruct fr as [p|e]; [discriminate|]. now exists e.
  - intros Hs.
    rewrite begin_rest; [|eapply get_nonempty; exact Hget|exact Hs].
    split.
    + exists (stamp t c). split; [now apply rest_client|apply stamp_fields].
    + destruct (rest_frames t now None w k c Hnd Hget) as (n & ->).
      cbn [notice_in payload_in app]. rewrite client_frames_pushed. simpl.
      destruct (due t c) eqn:Hd; [|reflexivity]. simpl.
      destruct (mode c) eqn:Hm; [reflexivity|]. exfalso.
      rewrite (someoneWantsBin_intro w k c Hget (due_wantsBin t c Hm Hd)) in Hs.
      discriminate.
  - intros Hs. rewrite (begin_await t now w Hs). exact Hget.
Qed.
(** C10: on every run of the ticker's callback the expensive fetch is
    performed exactly when some registered client is in [bin] mode and
    not paused; whether a client is due and whether its transport is open
    play no part in the condition.  This holds of a callback taken as a
    whole and of its part up to the [await], where the fetch is invoked. *)
Theorem fetch_trigger_is_unpaused_bin (t now : Z) (fr : FetchResult) (w : World) :
  ((exists k c, In (k, c) (clients w) /\ mode c = bin /\ paused c = false)
   <-> fetches (since w (tick randomCatUrl randomMood t now fr w)) = 1%nat)
  /\ ((exists k c, In (k, c) (clients w) /\ mode c = bin /\ paused c = false)
      <-> fetches (since w (tick_begin randomCatUrl randomMood t now w)) = 1%nat).
Proof.
  rewrite tick_fetches, begin_fetches, <- someoneWantsBin_iff.
  destruct (someoneWantsBin w); split; split; congruence.
Qed.
End Callback.

Lemma fetch_trigger_is_unpaused_bin_witness :
  (exists k c, In (k, c) (clients Demo.closedBin) /\ mode c = bin /\ paused c = false)
  /\ (forall c, In c (JsMap.values (clients Demo.closedBin)) ->
                due 5000 c = false /\ wsOpen c = false)
  /\ fetches (since Demo.closedBin
                    (Demo.tick 5000 5001 (FetchOk Demo.png) Demo.closedBin)) = 1%nat
  /\ fetches (since Demo.closedBin (Demo.tick_begin 5000 5001 Demo.closedBin)) = 1%nat.
Proof.
  assert (exists k c, In (k, c) (clients Demo.closedBin)
                      /\ mode c = bin /\ paused c = false) as H.
  { eexists. eexists. split; [left; reflexivity|]. split; reflexivity. }
  split; [exact H|]. split; [|split].
  - intros c [<-|[]]. split; reflexivity.
  - apply (proj1 (proj1 (fetch_trigger_is_unpaused_bin
                           Demo.randomCatUrl Demo.randomMood 5000 5001
                           (FetchOk Demo.png) Demo.closedBin))).
    exact H.
  - apply (proj1 (proj2 (fetch_trigger_is_unpaused_bin
                           Demo.randomCatUrl Demo.randomMood 5000 5001
                           (FetchOk Demo.png) Demo.closedBin))).
    exact H.
Defined.

(** C2 as worded fails: a client in [bin] mode that is registered but
    whose socket is not OPEN yet makes the callback fetch, and is not
    notified when the fetch fails. *)
Lemma fetch_failure_counterexample :
  ~ fetch_failure_as_stated Demo.randomCatUrl Demo.randomMood.
Proof.
  intros H.
  assert (NoDup (JsMap.keys (clients Demo.awaiting))) as Hnd.
  { apply distinct_NoDup. reflexivity. }
  destruct (H 5000 5001 "upstream down" Demo.awaiting Hnd eq_refl)
    as (_ & Hnotice & _).
  specialize (Hnotice "a" (newClient "a" Demo.binConfig) eq_refl eq_refl).
  vm_compute in Hnotice. exact Hnotice.
Qed.

(** C8 as worded fails: when the fetch fails, a due client in [bin] mode
    is stamped although no payload frame is handed to it. *)
Lemma stamp_only_on_push_counterexample :
  ~ stamp_only_on_push_as_stated Demo.randomCatUrl Demo.randomMood.
Proof.
  intros H.
  assert (NoDup (JsMap.keys (clients Demo.twoBinAwaiting))) as Hnd.
  { apply distinct_NoDup. reflexivity. }
  destruct (H 5000 5001 (FetchErr "upstream down") Demo.twoBinAwaiting "a"
              (set_ws {| readyState := OPEN |} (newClient "a" Demo.binConfig))
              (set_lastSentAt 5000
                 (set_ws {| readyState := OPEN |} (newClient "a" Demo.binConfig)))
              Hnd eq_refl eq_refl eq_refl) as (_ & Hkeep).
  specialize (Hkeep eq_refl). discriminate Hkeep.
Qed.

(** The client [a] sends [pause] while the fetch is awaited: when the
    callback resumes, the one result goes to [b], the only client in
    [bin] mode that is due by then. *)
Lemma single_fetch_shared_witness :
  since Demo.twoBin (Demo.tick_begin 5000 5000 Demo.twoBin) = [FetchCatBytes]
  /\ fetches (since (Demo.step Demo.twoBinAwaiting
                               (EMessage "a" 5100 (DataString "pause")))
                    (Demo.tick_resume 5000 5400 (FetchOk Demo.png)
                       (Demo.step Demo.twoBinAwaiting
                                  (EMessage "a" 5100 (DataString "pause")))))
     = 0%nat
  /\ frames_to "b"
       (since (Demo.step Demo.twoBinAwaiting (EMessage "a" 5100 (DataString "pause")))
              (Demo.tick_resume 5000 5400 (FetchOk Demo.png)
                 (Demo.step Demo.twoBinAwaiting
                            (EMessage "a" 5100 (DataString "pause")))))
     = [TextFrame (MsgCatBin "image/png" 5000); BinaryFrame (p_bytes Demo.png)].
Proof.
  unfold Demo.tick_begin, Demo.tick_resume.
  destruct (single_fetch_shared Demo.randomCatUrl Demo.randomMood 5000 5000 5400
              Demo.twoBin
              (Demo.step Demo.twoBinAwaiting (EMessage "a" 5100 (DataString "pause"))))
    as (Hwant & Hbegin & _ & Hresume).
  assert (someoneWantsBin Demo.twoBin = true) as Hs.
  { apply Hwant. exists "a". eexists. split; [reflexivity|]. split; reflexivity. }
  destruct (Hbegin Hs) as (Hlog & _).
  split; [exact Hlog|].
  assert (NoDup (JsMap.keys (clients (Demo.step Demo.twoBinAwaiting
                                        (EMessage "a" 5100 (DataString "pause"))))))
    as Hnd.
  { apply distinct_NoDup. reflexivity. }
  destruct (Hresume Hnd eq_refl (FetchOk Demo.png)) as (Hf & Hshare).
  split; [exact Hf|].
  eapply (Hshare Demo.png eq_refl "b"); reflexivity.
Defined.

Lemma failed_fetch_tick_witness :
  errors (state (Demo.tick_resume 5000 5001 (FetchErr "upstream down")
                                  Demo.twoBinAwaiting)) = 1%nat
  /\ (In (TextFrame (MsgError "upstream down"))
         (frames_to "b" (since Demo.twoBinAwaiting
                               (Demo.tick_resume 5000 5001 (FetchErr "upstream down")
                                                 Demo.twoBinAwaiting)))
      <-> true = true).
Proof.
  unfold Demo.tick_resume.
  assert (NoDup (JsMap.keys (clients Demo.twoBinAwaiting))) as Hnd.
  { apply distinct_NoDup. reflexivity. }
  destruct (failed_fetch_tick Demo.randomCatUrl Demo.randomMood 5000 5001
              "upstream down" Demo.twoBinAwaiting Hnd eq_refl) as (He & Hn & _).
  split; [exact He|].
  exact (Hn "b" (set_ws {| readyState := OPEN |} (newClient "b" Demo.binConfig))
            eq_refl).
Defined.

Lemma stamp_on_due_witness :
  exists c',
    JsMap.get "a" (clients (Demo.tick_resume 5000 5001 (FetchErr "upstream down")
                                             Demo.twoBinAwaiting)) = Some c'
    /\ lastSentAt c' = 5000.
Proof.
  unfold Demo.tick_resume.
  assert (NoDup (JsMap.keys (clients Demo.twoBinAwaiting))) as Hnd.
  { apply distinct_NoDup. reflexivity. }
  destruct (stamp_on_due Demo.randomCatUrl Demo.randomMood 5000 5001
              Demo.twoBinAwaiting "a"
              (set_ws {| readyState := OPEN |} (newClient "a" Demo.binConfig))
              Hnd eq_refl) as (Hres & _).
  destruct (Hres eq_refl (FetchErr "upstream down")) as ((c' & Hget & Hl & _) & _).
  exists c'. split; [exact Hget|exact Hl].
Defined.

(** ** The command protocol: [interval] *)


Lemma Qltb_false (a b : Q) : Qltb a b = false <-> (b <= a)%Q.
Proof.
  unfold Qltb. rewrite negb_false_iff. apply Qle_bool_iff.
Qed.

(** The test of the source rejects exactly what is out of the bound. *)
Lemma interval_test (ms : number) :
  negb (isFinite ms) || num_ltb ms (ofZ 200) || num_gtb ms (ofZ 60000) = false
  <-> in_bound ms.
Proof.
  unfold in_bound, num_gtb, ofZ. destruct ms as [| | |q]; simpl.
  - split; [discriminate|]. intros (q & H & _). discriminate.
  - split; [discriminate|]. intros (q & H & _). discriminate.
  - split; [discriminate|]. intros (q & H & _). discriminate.
  - rewrite orb_false_iff, !Qltb_false. split.
    + intros [H1 H2]. exists q. auto.
    + intros (q' & [= <-] & H1 & H2). auto.
Qed.

Section Commands.
Variable Number : string -> number.
Variable toLowerCase : string -> string.

(** C3: on a registered client whose socket is OPEN, [interval] with a
    requested value inside the bound (a finite number from 200 to 60000)
    makes that value the [intervalMs] of the client, leaves its other
    fields and every other client as they were, and answers ok with the
    new value; with any other value (not finite, below 200, above 60000,
    or missing) it leaves every client as it was and answers with the
    error that cites the bound. *)
Theorem interval_command (i : string) (now : Z) (args : list string)
        (w : World) (c : WsClient) :
  JsMap.get i (clients w) = Some c ->
  wsOpen c = true ->
  (in_bound (match args with a :: _ => Number a | [] => NaN end) ->
     (exists c',
        JsMap.get i (clients (handleCommand Number toLowerCase i now "interval" args w))
        = Some c'
        /\ intervalMs c' = match args with a :: _ => Number a | [] => NaN end
        /\ only_interval_differs c c')
     /\ (forall j, j <> i ->
           JsMap.get j (clients (handleCommand Number toLowerCase i now "interval" args w))
           = JsMap.get j (clients w))
     /\ since w (handleCommand Number toLowerCase i now "interval" args w)
        = [WsSend i (TextFrame (MsgOk (IntervalSetTo
             (match args with a :: _ => Number a | [] => NaN end))))])
  /\ (~ in_bound (match args with a :: _ => Number a | [] => NaN end) ->
     clients (handleCommand Number toLowerCase i now "interval" args w) = clients w
     /\ since w (handleCommand Number toLowerCase i now "interval" args w)
        = [WsSend i (TextFrame (MsgError "interval must be 200..60000 ms"))]).
Proof.
  intros Hget Ho. unfold handleCommand. rewrite Hget.
  change (String.eqb "interval" "help") with false.
  change (String.eqb "interval" "interval") with true. cbv iota.
  set (ms := match args with a :: _ => Number a | [] => NaN end).
  pose proof (interval_test ms) as Ht.
  destruct (negb (isFinite ms) || num_ltb ms (ofZ 200) || num_gtb ms (ofZ 60000)).
  - split.
    + intros Hb. apply Ht in Hb. discriminate.
    + intros _. unfold reply. rewrite Ho. split; [reflexivity|].
      now apply since_app.
  - split.
    + intros _. unfold reply, setField. rewrite Ho. simpl. split; [|split].
      * exists (set_intervalMs ms c). split; [now apply get_update|].
        unfold only_interval_differs. simpl. tauto.
      * intros j Hne. now apply get_update_other.
      * now apply since_app.
    + intros Hn. exfalso. apply Hn, Ht. reflexivity.
Qed.
End Commands.

Lemma interval_command_witness :
  (exists c',
     JsMap.get "a" (clients (Demo.handleCommand "a" 7 "interval" ["1200"] Demo.twoBin))
     = Some c'
     /\ intervalMs c' = ofZ 1200)
  /\ since Demo.twoBin (Demo.handleCommand "a" 7 "interval" ["100"] Demo.twoBin)
     = [WsSend "a" (TextFrame (MsgError "interval must be 200..60000 ms"))].
Proof.
  split.
  - destruct (proj1 (interval_command Demo.Number Demo.toLowerCase "a" 7 ["1200"]
                       Demo.twoBin
                       (set_ws {| readyState := OPEN |} (newClient "a" Demo.binConfig))
                       eq_refl eq_refl)) as ((c' & Hget & Hms & _) & _).
    + exists (inject_Z 1200). split; [reflexivity|]. split; discriminate.
    + exists c'. split; [exact Hget|exact Hms].
  - apply (proj2 (interval_command Demo.Number Demo.toLowerCase "a" 7 ["100"] Demo.twoBin
                    (set_ws {| readyState := OPEN |} (newClient "a" Demo.binConfig))
                    eq_refl eq_refl)).
    intros (q & [= <-] & H & _). apply H. reflexivity.
Defined.

(** ** Registration *)

(** C4, amended: an upgrade request whose origin is not allowed is refused
    with 403 before the capacity is looked at; one whose origin is allowed
    is refused with the capacity error 429 when [clients.size] has reached
    [max_clients], and is registered, with the defaults of the
    configuration, when it has not.  A refusal changes nothing. *)
Theorem upgrade_origin_then_capacity (origin : option string) (i : string) (w : World) :
  (originAllowed origin (config w) = false ->
   handleWs origin i w = (TextResponse "Origin not allowed" 403, w))
  /\ (originAllowed origin (config w) = true ->
      max_clients (config w) <= JsMap.size (clients w) ->
      handleWs origin i w = (TextResponse "Too many clients" 429, w))
  /\ (originAllowed origin (config w) = true ->
      JsMap.size (clients w) < max_clients (config w) ->
      fst (handleWs origin i w) = Upgraded i
      /\ JsMap.get i (clients (snd (handleWs origin i w)))
         = Some (newClient i (config w))).
Proof.
  unfold handleWs. destruct (originAllowed origin (config w)); simpl.
  - split; [discriminate|]. split; intros _ H.
    + apply Z.leb_le in H. now rewrite H.
    + apply Z.leb_gt in H. rewrite H. split; [reflexivity|].
      unfold startTickerIfNeeded. simpl.
      destruct (ticker w); simpl; apply get_set_same.
  - split; [reflexivity|]. split; discriminate.
Qed.

(** C4 as worded fails: at capacity, a request from an origin that is not
    allowed gets the origin error, not the capacity error. *)
Lemma upgrade_capacity_counterexample : ~ upgrade_capacity_as_stated.
Proof.
  intros H.
  destruct (H (Some "https://dogs.example") "b" Demo.full) as [Hfull _].
  assert (max_clients (config Demo.full) <= JsMap.size (clients Demo.full)) as Hle.
  { vm_compute. discriminate. }
  specialize (Hfull Hle). vm_compute in Hfull. discriminate Hfull.
Qed.

Lemma upgrade_origin_then_capacity_witness :
  handleWs (Some "https://dogs.example") "b" Demo.full
  = (TextResponse "Origin not allowed" 403, Demo.full)
  /\ handleWs (Some "https://cats.example") "b" Demo.full
     = (TextResponse "Too many clients" 429, Demo.full)
  /\ fst (handleWs None "b" Demo.twoBin) = Upgraded "b".
Proof.
  split; [|split].
  - apply (proj1 (upgrade_origin_then_capacity (Some "https://dogs.example") "b" Demo.full)).
    reflexivity.
  - apply (proj1 (proj2 (upgrade_origin_then_capacity (Some "https://cats.example") "b" Demo.full))).
    + reflexivity.
    + vm_compute. discriminate.
  - apply (proj2 (proj2 (upgrade_origin_then_capacity None "b" Demo.twoBin))).
    + reflexivity.
    + reflexivity.
Defined.

(** ** Configuration hot-reload *)

Lemma broadcastConfigUpdate_since (w : World) :
  since w (broadcastConfigUpdate w)
  = (sse_events (SseConfig (safeConfigForClient (config w))) (sseClients w)
       ++ flat_map (fun kc => if wsOpen (snd kc)
                              then [WsSend (fst kc)
                                      (TextFrame (MsgConfig (safeConfigForClient (config w))))]
                              else [])
                   (clients w))%list.
Proof.
  apply since_app. unfold broadcastConfigUpdate, sendToOpen, broadcastSse, sse_events.
  simpl. now rewrite <- app_assoc.
Qed.

Lemma reload_ok_pushes (cfg : AppConfig) (w : World) :
  (forall k c, In (k, c) (clients w) -> wsOpen c = true ->
     In (WsSend k (TextFrame (MsgConfig (safeConfigForClient cfg))))
        (since w (reload (LoadOk cfg) w)))
  /\ (forall k c, In (k, c) (sseClients w) -> ctrl_usable c = true ->
        In (SseEnqueue k (SseConfig (safeConfigForClient cfg)))
           (since w (reload (LoadOk cfg) w))).
Proof.
  assert (since w (reload (LoadOk cfg) w)
          = since (set_config cfg w) (broadcastConfigUpdate (set_config cfg w))) as ->
    by reflexivity.
  rewrite broadcastConfigUpdate_since. simpl. split.
  - intros k c Hin Ho. apply in_or_app. right. apply in_flat_map. exists (k, c).
    split; [assumption|]. simpl. rewrite Ho. now left.
  - intros k c Hin Hu. apply in_or_app. left. apply in_flat_map. exists (k, c).
    split; [assumption|]. simpl. rewrite Hu. now left.
Qed.

(** C6: after a reload whose load gave the configuration [cfg], that
    configuration is the one in effect; [GET /api/config] answers 200 with
    a snapshot whose address, port, default interval, default mode and
    maximum of clients are those of [cfg]; every registered client whose
    socket is OPEN has been sent the [config] message and every registered
    stream whose controller takes events the [config] event, both with
    that snapshot; and the registry of clients, with every [intervalMs],
    [mode] and [paused], is what it was. *)
Theorem reload_success (cfg : AppConfig) (w : World) :
  config (reload (LoadOk cfg) w) = cfg
  /\ (exists body : SafeConfig,
        fst (apiConfig (reload (LoadOk cfg) w)) = JsonConfig body 200
        /\ safe_target_ip body = target_ip cfg
        /\ safe_port body = port cfg
        /\ safe_cat_interval_ms body = cat_interval_ms cfg
        /\ safe_cat_mode body = cat_mode cfg
        /\ safe_max_clients body = max_clients cfg
        /\ (forall k c, In (k, c) (clients w) -> wsOpen c = true ->
              In (WsSend k (TextFrame (MsgConfig body)))
                 (since w (reload (LoadOk cfg) w)))
        /\ (forall k c, In (k, c) (sseClients w) -> ctrl_usable c = true ->
              In (SseEnqueue k (SseConfig body))
                 (since w (reload (LoadOk cfg) w))))
  /\ clients (reload (LoadOk cfg) w) = clients w.
Proof.
  split; [reflexivity|]. split; [|reflexivity].
  exists (safeConfigForClient cfg).
  destruct (reload_ok_pushes cfg w) as [Hws Hsse].
  repeat split; try reflexivity; assumption.
Qed.

Section Reload.
Variable Number : string -> number.

End Reload.



Lemma reload_success_witness :
  In (WsSend "a" (TextFrame (MsgConfig
        {| safe_target_ip := "127.0.0.1"; safe_port := 8000;
           safe_cat_interval_ms := 2500; safe_cat_mode := url;
           safe_max_clients := 50 |})))
     (since Demo.twoBin (reload (LoadOk DEFAULTS) Demo.twoBin))
  /\ JsMap.get "a" (clients (reload (LoadOk DEFAULTS) Demo.twoBin))
     = Some (set_ws {| readyState := OPEN |} (newClient "a" Demo.binConfig)).
Proof.
  destruct (reload_success DEFAULTS Demo.twoBin)
    as (_ & (body & _ & Hip & Hport & Hint & Hmode & Hmax & Hws & _) & Hc).
  split.
  - destruct body as [ip po iv md mx]. simpl in *. subst.
    apply (Hws "a" (set_ws {| readyState := OPEN |} (newClient "a" Demo.binConfig))).
    + left. reflexivity.
    + reflexivity.
  - rewrite Hc. reflexivity.
Defined.

(** ** Inbound messages: blank input and the fall-back from JSON to text *)

Lemma append_empty_r (s : string) : s ++ EmptyString = s.
Proof. induction s as [|a r IH]; simpl; [reflexivity|now rewrite IH]. Qed.

Lemma append_assoc3 (a b c : string) : (a ++ b) ++ c = a ++ (b ++ c).
Proof. induction a as [|x r IH]; simpl; [reflexivity|now rewrite IH]. Qed.

(** The first piece of a split starts with what has been read so far. *)
Lemma split_ws_go_head (s : string) :
  forall skip cur, exists suf rest,
    Js.split_ws_go skip false cur s = (cur ++ suf) :: rest.
Proof.
  induction s as [|a r IH]; intros skip cur; cbn [Js.split_ws_go].
  - exists EmptyString, []. now rewrite append_empty_r.
  - destruct skip as [|k]; [|apply IH].
    destruct (Js.space_len (String a r)) as [|k].
    + destruct (IH 0%nat (cur ++ String a EmptyString)) as (suf & rest & ->).
      exists (String a suf), rest. now rewrite append_assoc3.
    + exists EmptyString. eexists. now rewrite append_empty_r.
Qed.

Lemma startsWith_brace (s : string) :
  Js.startsWith s "{" = true -> exists r, s = String "{" r.
Proof.
  unfold Js.startsWith. destruct s as [|a r]; cbn [String.prefix]; [discriminate|].
  destruct (ascii_dec "{" a) as [<-|]; [|discriminate].
  intros _. now exists r.
Qed.

Lemma space_len_brace (r : string) : Js.space_len (String "{" r) = 0%nat.
Proof. destruct r as [|b [|c r]]; reflexivity. Qed.

Lemma split_brace (r : string) :
  exists suf rest, Js.split_ws (String "{" r) = String "{" suf :: rest.
Proof.
  unfold Js.split_ws. cbn [Js.split_ws_go]. rewrite space_len_brace.
  destruct (split_ws_go_head r 0%nat (EmptyString ++ String "{" EmptyString))
    as (suf & rest & ->).
  now exists suf, rest.
Qed.

(** A text that is white space from end to end trims to nothing, and
    only such a text does. *)
Lemma trimStart_blank (s : string) :
  forall skip, Js.blank_go skip s = true <-> Js.trimStart_go skip s = EmptyString.
Proof.
  induction s as [|a r IH]; intros skip; cbn [Js.blank_go Js.trimStart_go].
  - split; reflexivity.
  - destruct skip as [|k]; [|apply IH].
    destruct (Js.space_len (String a r)) as [|k]; [|apply IH].
    split; discriminate.
Qed.

Lemma trimEnd_empty (s : string) :
  Js.trimEnd s = EmptyString <-> Js.blank s = true.
Proof.
  destruct s as [|a r]; cbn [Js.trimEnd]; [split; reflexivity|].
  destruct (Js.blank (String a r)); split; congruence.
Qed.

Lemma trimStart_stops (s : string) :
  forall skip, Js.blank_go skip s = false -> Js.blank (Js.trimStart_go skip s) = false.
Proof.
  induction s as [|a r IH]; intros skip; cbn [Js.blank_go Js.trimStart_go];
    [discriminate|].
  destruct skip as [|k]; [|apply IH].
  destruct (Js.space_len (String a r)) as [|k] eqn:E; [|apply IH].
  intros _. unfold Js.blank. cbn [Js.blank_go]. now rewrite E.
Qed.

Lemma trim_blank (d : string) : Js.trim d = EmptyString <-> Js.blank d = true.
Proof.
  unfold Js.trim, Js.trimStart. rewrite trimEnd_empty. split.
  - intros H. destruct (Js.blank d) eqn:E; [reflexivity|].
    unfold Js.blank in E. apply trimStart_stops in E. congruence.
  - intros H. apply (trimStart_blank d 0%nat) in H. now rewrite H.
Qed.

Lemma ascii_keeps_brace : keeps_brace Js.toLowerCase.
Proof. intros r. now exists (Js.toLowerCase r). Qed.

Lemma ascii_lowers_ascii : lowers_ascii Js.toLowerCase.
Proof. intros s _. reflexivity. Qed.

Section Messages.
Variable Number : string -> number.
Variable toLowerCase : string -> string.
Variable JSON_parse : string -> option JsonCmd.

(** A word that begins with a brace is no command. *)
Lemma brace_is_unknown (i : string) (now : Z) (x : string)
      (args : list string) (w : World) (c : WsClient) :
  JsMap.get i (clients w) = Some c ->
  handleCommand Number toLowerCase i now (String "{" x) args w
  = reply i c (MsgError ("unknown command: " ++ String "{" x)) w.
Proof.
  intros Hget. unfold handleCommand. rewrite Hget. reflexivity.
Qed.

(** C9: a message that is empty or white space from end to end is counted
    and otherwise ignored, with no reply; a message that begins like a
    JSON object and does not parse is handed, trimmed as it is, to the
    plain-text stage, and so has the effect and the reply of a plain-text
    command.  With a [toLowerCase] that leaves a leading brace in front,
    the answer of that stage on an open socket is the error that names
    the first word, lower-cased, as an unknown command. *)
Theorem blank_ignored_json_falls_back (i : string) (now : Z) (d : string) (w : World) :
  (Js.blank d = true ->
     onmessage Number toLowerCase JSON_parse i now (DataString d) w
     = set_state (incr_wsMessages (state w)) w
     /\ since w (onmessage Number toLowerCase JSON_parse i now (DataString d) w) = [])
  /\ (Js.startsWith (Js.trim d) "{" = true ->
      JSON_parse (Js.trim d) = None ->
      onmessage Number toLowerCase JSON_parse i now (DataString d) w
      = textCommand Number toLowerCase i now (Js.trim d)
                    (set_state (incr_wsMessages (state w)) w)
      /\ (keeps_brace toLowerCase ->
          forall c, JsMap.get i (clients w) = Some c -> wsOpen c = true ->
            clients (onmessage Number toLowerCase JSON_parse i now (DataString d) w)
            = clients w
            /\ since w (onmessage Number toLowerCase JSON_parse i now (DataString d) w)
               = [WsSend i (TextFrame (MsgError
                    ("unknown command: "
                       ++ toLowerCase (hd EmptyString (Js.split_ws (Js.trim d))))))])).
Proof.
  split.
  - intros Hb. apply trim_blank in Hb. unfold onmessage. rewrite Hb. simpl.
    split; [reflexivity|]. now apply since_refl.
  - intros Hs Hp.
    assert (onmessage Number toLowerCase JSON_parse i now (DataString d) w
            = textCommand Number toLowerCase i now (Js.trim d)
                          (set_state (incr_wsMessages (state w)) w)) as Heq.
    { unfold onmessage. rewrite Hs, Hp.
      destruct (String.eqb (Js.trim d) EmptyString) eqn:E; [|reflexivity].
      apply String.eqb_eq in E. rewrite E in Hs. discriminate. }
    split; [exact Heq|].
    intros Hlow c Hget Ho. rewrite Heq.
    destruct (startsWith_brace _ Hs) as (r & Hr). rewrite Hr.
    destruct (split_brace r) as (suf & rest & Hsplit).
    unfold textCommand. rewrite Hsplit. cbn [hd].
    destruct (Hlow suf) as (r' & ->).
    rewrite (brace_is_unknown i now _ rest _ c) by exact Hget.
    unfold reply. rewrite Ho. split; [reflexivity|].
    now apply since_app.
Qed.
End Messages.

(** Three spaces, a no-break space (U+00A0) alone, and a brace-initial
    text that is no JSON. *)
Lemma blank_ignored_json_falls_back_witness :
  since Demo.twoBin (Demo.onmessage "a" 7 (DataString "   ") Demo.twoBin) = []
  /\ since Demo.twoBin
           (Demo.onmessage "a" 7
              (DataString (String (ascii_of_nat 194)
                                  (String (ascii_of_nat 160) EmptyString)))
              Demo.twoBin) = []
  /\ since Demo.twoBin (Demo.onmessage "a" 7 (DataString " {Oops 1") Demo.twoBin)
     = [WsSend "a" (TextFrame (MsgError "unknown command: {oops"))].
Proof.
  destruct (blank_ignored_json_falls_back Demo.Number Demo.toLowerCase Demo.JSON_parse
              "a" 7 "   " Demo.twoBin) as [Hblank _].
  destruct (blank_ignored_json_falls_back Demo.Number Demo.toLowerCase Demo.JSON_parse
              "a" 7 (String (ascii_of_nat 194) (String (ascii_of_nat 160) EmptyString))
              Demo.twoBin) as [Hnbsp _].
  destruct (blank_ignored_json_falls_back Demo.Number Demo.toLowerCase Demo.JSON_parse
              "a" 7 " {Oops 1" Demo.twoBin) as [_ Hjson].
  split; [|split].
  - apply Hblank. reflexivity.
  - apply Hnbsp. reflexivity.
  - destruct (Hjson eq_refl eq_refl) as [_ Hreply].
    apply (Hreply ascii_keeps_brace
                  (set_ws {| readyState := OPEN |} (newClient "a" Demo.binConfig)));
      reflexivity.
Defined.

(** ** The ticker runs exactly while there are clients *)


Lemma keys_stamped {V : Type} (f : V -> V) (m : JsMap.t V) :
  JsMap.keys (map (fun kc => (fst kc, f (snd kc))) m) = JsMap.keys m.
Proof. unfold JsMap.keys. rewrite map_map. reflexivity. Qed.


Lemma quiet_refl (w : World) : quiet w w.
Proof. split; reflexivity. Qed.

Lemma quiet_trans (a b c : World) : quiet a b -> quiet b c -> quiet a c.
Proof. unfold quiet. intuition congruence. Qed.

Lemma quiet_reply (i : string) (c : WsClient) (m : ServerMsg) (w : World) :
  quiet w (reply i c m w).
Proof. unfold reply. destruct (wsOpen c); split; reflexivity. Qed.

Lemma quiet_setField (i : string) (f : WsClient -> WsClient) (w : World) :
  quiet w (setField i f w).
Proof. split; [reflexivity|]. apply keys_update. Qed.

Create HintDb quiet.
#[local] Hint Resolve quiet_refl quiet_reply quiet_setField : quiet.

Section EventLoop.
Variable Number : string -> number.
Variable toLowerCase : string -> string.
Variable JSON_parse : string -> option JsonCmd.
Variable randomCatUrl : nat -> string.
Variable randomMood : nat -> Mood.

Lemma quiet_handleCommand (i : string) (now : Z) (cmd : string)
      (args : list string) (w : World) :
  quiet w (handleCommand Number toLowerCase i now cmd args w).
Proof.
  unfold handleCommand.
  destruct (JsMap.get i (clients w)) as [c|]; [|apply quiet_refl].
  repeat match goal with
         | |- context [if ?b then _ else _] => destruct b
         | |- context [match parseMode ?m with _ => _ end] => destruct (parseMode m)
         end;
    eauto using quiet_trans with quiet.
Qed.

Lemma quiet_onmessage (i : string) (now : Z) (data : MessageData) (w : World) :
  quiet w (onmessage Number toLowerCase JSON_parse i now data w).
Proof.
  unfold onmessage, textCommand, jsonCommand. cbv zeta.
  apply quiet_trans with (b := set_state (incr_wsMessages (state w)) w);
    [split; reflexivity|].
  generalize (set_state (incr_wsMessages (state w)) w). clear w. intros w.
  destruct data as [d|b]; [|apply quiet_refl].
  repeat match goal with
         | |- context [if ?b then _ else _] => destruct b
         | |- context [match JSON_parse ?s with _ => _ end] => destruct (JSON_parse s)
         | |- context [match Js.split_ws ?s with _ => _ end] => destruct (Js.split_ws s)
         end;
    auto using quiet_refl, quiet_handleCommand.
Qed.

Lemma quiet_tick (t now : Z) (fr : FetchResult) (w : World) :
  quiet w (tick randomCatUrl randomMood t now fr w).
Proof.
  destruct (clients w) as [|kc r] eqn:Hc.
  - unfold tick. rewrite Hc. apply quiet_refl.
  - destruct (tick_spec randomCatUrl randomMood t now fr w)
      as (pl & _ & _ & Hcs & _ & _ & _ & Ht).
    { rewrite Hc. discriminate. }
    split; [exact Ht|]. rewrite Hcs. apply keys_stamped.
Qed.

Lemma quiet_rest (t now : Z) (o : option FetchResult) (w : World) :
  quiet w (tick_rest randomCatUrl randomMood t now o w).
Proof.
  destruct (rest_keeps randomCatUrl randomMood t now o w)
    as (_ & _ & Ht & _ & _ & Hc).
  split; [exact Ht|]. rewrite Hc. apply keys_stamped.
Qed.

Lemma quiet_begin (t now : Z) (w : World) :
  quiet w (tick_begin randomCatUrl randomMood t now w).
Proof.
  destruct (begin_cases randomCatUrl randomMood t now w) as [->|[->| ->]].
  - apply quiet_refl.
  - split; reflexivity.
  - apply quiet_rest.
Qed.

Lemma quiet_resume (t now : Z) (fr : FetchResult) (w : World) :
  quiet w (tick_resume randomCatUrl randomMood t now fr w).
Proof.
  destruct (resume_cases randomCatUrl randomMood t now fr w) as [->| ->].
  - apply quiet_refl.
  - exact (quiet_rest t now (Some fr) (set_pending _ w)).
Qed.

(** Every event but an upgrade and a close is quiet. *)
Lemma quiet_step (w : World) (e : Event) :
  (forall origin i, e <> EUpgrade origin i) ->
  (forall i, e <> EClose i) ->
  quiet w (step Number toLowerCase JSON_parse randomCatUrl randomMood w e).
Proof.
  intros Hu Hc. destruct e; simpl.
  - exfalso. eapply Hu. reflexivity.
  - unfold onopen. destruct (JsMap.get i (clients w)); [|apply quiet_refl].
    split; [reflexivity|]. apply keys_update.
  - apply quiet_onmessage.
  - exfalso. eapply Hc. reflexivity.
  - apply quiet_setField.
  - destruct (ticker w); [apply quiet_tick|apply quiet_refl].
  - destruct (ticker w); [apply quiet_begin|apply quiet_refl].
  - apply quiet_resume.
  - split; reflexivity.
  - split; reflexivity.
  - split; reflexivity.
  - unfold keepalive. destruct (JsMap.get i (sseClients w)) as [c|]; [|apply quiet_refl].
    destruct (ctrl_usable c); split; reflexivity.
  - destruct lr; split; reflexivity.
  - split; reflexivity.
Qed.

(** An upgrade either changes nothing the ticker depends on, or registers
    the client and leaves the ticker running. *)
Lemma upgrade_step (w : World) (origin : option string) (i : string) :
  quiet w (step Number toLowerCase JSON_parse randomCatUrl randomMood w (EUpgrade origin i))
  \/ (clients (step Number toLowerCase JSON_parse randomCatUrl randomMood w (EUpgrade origin i))
      = JsMap.set i (newClient i (config w)) (clients w)
      /\ ticker (step Number toLowerCase JSON_parse randomCatUrl randomMood w (EUpgrade origin i))
         <> None).
Proof.
  simpl. unfold handleWs. simpl.
  destruct (originAllowed origin (config w)); simpl; [|left; split; reflexivity].
  destruct (max_clients (config w) <=? JsMap.size (clients w)); simpl;
    [left; split; reflexivity|].
  right. unfold startTickerIfNeeded. simpl.
  destruct (ticker w) eqn:Ht; simpl; split; try reflexivity; congruence.
Qed.

(** A close removes the client, and stops the ticker when none is left. *)
Lemma close_step (w : World) (i : string) :
  clients (step Number toLowerCase JSON_parse randomCatUrl randomMood w (EClose i))
  = JsMap.delete i (clients w)
  /\ ticker (step Number toLowerCase JSON_parse randomCatUrl randomMood w (EClose i))
     = match JsMap.delete i (clients w) with [] => None | _ => ticker w end.
Proof.
  simpl. unfold cleanup, stopTickerIfNoClients. simpl.
  destruct (JsMap.delete i (clients w)) as [|kc r] eqn:Hd.
  - simpl. destruct (ticker w) eqn:Ht; split; simpl; congruence.
  - replace (JsMap.size (kc :: r) =? 0) with false; [split; reflexivity|].
    symmetry. apply Z.eqb_neq. unfold JsMap.size. simpl List.length. lia.
Qed.




(** The keys of the registry stay pairwise distinct along every run: the
    assumption made on the registry where a client is told from the others
    by its key. *)
Lemma reachable_keys_distinct (w : World) :
  reachable Number toLowerCase JSON_parse randomCatUrl randomMood w ->
  NoDup (JsMap.keys (clients w)).
Proof.
  induction 1 as [cfg now|w e Hr IH].
  - constructor.
  - destruct e;
      try (match goal with
           | |- context [step _ _ _ _ _ w ?ev] =>
               destruct (quiet_step w ev ltac:(discriminate) ltac:(discriminate))
                 as [_ Hk]
           end;
           rewrite Hk; exact IH).
    + destruct (upgrade_step w origin i) as [[_ Hk]|[Hc _]].
      * rewrite Hk. exact IH.
      * rewrite Hc. now apply set_NoDup.
    + destruct (close_step w i) as [Hc _]. rewrite Hc. now apply delete_NoDup.
Qed.

End EventLoop.



(** ** The scenarios of the specification, run *)

(** [interval 100] on an open socket: the error that cites the bound, and
    the interval stays at the default. *)
Example scenario_interval_100 :
  since Demo.twoBin (Demo.onmessage "a" 7 (DataString "interval 100") Demo.twoBin)
  = [WsSend "a" (TextFrame (MsgError "interval must be 200..60000 ms"))]
  /\ option_map intervalMs
       (JsMap.get "a" (clients (Demo.onmessage "a" 7 (DataString "interval 100")
                                               Demo.twoBin)))
     = Some (ofZ 2500).
Proof. split; reflexivity. Qed.

(** Two due clients in [bin] mode and a fetch that fails, with nothing
    else handled during the fetch: one fetch, one more error, a notice to
    each and nothing else, and both are stamped. *)
Example scenario_two_bin_fetch_fails :
  since Demo.twoBin (Demo.tick 5000 5001 (FetchErr "upstream down") Demo.twoBin)
  = [FetchCatBytes;
     WsSend "a" (TextFrame (MsgError "upstream down"));
     WsSend "b" (TextFrame (MsgError "upstream down"))]
  /\ errors (state (Demo.tick 5000 5001 (FetchErr "upstream down") Demo.twoBin))
     = S (errors (state Demo.twoBin))
  /\ map (fun kc => lastSentAt (snd kc))
         (clients (Demo.tick 5000 5001 (FetchErr "upstream down") Demo.twoBin))
     = [5000; 5000].
Proof. repeat split; reflexivity. Qed.

(** The same callback with a fetch that succeeds: one fetch, then header
    and bytes to each client, the header first. *)
Example scenario_two_bin_fetch_succeeds :
  since Demo.twoBin (Demo.tick 5000 5001 (FetchOk Demo.png) Demo.twoBin)
  = [FetchCatBytes;
     WsSend "a" (TextFrame (MsgCatBin "image/png" 5000));
     WsSend "a" (BinaryFrame (p_bytes Demo.png));
     WsSend "b" (TextFrame (MsgCatBin "image/png" 5000));
     WsSend "b" (BinaryFrame (p_bytes Demo.png))].
Proof. reflexivity. Qed.

(** Both clients send [pause] while the fetch is awaited: the callback
    has fetched, and on resuming pushes to nobody. *)
Example scenario_pause_during_fetch :
  since Demo.twoBin
        (Demo.run Demo.twoBin
           [ETickBegin 5000 5000;
            EMessage "a" 5100 (DataString "pause");
            EMessage "b" 5100 (DataString "pause");
            ETickResume 5000 5400 (FetchOk Demo.png)])
  = [FetchCatBytes;
     WsSend "a" (TextFrame (MsgOk PausedMsg));
     WsSend "b" (TextFrame (MsgOk PausedMsg))].
Proof. reflexivity. Qed.

(** The last client closes while the fetch is awaited, and the fetch
    fails: the callback still counts the error and reports 0 clients to
    the stream. *)
Example scenario_close_during_fetch :
  since Demo.emptied
        (Demo.step Demo.emptied (ETickResume 5000 5400 (FetchErr "upstream down")))
  = [SseEnqueue "s" (SsePulse 5 0 0%nat CatDelivery)]
  /\ errors (state (Demo.step Demo.emptied
                              (ETickResume 5000 5400 (FetchErr "upstream down"))))
     = S (errors (state Demo.emptied))
  /\ ticker Demo.emptied = None.
Proof. repeat split; reflexivity. Qed.

(** ** More of the command protocol *)

Lemma update_id {V : Type} (i : string) (m : JsMap.t V) :
  JsMap.update i (fun c => c) m = m.
Proof.
  induction m as [|[k v] r IH]; simpl; [reflexivity|].
  destruct (String.eqb i k); [reflexivity|]. now rewrite IH.
Qed.

Lemma effect_reply_set (i : string) (c : WsClient) (m : ServerMsg)
      (f : WsClient -> WsClient) (w : World) :
  (forall c, ws (f c) = ws c /\ id (f c) = id c /\ lastSentAt (f c) = lastSentAt c
             /\ (in_bound (intervalMs c) -> in_bound (intervalMs (f c)))) ->
  command_effect i w (reply i c m (setField i f w)).
Proof.
  intros Hf. unfold command_effect, reply, setField.
  destruct (wsOpen c); simpl; repeat split; auto.
  - exists f. auto.
  - exists [TextFrame m]. split; [reflexivity|simpl; lia].
  - exists f. auto.
  - exists []. split; [now rewrite app_nil_r|simpl; lia].
Qed.

Lemma effect_reply (i : string) (c : WsClient) (m : ServerMsg) (w : World) :
  command_effect i w (reply i c m w).
Proof.
  replace w with (setField i (fun c => c) w) at 2.
  - apply effect_reply_set. auto.
  - unfold setField. rewrite update_id. now destruct w.
Qed.

Lemma effect_refl (i : string) (w : World) : command_effect i w w.
Proof.
  unfold command_effect. repeat split; auto.
  - exists (fun c => c). split; [now rewrite update_id|auto].
  - exists []. split; [now rewrite app_nil_r|simpl; lia].
Qed.

Section MoreCommands.
Variable Number : string -> number.
Variable toLowerCase : string -> string.

Lemma handleCommand_effect (i : string) (now : Z) (cmd : string)
      (args : list string) (w : World) :
  command_effect i w (handleCommand Number toLowerCase i now cmd args w).
Proof.
  unfold handleCommand.
  destruct (JsMap.get i (clients w)) as [c|]; [|apply effect_refl].
  repeat match goal with
         | |- context [if ?b then _ else _] => destruct b eqn:?
         | |- context [match parseMode ?m with _ => _ end] => destruct (parseMode m)
         end;
    first [ apply effect_reply
          | apply effect_reply_set; intros; simpl; repeat split; auto;
            intros _; apply interval_test; assumption ].
Qed.

(** X1: a command reaches only the client it was sent on: whatever the
    command word and its arguments, every other client, the
    configuration, the counters, the streams and the ticker are as before,
    the client's own socket, id and stamp are as before, and at most one
    frame is sent, to the sender. *)
Theorem command_is_local (i : string) (now : Z) (cmd : string)
        (args : list string) (w : World) :
  config (handleCommand Number toLowerCase i now cmd args w) = config w
  /\ state (handleCommand Number toLowerCase i now cmd args w) = state w
  /\ sseClients (handleCommand Number toLowerCase i now cmd args w) = sseClients w
  /\ ticker (handleCommand Number toLowerCase i now cmd args w) = ticker w
  /\ (forall j, j <> i ->
        JsMap.get j (clients (handleCommand Number toLowerCase i now cmd args w))
        = JsMap.get j (clients w))
  /\ (forall c c',
        JsMap.get i (clients w) = Some c ->
        JsMap.get i (clients (handleCommand Number toLowerCase i now cmd args w)) = Some c' ->
        ws c' = ws c /\ id c' = id c /\ lastSentAt c' = lastSentAt c)
  /\ (exists fs,
        since w (handleCommand Number toLowerCase i now cmd args w) = map (WsSend i) fs
        /\ (List.length fs <= 1)%nat).
Proof.
  destruct (handleCommand_effect i now cmd args w)
    as (H1 & H2 & H3 & H4 & _ & _ & (f & Hc & Hf) & (fs & Hl & Hn)).
  repeat split; try assumption.
  - intros j Hne. rewrite Hc. now apply get_update_other.
  - rewrite Hc in H0. rewrite (get_update _ _ _ _ H) in H0.
    injection H0 as <-. apply Hf.
  - rewrite Hc in H0. rewrite (get_update _ _ _ _ H) in H0.
    injection H0 as <-. apply Hf.
  - rewrite Hc in H0. rewrite (get_update _ _ _ _ H) in H0.
    injection H0 as <-. apply Hf.
  - exists fs. split; [now apply since_app|assumption].
Qed.

(** X2: on a registered client whose socket is OPEN, [mode] is accepted
    exactly when its argument, lower-cased, is [url] or [bin]: then that
    mode becomes the [mode] of the client, its other fields and every
    other client stay as they were, and an ok reply names the mode;
    otherwise (argument missing included) every client stays as it was
    and the reply is an error. *)
Theorem mode_command (i : string) (now : Z) (args : list string)
        (w : World) (c : WsClient) :
  JsMap.get i (clients w) = Some c ->
  wsOpen c = true ->
  (forall m, (m = url /\ toLowerCase (hd EmptyString args) = "url")
             \/ (m = bin /\ toLowerCase (hd EmptyString args) = "bin") ->
     (exists c',
        JsMap.get i (clients (handleCommand Number toLowerCase i now "mode" args w))
        = Some c'
        /\ mode c' = m
        /\ only_mode_differs c c')
     /\ (forall j, j <> i ->
           JsMap.get j (clients (handleCommand Number toLowerCase i now "mode" args w))
           = JsMap.get j (clients w))
     /\ since w (handleCommand Number toLowerCase i now "mode" args w)
        = [WsSend i (TextFrame (MsgOk (ModeSetTo m)))])
  /\ (toLowerCase (hd EmptyString args) <> "url" ->
      toLowerCase (hd EmptyString args) <> "bin" ->
      clients (handleCommand Number toLowerCase i now "mode" args w) = clients w
      /\ since w (handleCommand Number toLowerCase i now "mode" args w)
         = [WsSend i (TextFrame (MsgError modeError))]).
Proof.
  intros Hget Ho. unfold handleCommand. rewrite Hget.
  change (String.eqb "mode" "help") with false.
  change (String.eqb "mode" "interval") with false.
  change (String.eqb "mode" "pause") with false.
  change (String.eqb "mode" "resume") with false.
  change (String.eqb "mode" "mode") with true. cbv iota.
  replace (match args with a :: _ => a | [] => EmptyString end)
    with (hd EmptyString args) by (destruct args; reflexivity).
  unfold parseMode, reply, setField. rewrite Ho. split.
  - intros m [[-> E]|[-> E]]; rewrite E; simpl;
      (split; [|split; [intros j Hne; now apply get_update_other|now apply since_app]]).
    + exists (set_mode url c). split; [now apply get_update|].
      unfold only_mode_differs. simpl. tauto.
    + exists (set_mode bin c). split; [now apply get_update|].
      unfold only_mode_differs. simpl. tauto.
  - intros H1 H2.
    destruct (String.eqb (toLowerCase (hd EmptyString args)) "url") eqn:E1.
    { apply String.eqb_eq in E1. contradiction. }
    destruct (String.eqb (toLowerCase (hd EmptyString args)) "bin") eqn:E2.
    { apply String.eqb_eq in E2. contradiction. }
    split; [reflexivity|now apply since_app].
Qed.

(** X3: a word that is none of the seven commands changes nothing and, on
    an open socket, is answered with the error that names it. *)
Theorem unknown_command (i : string) (now : Z) (cmd : string)
        (args : list string) (w : World) (c : WsClient) :
  JsMap.get i (clients w) = Some c ->
  wsOpen c = true ->
  ~ In cmd ["help"; "interval"; "pause"; "resume"; "mode"; "ping"; "whoami"] ->
  clients (handleCommand Number toLowerCase i now cmd args w) = clients w
  /\ since w (handleCommand Number toLowerCase i now cmd args w)
     = [WsSend i (TextFrame (MsgError ("unknown command: " ++ cmd)))].
Proof.
  intros Hget Ho Hn. unfold handleCommand. rewrite Hget.
  repeat match goal with
         | |- context [String.eqb cmd ?x] =>
             let E := fresh "E" in
             destruct (String.eqb cmd x) eqn:E;
             [apply String.eqb_eq in E; exfalso; apply Hn; subst cmd; simpl; tauto|]
         end.
  unfold reply. rewrite Ho. split; [reflexivity|now apply since_app].
Qed.
End MoreCommands.

Lemma mode_command_witness :
  (exists c',
     JsMap.get "a" (clients (Demo.handleCommand "a" 7 "mode" ["URL"] Demo.twoBin))
     = Some c'
     /\ mode c' = url)
  /\ since Demo.twoBin (Demo.handleCommand "a" 7 "mode" ["embedded-bytes"] Demo.twoBin)
     = [WsSend "a" (TextFrame (MsgError modeError))].
Proof.
  destruct (mode_command Demo.Number Demo.toLowerCase "a" 7 ["URL"] Demo.twoBin
              (set_ws {| readyState := OPEN |} (newClient "a" Demo.binConfig))
              eq_refl eq_refl) as [Hok _].
  destruct (mode_command Demo.Number Demo.toLowerCase "a" 7 ["embedded-bytes"] Demo.twoBin
              (set_ws {| readyState := OPEN |} (newClient "a" Demo.binConfig))
              eq_refl eq_refl) as [_ Hbad].
  split.
  - destruct (Hok url) as ((c' & Hget & Hm & _) & _).
    + left. split; reflexivity.
    + exists c'. split; [exact Hget|exact Hm].
  - apply Hbad; discriminate.
Defined.

Lemma unknown_command_witness :
  since Demo.twoBin (Demo.handleCommand "a" 7 "stop" [] Demo.twoBin)
  = [WsSend "a" (TextFrame (MsgError "unknown command: stop"))].
Proof.
  apply (unknown_command Demo.Number Demo.toLowerCase "a" 7 "stop" [] Demo.twoBin
           (set_ws {| readyState := OPEN |} (newClient "a" Demo.binConfig))
           eq_refl eq_refl).
  simpl. intros [H|[H|[H|[H|[H|[H|[H|[]]]]]]]]; discriminate H.
Defined.

(** ** More of the tick: the counter, the pulse, the rate gate *)

Lemma events_to_app (i : string) (a b : list Effect) :
  events_to i (a ++ b)%list = (events_to i a ++ events_to i b)%list.
Proof. unfold events_to. apply flat_map_app. Qed.

Lemma events_to_sends (i k : string) (fs : list Frame) :
  events_to i (map (WsSend k) fs) = [].
Proof. induction fs as [|f fs IH]; simpl; [reflexivity|exact IH]. Qed.

Lemma events_to_notices (i e : string) (cs : JsMap.t WsClient) :
  events_to i (notices e cs) = [].
Proof.
  induction cs as [|[k c] r IH]; [reflexivity|].
  unfold notices in *. simpl. destruct (wsOpen c); simpl; exact IH.
Qed.

Lemma events_to_sse_absent (i : string) (ev : SseEvent) (ss : JsMap.t SseClient) :
  ~ In i (JsMap.keys ss) -> events_to i (sse_events ev ss) = [].
Proof.
  induction ss as [|[k c] r IH]; simpl; [reflexivity|].
  intros H. unfold sse_events in *. simpl.
  assert (String.eqb i k = false) as E.
  { apply String.eqb_neq. intros ->. apply H. now left. }
  rewrite events_to_app, IH by tauto.
  destruct (ctrl_usable c); simpl; [rewrite E|]; reflexivity.
Qed.

Lemma events_to_sse (i : string) (ev : SseEvent) (s : SseClient)
      (ss : JsMap.t SseClient) :
  NoDup (JsMap.keys ss) -> JsMap.get i ss = Some s ->
  events_to i (sse_events ev ss) = if ctrl_usable s then [ev] else [].
Proof.
  induction ss as [|[k c] r IH]; simpl; [discriminate|].
  intros Hnd Hget. inversion Hnd as [|? ? Hk Hr]; subst.
  change (sse_events ev ((k, c) :: r))
    with ((if ctrl_usable c then [SseEnqueue k ev] else [])
            ++ sse_events ev r)%list.
  rewrite events_to_app.
  destruct (String.eqb i k) eqn:E.
  - apply String.eqb_eq in E. subst k. injection Hget as ->.
    rewrite events_to_sse_absent by assumption.
    destruct (ctrl_usable s); simpl; [rewrite String.eqb_refl|]; reflexivity.
  - rewrite IH by assumption.
    destruct (ctrl_usable c); simpl; [rewrite E|]; reflexivity.
Qed.

Section TickCounts.
Variable randomCatUrl : nat -> string.
Variable randomMood : nat -> Mood.

Lemma events_to_loop (i : string) (t : Z) (bp : option Payload)
      (cs : JsMap.t WsClient) :
  forall n, events_to i (loop_log randomCatUrl t bp n cs) = [].
Proof.
  induction cs as [|[k c] r IH]; intros n; simpl; [reflexivity|].
  now rewrite events_to_app, events_to_sends, IH.
Qed.

Lemma events_to_notices_in (i : string) (o : option FetchResult)
      (cs : JsMap.t WsClient) :
  events_to i (notices_in o cs) = [].
Proof.
  destruct o as [[p|e]|]; simpl; try reflexivity. apply events_to_notices.
Qed.

(** The payload count goes up by the number of clients that are handed a
    payload frame. *)
Lemma rest_cats (t now : Z) (o : option FetchResult) (w : World) :
  NoDup (JsMap.keys (clients w)) ->
  catsSent (state (tick_rest randomCatUrl randomMood t now o w))
  = (catsSent (state w)
     + List.length
         (filter (fun kc => existsb isPush
                              (frames_to (fst kc)
                                 (since w (tick_rest randomCatUrl randomMood t now o w))))
                 (clients w)))%nat.
Proof.
  intros Hnd.
  destruct (rest_spec randomCatUrl randomMood t now o w) as (n & _ & _ & -> & _).
  f_equal.
  unfold JsMap.values. rewrite <- (length_map snd (filter _ (clients w))).
  f_equal.
  assert (forall kc, In kc (clients w) ->
            existsb isPush
              (frames_to (fst kc) (since w (tick_rest randomCatUrl randomMood t now o w)))
            = pushed t (payload_in o) (snd kc)) as Hext.
  { intros [k c] Hin. simpl.
    pose proof (get_of_in k c (clients w) Hnd Hin) as Hget.
    destruct (rest_frames randomCatUrl randomMood t now o w k c Hnd Hget) as (n' & ->).
    rewrite existsb_app, client_frames_pushed.
    assert (existsb isPush (notice_in o c) = false) as ->; [|reflexivity].
    destruct o as [[p|e]|]; simpl; try reflexivity.
    destruct (wsOpen c); reflexivity. }
  clear Hnd. induction (clients w) as [|kc r IH]; [reflexivity|].
  simpl. rewrite (Hext kc) by now left.
  destruct (pushed t (payload_in o) (snd kc)); simpl;
    rewrite IH; auto; intros; apply Hext; now right.
Qed.

(** The pulse that ends a callback, as one stream sees it. *)
Lemma rest_pulse (t now : Z) (o : option FetchResult) (w : World)
      (k : string) (s : SseClient) :
  NoDup (JsMap.keys (sseClients w)) ->
  JsMap.get k (sseClients w) = Some s ->
  exists n,
    events_to k (since w (tick_rest randomCatUrl randomMood t now o w))
    = if ctrl_usable s
      then [SsePulse ((now - startedAt (state w)) / 1000)
                     (JsMap.size (clients w))
                     (catsSent (state (tick_rest randomCatUrl randomMood t now o w)))
                     (randomMood n)]
      else [].
Proof.
  intros Hnd Hget.
  destruct (rest_since randomCatUrl randomMood t now o w) as (n & ->).
  exists n. rewrite !events_to_app, events_to_notices_in, events_to_loop.
  simpl. now apply events_to_sse.
Qed.

Lemma loop_log_contiguous (t : Z) (bp : option Payload) (k : string)
      (c : WsClient) (cs : JsMap.t WsClient) :
  In (k, c) cs ->
  forall n, exists pre post n',
    loop_log randomCatUrl t bp n cs
    = (pre ++ map (WsSend k) (client_frames randomCatUrl t bp n' c) ++ post)%list.
Proof.
  induction cs as [|[k0 c0] r IH]; intros Hin n; [destruct Hin|].
  simpl. destruct Hin as [[= -> ->]|Hin].
  - exists [], (loop_log randomCatUrl t bp (n + client_draws t c) r), n.
    reflexivity.
  - destruct (IH Hin (n + client_draws t c0)%nat) as (pre & post & n' & ->).
    exists (map (WsSend k0) (client_frames randomCatUrl t bp n c0) ++ pre)%list,
      post, n'.
    now rewrite <- app_assoc.
Qed.

(** A client that the interval test or a pause keeps out of the loop. *)
Lemma rest_skips (t now : Z) (o : option FetchResult) (w : World)
      (k : string) (c : WsClient) :
  NoDup (JsMap.keys (clients w)) ->
  JsMap.get k (clients w) = Some c ->
  due t c = false ->
  existsb isPush
    (frames_to k (since w (tick_rest randomCatUrl randomMood t now o w))) = false
  /\ JsMap.get k (clients (tick_rest randomCatUrl randomMood t now o w)) = Some c.
Proof.
  intros Hnd Hget Hd. split.
  - destruct (rest_frames randomCatUrl randomMood t now o w k c Hnd Hget) as (n & ->).
    rewrite existsb_app, client_frames_pushed, Hd, orb_false_r.
    destruct o as [[p|e]|]; simpl; try reflexivity.
    destruct (wsOpen c); reflexivity.
  - rewrite (rest_client randomCatUrl randomMood t now o w k c Hget).
    unfold stamp. now rewrite Hd.
Qed.

(** X4: [cats_sent] counts payload pushes.  The part of a callback that
    runs the push loop, be it the resumption after the fetch or, when
    nothing is awaited, the whole callback, raises [catsSent] by the
    number of clients, registered when it runs, that it hands a payload
    frame; the part that ends at the fetch leaves the counter alone. *)
Theorem catsSent_counts_pushes (t now : Z) (w : World) :
  NoDup (JsMap.keys (clients w)) ->
  (is_pending t w = true ->
   forall fr,
     catsSent (state (tick_resume randomCatUrl randomMood t now fr w))
     = (catsSent (state w)
        + List.length
            (filter (fun kc =>
                       existsb isPush
                         (frames_to (fst kc)
                            (since w (tick_resume randomCatUrl randomMood t now fr w))))
                    (clients w)))%nat)
  /\ (someoneWantsBin w = false ->
      catsSent (state (tick_begin randomCatUrl randomMood t now w))
      = (catsSent (state w)
         + List.length
             (filter (fun kc =>
                        existsb isPush
                          (frames_to (fst kc)
                             (since w (tick_begin randomCatUrl randomMood t now w))))
                     (clients w)))%nat)
  /\ (someoneWantsBin w = true ->
      catsSent (state (tick_begin randomCatUrl randomMood t now w))
      = catsSent (state w)).
Proof.
  intros Hnd. split; [|split].
  - intros Hp fr. rewrite (resume_rest randomCatUrl randomMood t now fr w Hp).
    exact (rest_cats t now (Some fr) (set_pending _ w) Hnd).
  - intros Hs. destruct (clients w) as [|kc r] eqn:Hc.
    + rewrite begin_empty by exact Hc. simpl. lia.
    + rewrite <- Hc in *.
      rewrite begin_rest; [|rewrite Hc; discriminate|exact Hs].
      now apply rest_cats.
  - intros Hs. now rewrite (begin_await randomCatUrl randomMood t now w Hs).
Qed.

(** X5: a callback enqueues one pulse, as its last act, on every stream
    whose controller takes events, with the number of clients registered
    at that moment, which is 0 when the last client closed during the
    fetch, and the payload count as it stands after the pushes.  A
    callback that finds no client at its start enqueues nothing, nor does
    the part of a callback that ends at the fetch. *)
Theorem one_pulse_per_tick (t now : Z) (w : World) (k : string) (s : SseClient) :
  NoDup (JsMap.keys (sseClients w)) ->
  JsMap.get k (sseClients w) = Some s ->
  (is_pending t w = true ->
   forall fr, exists n,
     events_to k (since w (tick_resume randomCatUrl randomMood t now fr w))
     = if ctrl_usable s
       then [SsePulse ((now - startedAt (state w)) / 1000)
                      (JsMap.size (clients w))
                      (catsSent (state (tick_resume randomCatUrl randomMood t now fr w)))
                      (randomMood n)]
       else [])
  /\ (clients w <> [] -> someoneWantsBin w = false ->
      exists n,
        events_to k (since w (tick_begin randomCatUrl randomMood t now w))
        = if ctrl_usable s
          then [SsePulse ((now - startedAt (state w)) / 1000)
                         (JsMap.size (clients w))
                         (catsSent (state (tick_begin randomCatUrl randomMood t now w)))
                         (randomMood n)]
          else [])
  /\ (someoneWantsBin w = true ->
      events_to k (since w (tick_begin randomCatUrl randomMood t now w)) = [])
  /\ (clients w = [] ->
      since w (tick_begin randomCatUrl randomMood t now w) = []).
Proof.
  intros Hnd Hget. split; [|split; [|split]].
  - intros Hp fr. rewrite (resume_rest randomCatUrl randomMood t now fr w Hp).
    exact (rest_pulse t now (Some fr) (set_pending _ w) k s Hnd Hget).
  - intros Hne Hs. rewrite begin_rest by assumption.
    now apply rest_pulse.
  - intros Hs. rewrite (begin_await randomCatUrl randomMood t now w Hs).
    assert (since w (set_pending (t :: pending w) (emit [FetchCatBytes] w))
            = [FetchCatBytes]) as -> by now apply since_app.
    reflexivity.
  - intros He. rewrite begin_empty by exact He. now apply since_refl.
Qed.

(** X6: the rate gate.  Where the push loop of a callback runs, a client
    whose [lastSentAt] lies less than its [intervalMs] before the time the
    callback took at its start is handed no payload and keeps its entry,
    stamp included. *)
Theorem no_push_before_interval (t now : Z) (w : World)
        (k : string) (c : WsClient) (q : Q) :
  NoDup (JsMap.keys (clients w)) ->
  JsMap.get k (clients w) = Some c ->
  intervalMs c = Fin q ->
  (inject_Z (t - lastSentAt c) < q)%Q ->
  (is_pending t w = true ->
   forall fr,
     existsb isPush
       (frames_to k (since w (tick_resume randomCatUrl randomMood t now fr w))) = false
     /\ JsMap.get k (clients (tick_resume randomCatUrl randomMood t now fr w)) = Some c)
  /\ (someoneWantsBin w = false ->
      existsb isPush
        (frames_to k (since w (tick_begin randomCatUrl randomMood t now w))) = false
      /\ JsMap.get k (clients (tick_begin randomCatUrl randomMood t now w)) = Some c).
Proof.
  intros Hnd Hget Hq Hlt.
  assert (due t c = false) as Hd.
  { unfold due. rewrite Hq. unfold ofZ. simpl.
    assert (Qltb (inject_Z (t - lastSentAt c)) q = true) as ->.
    { unfold Qltb. apply negb_true_iff.
      destruct (Qle_bool q (inject_Z (t - lastSentAt c))) eqn:E; [|reflexivity].
      apply Qle_bool_iff in E. exfalso. now apply (Qlt_not_le _ _ Hlt). }
    now rewrite andb_false_r. }
  split.
  - intros Hp fr. rewrite (resume_rest randomCatUrl randomMood t now fr w Hp).
    exact (rest_skips t now (Some fr) (set_pending _ w) k c Hnd Hget Hd).
  - intros Hs. rewrite begin_rest; [|eapply get_nonempty; exact Hget|exact Hs].
    now apply rest_skips.
Qed.

(** X7: a paused client is left alone.  Where the push loop of a callback
    runs, a client that is paused by then is handed no payload and keeps
    its entry; and a callback at whose start no other client wants [bin]
    does not fetch on account of a paused one. *)
Theorem paused_client_is_skipped (t now : Z) (w : World)
        (k : string) (c : WsClient) :
  NoDup (JsMap.keys (clients w)) ->
  JsMap.get k (clients w) = Some c ->
  paused c = true ->
  (is_pending t w = true ->
   forall fr,
     existsb isPush
       (frames_to k (since w (tick_resume randomCatUrl randomMood t now fr w))) = false
     /\ JsMap.get k (clients (tick_resume randomCatUrl randomMood t now fr w)) = Some c)
  /\ ((forall k' c', JsMap.get k' (clients w) = Some c' -> k' <> k -> wantsBin c' = false) ->
      fetches (since w (tick_begin randomCatUrl randomMood t now w)) = 0%nat
      /\ existsb isPush
           (frames_to k (since w (tick_begin randomCatUrl randomMood t now w))) = false
      /\ JsMap.get k (clients (tick_begin randomCatUrl randomMood t now w)) = Some c).
Proof.
  intros Hnd Hget Hp.
  assert (due t c = false) as Hd by (unfold due; now rewrite Hp).
  split.
  - intros Hpend fr. rewrite (resume_rest randomCatUrl randomMood t now fr w Hpend).
    exact (rest_skips t now (Some fr) (set_pending _ w) k c Hnd Hget Hd).
  - intros Hothers.
    assert (someoneWantsBin w = false) as Hs.
    { unfold someoneWantsBin.
      destruct (existsb wantsBin (JsMap.values (clients w))) eqn:E; [|reflexivity].
      apply existsb_exists in E as (c' & Hin & Hw).
      apply in_map_iff in Hin as ([k' c''] & <- & Hin). simpl in Hw.
      pose proof (get_of_in k' c'' (clients w) Hnd Hin) as Hget'.
      destruct (string_dec k' k) as [->|Hne].
      - rewrite Hget in Hget'. injection Hget' as <-.
        unfold wantsBin in Hw. rewrite Hp in Hw. now rewrite andb_false_r in Hw.
      - rewrite (Hothers k' c'' Hget' Hne) in Hw. discriminate. }
    split; [now rewrite begin_fetches, Hs|].
    rewrite begin_rest; [|eapply get_nonempty; exact Hget|exact Hs].
    now apply rest_skips.
Qed.

(** X8: the header and the bytes of a [bin] push go out back to back.
    When a callback resumes with the payload of its fetch, every client
    that is then in [bin] mode and due has its header and its bytes in
    the log next to each other: nothing, for this or for any other
    client, is sent between them. *)
Theorem header_then_bytes (t now : Z) (p : Payload) (w : World)
        (k : string) (c : WsClient) :
  is_pending t w = true ->
  In (k, c) (clients w) ->
  mode c = bin ->
  due t c = true ->
  exists pre post,
    since w (tick_resume randomCatUrl randomMood t now (FetchOk p) w)
    = (pre ++ [WsSend k (TextFrame (MsgCatBin (p_type p) t));
               WsSend k (BinaryFrame (p_bytes p))] ++ post)%list.
Proof.
  intros Hp Hin Hm Hd.
  rewrite (resume_rest randomCatUrl randomMood t now (FetchOk p) w Hp).
  destruct (rest_since randomCatUrl randomMood t now (Some (FetchOk p))
                       (set_pending (remove_first t (pending w)) w)) as (n & Hs).
  change (since w ?x) with (since (set_pending (remove_first t (pending w)) w) x).
  rewrite Hs. cbn [notices_in payload_in app clients set_pending].
  destruct (loop_log_contiguous t (Some p) k c (clients w) Hin (draws w))
    as (pre & post & n' & Hl).
  cbn [draws set_pending]. rewrite Hl.
  eexists pre, (post ++ _)%list.
  unfold client_frames. rewrite Hd, Hm. simpl.
  rewrite <- !app_assoc. reflexivity.
Qed.
End TickCounts.

(** A client registers and opens while the fetch is awaited: the pulse of
    the resumed callback counts it. *)
Lemma one_pulse_per_tick_witness :
  exists n,
    events_to "s"
      (since (Demo.run Demo.emptied [EUpgrade None "b"; EOpen "b"])
             (Demo.tick_resume 5000 9000 (FetchErr "no")
                (Demo.run Demo.emptied [EUpgrade None "b"; EOpen "b"])))
    = [SsePulse 9 1 0%nat (Demo.randomMood n)].
Proof.
  unfold Demo.tick_resume.
  assert (NoDup (JsMap.keys (sseClients
                               (Demo.run Demo.emptied [EUpgrade None "b"; EOpen "b"]))))
    as Hnd.
  { apply distinct_NoDup. reflexivity. }
  destruct (one_pulse_per_tick Demo.randomCatUrl Demo.randomMood 5000 9000
              (Demo.run Demo.emptied [EUpgrade None "b"; EOpen "b"])
              "s" {| sse_id := "s"; ctrl_usable := true |} Hnd eq_refl)
    as [Hpulse _].
  destruct (Hpulse eq_refl (FetchErr "no")) as (n & Hn).
  exists n. exact Hn.
Defined.

(** The client [a] was pushed to at 5000; a callback begun at 7499 finds
    its interval of 2500 not elapsed. *)
Lemma no_push_before_interval_witness :
  existsb isPush
    (frames_to "a"
       (since (Demo.step (Demo.tick 5000 5001 (FetchOk Demo.png) Demo.twoBin)
                         (ETickBegin 7499 7499))
              (Demo.tick_resume 7499 7500 (FetchOk Demo.png)
                 (Demo.step (Demo.tick 5000 5001 (FetchOk Demo.png) Demo.twoBin)
                            (ETickBegin 7499 7499)))))
  = false.
Proof.
  unfold Demo.tick_resume.
  destruct (no_push_before_interval Demo.randomCatUrl Demo.randomMood
              7499 7500
              (Demo.step (Demo.tick 5000 5001 (FetchOk Demo.png) Demo.twoBin)
                         (ETickBegin 7499 7499))
              "a"
              (set_lastSentAt 5000
                 (set_ws {| readyState := OPEN |} (newClient "a" Demo.binConfig)))
              (inject_Z 2500)) as [Hres _].
  - apply distinct_NoDup. reflexivity.
  - reflexivity.
  - reflexivity.
  - reflexivity.
  - destruct (Hres eq_refl (FetchOk Demo.png)) as [H _]. exact H.
Defined.

(** The client [a] sends [pause] while the fetch is awaited. *)
Lemma paused_client_is_skipped_witness :
  existsb isPush
    (frames_to "a"
       (since (Demo.step Demo.twoBinAwaiting (EMessage "a" 5100 (DataString "pause")))
              (Demo.tick_resume 5000 5400 (FetchOk Demo.png)
                 (Demo.step Demo.twoBinAwaiting
                            (EMessage "a" 5100 (DataString "pause"))))))
  = false.
Proof.
  unfold Demo.tick_resume.
  destruct (paused_client_is_skipped Demo.randomCatUrl Demo.randomMood
              5000 5400
              (Demo.step Demo.twoBinAwaiting (EMessage "a" 5100 (DataString "pause")))
              "a"
              (set_paused true
                 (set_ws {| readyState := OPEN |} (newClient "a" Demo.binConfig))))
    as (Hres & _).
  - apply distinct_NoDup. reflexivity.
  - reflexivity.
  - reflexivity.
  - destruct (Hres eq_refl (FetchOk Demo.png)) as [H _]. exact H.
Defined.

Lemma header_then_bytes_witness :
  exists pre post,
    since Demo.twoBinAwaiting
          (Demo.tick_resume 5000 5001 (FetchOk Demo.png) Demo.twoBinAwaiting)
    = (pre ++ [WsSend "b" (TextFrame (MsgCatBin "image/png" 5000));
               WsSend "b" (BinaryFrame (p_bytes Demo.png))] ++ post)%list.
Proof.
  unfold Demo.tick_resume.
  apply (header_then_bytes Demo.randomCatUrl Demo.randomMood 5000 5001 Demo.png
           Demo.twoBinAwaiting "b"
           (set_ws {| readyState := OPEN |} (newClient "b" Demo.binConfig))).
  - reflexivity.
  - right. left. reflexivity.
  - reflexivity.
  - reflexivity.
Defined.

(** A client registers and opens while the fetch is awaited: it is pushed
    to and counted with the two that were there. *)
Lemma catsSent_counts_pushes_witness :
  catsSent (state (Demo.tick_resume 5000 5400 (FetchOk Demo.png)
                     (Demo.run Demo.twoBinAwaiting [EUpgrade None "c"; EOpen "c"])))
  = 3%nat.
Proof.
  unfold Demo.tick_resume.
  destruct (catsSent_counts_pushes Demo.randomCatUrl Demo.randomMood 5000 5400
              (Demo.run Demo.twoBinAwaiting [EUpgrade None "c"; EOpen "c"]))
    as [Hres _].
  - apply distinct_NoDup. reflexivity.
  - rewrite (Hres eq_refl (FetchOk Demo.png)). reflexivity.
Defined.

(** ** More of the event loop: what every event keeps *)

Lemma entries_refl (m : JsMap.t WsClient) : Forall2 entry_kept m m.
Proof. induction m; constructor; [split; auto|assumption]. Qed.

Lemma entries_update (i : string) (f : WsClient -> WsClient) (m : JsMap.t WsClient) :
  (forall c, in_bound (intervalMs c) -> in_bound (intervalMs (f c))) ->
  Forall2 entry_kept m (JsMap.update i f m).
Proof.
  intros Hf. induction m as [|[k c] r IH]; simpl; [constructor|].
  destruct (String.eqb i k).
  - constructor; [split; simpl; auto|apply entries_refl].
  - constructor; [split; auto|exact IH].
Qed.

Lemma entries_stamped (t : Z) (m : JsMap.t WsClient) :
  Forall2 entry_kept m (map (fun kc => (fst kc, stamp t (snd kc))) m).
Proof.
  induction m as [|[k c] r IH]; simpl; constructor; [|exact IH].
  split; [reflexivity|]. simpl. unfold stamp. destruct (due t c); auto.
Qed.

Section EventFacts.
Variable Number : string -> number.
Variable toLowerCase : string -> string.
Variable JSON_parse : string -> option JsonCmd.
Variable randomCatUrl : nat -> string.
Variable randomMood : nat -> Mood.

(** A message either stops after being counted or runs one command. *)
Lemma onmessage_cases (i : string) (now : Z) (data : MessageData) (w : World) :
  onmessage Number toLowerCase JSON_parse i now data w
  = set_state (incr_wsMessages (state w)) w
  \/ exists cmd args,
      onmessage Number toLowerCase JSON_parse i now data w
      = handleCommand Number toLowerCase i now cmd args (set_state (incr_wsMessages (state w)) w).
Proof.
  unfold onmessage, textCommand, jsonCommand. cbv zeta.
  destruct data as [d|b]; [|now left].
  repeat match goal with
         | |- context [if ?b then _ else _] => destruct b
         | |- context [match JSON_parse ?s with _ => _ end] => destruct (JSON_parse s)
         | |- context [match Js.split_ws ?s with _ => _ end] => destruct (Js.split_ws s)
         end;
    first [ now left | right; eexists; eexists; reflexivity ].
Qed.

Lemma tick_clients (t now : Z) (fr : FetchResult) (w : World) :
  clients (tick randomCatUrl randomMood t now fr w)
  = map (fun kc => (fst kc, stamp t (snd kc))) (clients w).
Proof.
  destruct (clients w) as [|kc r] eqn:Hc.
  - unfold tick. rewrite Hc. simpl. exact Hc.
  - rewrite <- Hc.
    destruct (tick_spec randomCatUrl randomMood t now fr w) as (pl & _ & _ & H & _).
    { rewrite Hc. discriminate. }
    exact H.
Qed.

(** What an event does to the registry: it changes entries in place, or it
    is an accepted upgrade below the maximum, or it is a close. *)
Lemma step_clients (w : World) (e : Event) :
  Forall2 entry_kept (clients w)
          (clients (step Number toLowerCase JSON_parse randomCatUrl randomMood w e))
  \/ (exists origin i,
        e = EUpgrade origin i
        /\ JsMap.size (clients w) < max_clients (config w)
        /\ clients (step Number toLowerCase JSON_parse randomCatUrl randomMood w e)
           = JsMap.set i (newClient i (config w)) (clients w))
  \/ (exists i,
        e = EClose i
        /\ clients (step Number toLowerCase JSON_parse randomCatUrl randomMood w e)
           = JsMap.delete i (clients w)).
Proof.
  destruct e; simpl.
  - unfold handleWs. simpl.
    destruct (originAllowed origin (config w)); simpl; [|left; apply entries_refl].
    destruct (max_clients (config w) <=? JsMap.size (clients w)) eqn:E; simpl;
      [left; apply entries_refl|].
    right. left. exists origin, i. apply Z.leb_gt in E. split; [reflexivity|].
    split; [exact E|]. unfold startTickerIfNeeded. simpl.
    destruct (ticker w); reflexivity.
  - left. unfold onopen. destruct (JsMap.get i (clients w)); [|apply entries_refl].
    simpl. apply entries_update. auto.
  - left. destruct (onmessage_cases i now data w) as [->|(cmd & args & ->)];
      [apply entries_refl|].
    destruct (handleCommand_effect Number toLowerCase i now cmd args
                (set_state (incr_wsMessages (state w)) w))
      as (_ & _ & _ & _ & _ & _ & (f & -> & Hf) & _).
    simpl. apply entries_update. intros c. apply Hf.
  - right. right. exists i. split; [reflexivity|].
    unfold cleanup, stopTickerIfNoClients. simpl.
    destruct (JsMap.size (JsMap.delete i (clients w)) =? 0); [|reflexivity].
    destruct (ticker w); reflexivity.
  - left. apply entries_update. auto.
  - left. destruct (ticker w); [|apply entries_refl].
    rewrite tick_clients. apply entries_stamped.
  - left. destruct (ticker w); [|apply entries_refl].
    destruct (begin_clients randomCatUrl randomMood t now w) as [-> | ->];
      [apply entries_refl|apply entries_stamped].
  - left. destruct (resume_clients randomCatUrl randomMood t now fr w) as [-> | ->];
      [apply entries_refl|apply entries_stamped].
  - left. apply entries_refl.
  - left. apply entries_refl.
  - left. apply entries_refl.
  - left. unfold keepalive. destruct (JsMap.get i (sseClients w)) as [c|];
      [destruct (ctrl_usable c)|]; apply entries_refl.
  - left. destruct lr; apply entries_refl.
  - left. apply entries_refl.
Qed.

(** The configuration changes only by a reload whose load succeeded. *)
Lemma step_config (w : World) (e : Event) :
  config (step Number toLowerCase JSON_parse randomCatUrl randomMood w e)
  = match e with
    | EConfigChange (LoadOk cfg) => cfg
    | _ => config w
    end.
Proof.
  destruct e; simpl; try reflexivity.
  - unfold handleWs. simpl.
    destruct (originAllowed origin (config w)); simpl; [|reflexivity].
    destruct (max_clients (config w) <=? JsMap.size (clients w)); simpl;
      [reflexivity|].
    unfold startTickerIfNeeded. simpl. destruct (ticker w); reflexivity.
  - unfold onopen. destruct (JsMap.get i (clients w)); reflexivity.
  - destruct (onmessage_cases i now data w) as [->|(cmd & args & ->)];
      [reflexivity|].
    now destruct (handleCommand_effect Number toLowerCase i now cmd args
                    (set_state (incr_wsMessages (state w)) w)) as (-> & _).
  - unfold cleanup, stopTickerIfNoClients. simpl.
    destruct (JsMap.size (JsMap.delete i (clients w)) =? 0); [|reflexivity].
    destruct (ticker w); reflexivity.
  - destruct (ticker w); [|reflexivity].
    destruct (clients w) as [|kc r] eqn:Hc.
    + unfold tick. rewrite Hc. reflexivity.
    + destruct (tick_spec randomCatUrl randomMood t now fr w)
        as (pl & _ & _ & _ & _ & H & _); [rewrite Hc; discriminate|exact H].
  - destruct (ticker w); [|reflexivity].
    now destruct (begin_keeps randomCatUrl randomMood t now w) as (H & _).
  - now destruct (resume_keeps randomCatUrl randomMood t now fr w) as (H & _).
  - unfold keepalive. destruct (JsMap.get i (sseClients w)) as [c|];
      [destruct (ctrl_usable c)|]; reflexivity.
  - destruct lr; reflexivity.
Qed.

Lemma size_set_le {V : Type} (k : string) (v : V) (m : JsMap.t V) :
  JsMap.size (JsMap.set k v m) <= JsMap.size m + 1.
Proof.
  unfold JsMap.size. induction m as [|[k' v'] r IH]; simpl List.length.
  - simpl. lia.
  - simpl. destruct (String.eqb k k'); simpl List.length; lia.
Qed.

Lemma size_delete_le {V : Type} (k : string) (m : JsMap.t V) :
  JsMap.size (JsMap.delete k m) <= JsMap.size m.
Proof.
  unfold JsMap.size. induction m as [|[k' v'] r IH]; simpl; [lia|].
  destruct (String.eqb k k'); simpl List.length; lia.
Qed.

(** X9: the registry never outgrows the largest maximum in force.  Along
    a run that starts from the empty registry, if [max_clients] of the
    first configuration and of every configuration a reload brings in is
    at most [M], the number of registered clients is at most [M] after
    every event. *)
Theorem registry_stays_within_max (cfg0 : AppConfig) (now : Z)
        (es : list Event) (M : Z) :
  0 <= M ->
  max_clients cfg0 <= M ->
  (forall cfg, In (EConfigChange (LoadOk cfg)) es -> max_clients cfg <= M) ->
  JsMap.size (clients (run Number toLowerCase JSON_parse randomCatUrl randomMood
                           (init cfg0 now) es)) <= M.
Proof.
  intros HM H0 Hes.
  assert (forall w,
             JsMap.size (clients w) <= M /\ max_clients (config w) <= M ->
             JsMap.size (clients (run Number toLowerCase JSON_parse randomCatUrl randomMood w es)) <= M)
    as Hgen.
  { induction es as [|e r IH]; intros w [Hs Hc]; [exact Hs|].
    simpl. apply IH.
    - intros cfg Hin. apply Hes. now right.
    - split.
      + destruct (step_clients w e) as [Hk|[(o & i & _ & Hlt & ->)|(i & _ & ->)]].
        * unfold JsMap.size. rewrite <- (Forall2_length Hk). exact Hs.
        * pose proof (size_set_le i (newClient i (config w)) (clients w)). lia.
        * pose proof (size_delete_le i (clients w)). lia.
      + rewrite step_config. destruct e; try exact Hc.
        destruct lr as [cfg|err]; [|exact Hc].
        apply Hes. now left. }
  apply Hgen. split; [simpl; exact HM|exact H0].
Qed.

Lemma Forall_set {V : Type} (P : string * V -> Prop) (k : string) (v : V)
      (m : JsMap.t V) :
  (forall k', P (k', v)) -> Forall P m -> Forall P (JsMap.set k v m).
Proof.
  intros Hv. induction 1 as [|[k' v'] r Hx Hr IH]; simpl.
  - constructor; [apply Hv|constructor].
  - destruct (String.eqb k k'); constructor; auto.
Qed.

Lemma Forall_delete {V : Type} (P : string * V -> Prop) (k : string)
      (m : JsMap.t V) :
  Forall P m -> Forall P (JsMap.delete k m).
Proof.
  induction 1 as [|[k' v'] r Hx Hr IH]; simpl; [constructor|].
  destruct (String.eqb k k'); [assumption|constructor; assumption].
Qed.

Lemma in_bound_ofZ (z : Z) : 200 <= z <= 60000 -> in_bound (ofZ z).
Proof.
  intros [H1 H2]. exists (inject_Z z). split; [reflexivity|].
  split.
  - change 200%Q with (inject_Z 200). now rewrite <- Zle_Qle.
  - change 60000%Q with (inject_Z 60000). now rewrite <- Zle_Qle.
Qed.

(** X10: every client's interval stays inside the bound.  Along a run
    that starts from the empty registry, if [cat_interval_ms] of the first
    configuration and of every reloaded one lies in 200..60000, then after
    every event the [intervalMs] of every registered client is a finite
    number in 200..60000, whatever commands were received. *)
Theorem intervals_stay_in_bound (cfg0 : AppConfig) (now : Z) (es : list Event) :
  200 <= cat_interval_ms cfg0 <= 60000 ->
  (forall cfg, In (EConfigChange (LoadOk cfg)) es ->
               200 <= cat_interval_ms cfg <= 60000) ->
  forall k c,
    In (k, c) (clients (run Number toLowerCase JSON_parse randomCatUrl randomMood
                            (init cfg0 now) es)) ->
    in_bound (intervalMs c).
Proof.
  intros H0 Hes.
  assert (forall w,
             Forall (fun kc => in_bound (intervalMs (snd kc))) (clients w)
             /\ 200 <= cat_interval_ms (config w) <= 60000 ->
             Forall (fun kc => in_bound (intervalMs (snd kc)))
                    (clients (run Number toLowerCase JSON_parse randomCatUrl randomMood w es)))
    as Hgen.
  { induction es as [|e r IH]; intros w [Hs Hc]; [exact Hs|].
    simpl. apply IH.
    - intros cfg Hin. apply Hes. now right.
    - split.
      + destruct (step_clients w e) as [Hk|[(o & i & _ & _ & ->)|(i & _ & ->)]].
        * clear - Hk Hs. induction Hk as [|x y l l' [_ Hxy] _ IHk]; [constructor|].
          inversion Hs; subst. constructor; auto.
        * apply Forall_set; [|exact Hs]. intros k'. simpl.
          now apply in_bound_ofZ.
        * now apply Forall_delete.
      + rewrite step_config. destruct e; try exact Hc.
        destruct lr as [cfg|err]; [|exact Hc].
        apply Hes. now left. }
  intros k c Hin.
  assert (Forall (fun kc => in_bound (intervalMs (snd kc)))
                 (clients (run Number toLowerCase JSON_parse randomCatUrl randomMood
                               (init cfg0 now) es))) as HF.
  { apply Hgen. split; [constructor|exact H0]. }
  rewrite Forall_forall in HF. apply (HF (k, c) Hin).
Qed.
End EventFacts.

(** ** A closed connection is silent, and the counters only grow *)

Lemma get_set_other {V : Type} (i j : string) (v : V) (m : JsMap.t V) :
  i <> j -> JsMap.get i (JsMap.set j v m) = JsMap.get i m.
Proof.
  intros Hne. induction m as [|[k v'] r IH]; simpl.
  - destruct (String.eqb i j) eqn:E; [|reflexivity].
    apply String.eqb_eq in E. contradiction.
  - destruct (String.eqb j k) eqn:E; simpl.
    + apply String.eqb_eq in E. subst k.
      destruct (String.eqb i j) eqn:E'; [|reflexivity].
      apply String.eqb_eq in E'. contradiction.
    + destruct (String.eqb i k); [reflexivity|exact IH].
Qed.

Lemma get_delete_none {V : Type} (i j : string) (m : JsMap.t V) :
  JsMap.get i m = None -> JsMap.get i (JsMap.delete j m) = None.
Proof.
  rewrite !get_notin. intros H Hin. apply H. eapply keys_delete_in. exact Hin.
Qed.

Lemma get_delete_same {V : Type} (i : string) (m : JsMap.t V) :
  NoDup (JsMap.keys m) -> JsMap.get i (JsMap.delete i m) = None.
Proof.
  induction m as [|[k v] r IH]; simpl; intros Hnd; [reflexivity|].
  inversion Hnd as [|? ? Hk Hr]; subst.
  destruct (String.eqb i k) eqn:E; simpl.
  - apply String.eqb_eq in E. subst k. now apply get_notin.
  - rewrite E. now apply IH.
Qed.

Lemma entries_keys (m m' : JsMap.t WsClient) :
  Forall2 entry_kept m m' -> JsMap.keys m' = JsMap.keys m.
Proof.
  induction 1 as [|x y l l' [Hk _] _ IH]; simpl; [reflexivity|].
  now rewrite IH, Hk.
Qed.

Lemma frames_to_open_absent (m : ServerMsg) (k : string) (cs : JsMap.t WsClient) :
  ~ In k (JsMap.keys cs) ->
  frames_to k (flat_map (fun kc => if wsOpen (snd kc)
                                   then [WsSend (fst kc) (TextFrame m)] else []) cs)
  = [].
Proof.
  induction cs as [|[k' c] r IH]; simpl; [reflexivity|].
  intros H.
  assert (String.eqb k k' = false) as E.
  { apply String.eqb_neq. intros ->. apply H. now left. }
  rewrite frames_to_app, IH by tauto.
  destruct (wsOpen c); simpl; [rewrite E|]; reflexivity.
Qed.

Lemma counters_le_refl (s : State) : counters_le s s.
Proof. unfold counters_le. repeat split; lia. Qed.

Lemma counters_le_trans (a b c : State) :
  counters_le a b -> counters_le b c -> counters_le a c.
Proof. unfold counters_le. intuition (try congruence; try lia). Qed.

Section Silence.
Variable Number : string -> number.
Variable toLowerCase : string -> string.
Variable JSON_parse : string -> option JsonCmd.
Variable randomCatUrl : nat -> string.
Variable randomMood : nat -> Mood.

Lemma handleCommand_unregistered (i : string) (now : Z) (cmd : string)
      (args : list string) (w : World) :
  JsMap.get i (clients w) = None ->
  handleCommand Number toLowerCase i now cmd args w = w.
Proof. intros H. unfold handleCommand. now rewrite H. Qed.

(** What an event logs holds no frame for an id that is not registered. *)
Lemma step_log (w : World) (e : Event) (i : string) :
  exists d,
    log (step Number toLowerCase JSON_parse randomCatUrl randomMood w e) = (log w ++ d)%list
    /\ (JsMap.get i (clients w) = None -> frames_to i d = []).
Proof.
  destruct e; simpl.
  - unfold handleWs. simpl.
    destruct (originAllowed origin (config w)); simpl;
      [|exists []; split; [now rewrite app_nil_r|reflexivity]].
    destruct (max_clients (config w) <=? JsMap.size (clients w)); simpl;
      [exists []; split; [now rewrite app_nil_r|reflexivity]|].
    unfold startTickerIfNeeded. simpl. destruct (ticker w); simpl.
    + exists []. split; [now rewrite app_nil_r|reflexivity].
    + eexists. split; [reflexivity|reflexivity].
  - unfold onopen. destruct (JsMap.get i0 (clients w)) eqn:Hg.
    + eexists. split; [reflexivity|]. intros Hn. simpl.
      destruct (String.eqb i i0) eqn:E; [|reflexivity].
      apply String.eqb_eq in E. subst i0. congruence.
    + exists []. split; [now rewrite app_nil_r|reflexivity].
  - destruct (onmessage_cases Number toLowerCase JSON_parse i0 now data w)
      as [->|(cmd & args & ->)].
    + exists []. split; [now rewrite app_nil_r|reflexivity].
    + destruct (handleCommand_effect Number toLowerCase i0 now cmd args
                  (set_state (incr_wsMessages (state w)) w))
        as (_ & _ & _ & _ & _ & _ & _ & (fs & Hl & _)).
      destruct (String.eqb i i0) eqn:E.
      * apply String.eqb_eq in E. subst i0.
        destruct (JsMap.get i (clients w)) eqn:Hg.
        -- exists (map (WsSend i) fs). split; [exact Hl|discriminate].
        -- rewrite handleCommand_unregistered by exact Hg.
           exists []. split; [now rewrite app_nil_r|reflexivity].
      * exists (map (WsSend i0) fs). split; [exact Hl|].
        intros _. now apply frames_to_other.
  - unfold cleanup, stopTickerIfNoClients. simpl.
    destruct (JsMap.size (JsMap.delete i0 (clients w)) =? 0);
      [|exists []; split; [now rewrite app_nil_r|reflexivity]].
    destruct (ticker w); simpl.
    + eexists. split; [reflexivity|reflexivity].
    + exists []. split; [now rewrite app_nil_r|reflexivity].
  - exists []. split; [now rewrite app_nil_r|reflexivity].
  - destruct (ticker w); [|exists []; split; [now rewrite app_nil_r|reflexivity]].
    destruct (clients w) as [|kc r] eqn:Hc.
    + unfold tick. rewrite Hc. simpl.
      exists []. split; [now rewrite app_nil_r|reflexivity].
    + rewrite <- Hc.
      destruct (tick_spec randomCatUrl randomMood t now fr w)
        as (pl & _ & Hl & _); [rewrite Hc; discriminate|].
      eexists. split; [exact Hl|]. intros Hn.
      rewrite <- (since_app w _ _ Hl). now apply tick_frames_absent.
  - destruct (ticker w); [|exists []; split; [now rewrite app_nil_r|reflexivity]].
    destruct (begin_log randomCatUrl randomMood t now w) as (d & Hl & Hf).
    exists d. split; [exact Hl|apply Hf].
  - destruct (resume_log randomCatUrl randomMood t now fr w) as (d & Hl & Hf).
    exists d. split; [exact Hl|apply Hf].
  - eexists. split; [reflexivity|reflexivity].
  - exists []. split; [now rewrite app_nil_r|reflexivity].
  - exists []. split; [now rewrite app_nil_r|reflexivity].
  - unfold keepalive. destruct (JsMap.get i0 (sseClients w)) as [c|];
      [destruct (ctrl_usable c)|].
    + eexists. split; [reflexivity|reflexivity].
    + exists []. split; [now rewrite app_nil_r|reflexivity].
    + exists []. split; [now rewrite app_nil_r|reflexivity].
  - destruct lr as [cfg|err]; simpl.
    + eexists. split; [rewrite <- app_assoc; reflexivity|]. intros Hn.
      rewrite frames_to_app.
      change (flat_map (fun kc : string * SseClient =>
                          if ctrl_usable (snd kc)
                          then [SseEnqueue (fst kc) (SseConfig (safeConfigForClient cfg))]
                          else []) (sseClients w))
        with (sse_events (SseConfig (safeConfigForClient cfg)) (sseClients w)).
      rewrite frames_to_sse_events. simpl.
      apply frames_to_open_absent. now apply get_notin.
    + exists []. split; [now rewrite app_nil_r|reflexivity].
  - exists []. split; [now rewrite app_nil_r|reflexivity].
Qed.

(** An id that is not registered stays so until an upgrade brings it in. *)
Lemma step_unregistered (w : World) (e : Event) (i : string) :
  JsMap.get i (clients w) = None ->
  (forall origin, e <> EUpgrade origin i) ->
  JsMap.get i (clients (step Number toLowerCase JSON_parse randomCatUrl randomMood w e)) = None.
Proof.
  intros Hn Hu.
  destruct (step_clients Number toLowerCase JSON_parse randomCatUrl randomMood w e)
    as [Hk|[(o & j & -> & _ & ->)|(j & _ & ->)]].
  - apply get_notin. rewrite (entries_keys _ _ Hk). now apply get_notin.
  - rewrite get_set_other; [exact Hn|]. intros ->. now apply (Hu o).
  - now apply get_delete_none.
Qed.

Lemma run_unregistered (es : list Event) (i : string) :
  (forall origin, ~ In (EUpgrade origin i) es) ->
  forall w,
    JsMap.get i (clients w) = None ->
    JsMap.get i (clients (run Number toLowerCase JSON_parse randomCatUrl randomMood w es)) = None
    /\ exists d,
        log (run Number toLowerCase JSON_parse randomCatUrl randomMood w es) = (log w ++ d)%list
        /\ frames_to i d = [].
Proof.
  induction es as [|e r IH]; intros Hu w Hn.
  - split; [exact Hn|]. exists []. split; [now rewrite app_nil_r|reflexivity].
  - change (run Number toLowerCase JSON_parse randomCatUrl randomMood w (e :: r))
      with (run Number toLowerCase JSON_parse randomCatUrl randomMood
                (step Number toLowerCase JSON_parse randomCatUrl randomMood w e) r).
    assert (forall origin, e <> EUpgrade origin i) as He.
    { intros o ->. apply (Hu o). now left. }
    destruct (step_log w e i) as (d1 & Hl1 & Hf1).
    destruct (IH (fun o H => Hu o (or_intror H)) _ (step_unregistered w e i Hn He))
      as (Hget & d2 & Hl2 & Hf2).
    split; [exact Hget|].
    exists (d1 ++ d2)%list. split.
    + rewrite Hl2, Hl1, app_assoc. reflexivity.
    + rewrite frames_to_app, Hf1, Hf2 by assumption. reflexivity.
Qed.

(** X11: close is terminal.  Once the close (or error) of a socket has
    been handled, its id is out of the registry, and whatever happens
    next, short of a new upgrade that draws the same id, no frame is
    sent to it: no push, no notice, no reply, no configuration. *)
Theorem closed_connection_is_silent (w : World) (i : string) (es : list Event) :
  NoDup (JsMap.keys (clients w)) ->
  (forall origin, ~ In (EUpgrade origin i) es) ->
  JsMap.get i (clients (step Number toLowerCase JSON_parse randomCatUrl randomMood w (EClose i)))
  = None
  /\ JsMap.get i (clients (run Number toLowerCase JSON_parse randomCatUrl randomMood
                               (step Number toLowerCase JSON_parse randomCatUrl randomMood w (EClose i))
                               es)) = None
  /\ frames_to i
       (since (step Number toLowerCase JSON_parse randomCatUrl randomMood w (EClose i))
              (run Number toLowerCase JSON_parse randomCatUrl randomMood
                   (step Number toLowerCase JSON_parse randomCatUrl randomMood w (EClose i)) es))
     = [].
Proof.
  intros Hnd Hu.
  assert (JsMap.get i (clients (step Number toLowerCase JSON_parse randomCatUrl randomMood
                                     w (EClose i))) = None) as Hn.
  { destruct (close_step Number toLowerCase JSON_parse randomCatUrl randomMood w i) as [-> _].
    now apply get_delete_same. }
  split; [exact Hn|].
  destruct (run_unregistered es i Hu _ Hn) as (Hget & d & Hl & Hf).
  split; [exact Hget|]. now rewrite (since_app _ _ _ Hl).
Qed.

Lemma tick_counters (t now : Z) (fr : FetchResult) (w : World) :
  counters_le (state w) (state (tick randomCatUrl randomMood t now fr w)).
Proof.
  unfold tick. destruct (JsMap.size (clients w) =? 0); [apply counters_le_refl|].
  assert (counters_le (state w) (state (snd (fetch_step fr w)))) as HF.
  { unfold fetch_step. destruct (someoneWantsBin w); [destruct fr|]; simpl;
      unfold counters_le; simpl; repeat split; lia. }
  destruct (fetch_step fr w) as [bp w1]. cbn [fst snd] in *.
  destruct (push_loop_spec randomCatUrl t bp (clients w1) w1) as (_ & _ & _ & P4).
  pose proof (push_loop_cats randomCatUrl t bp (clients w1) w1) as P5.
  destruct (push_loop randomCatUrl t bp (clients w1) w1) as [cs w2].
  cbn [fst snd] in *. simpl.
  apply (counters_le_trans _ _ _ HF).
  destruct P4 as (_ & _ & _ & _ & Q5 & Q6 & Q7 & Q8 & Q9).
  unfold counters_le. repeat split; lia || congruence.
Qed.

Lemma step_counters (w : World) (e : Event) :
  counters_le (state w)
              (state (step Number toLowerCase JSON_parse randomCatUrl randomMood w e)).
Proof.
  destruct e; simpl.
  - unfold handleWs. simpl.
    destruct (originAllowed origin (config w)); simpl;
      [|unfold counters_le; simpl; repeat split; lia].
    destruct (max_clients (config w) <=? JsMap.size (clients w)); simpl;
      [unfold counters_le; simpl; repeat split; lia|].
    unfold startTickerIfNeeded. simpl.
    destruct (ticker w); unfold counters_le; simpl; repeat split; lia.
  - unfold onopen. destruct (JsMap.get i (clients w)); apply counters_le_refl.
  - destruct (onmessage_cases Number toLowerCase JSON_parse i now data w)
      as [->|(cmd & args & ->)].
    + unfold counters_le. simpl. repeat split; lia.
    + destruct (handleCommand_effect Number toLowerCase i now cmd args
                  (set_state (incr_wsMessages (state w)) w)) as (_ & -> & _).
      unfold counters_le. simpl. repeat split; lia.
  - unfold cleanup, stopTickerIfNoClients. simpl.
    destruct (JsMap.size (JsMap.delete i (clients w)) =? 0);
      [|apply counters_le_refl].
    destruct (ticker w); apply counters_le_refl.
  - apply counters_le_refl.
  - destruct (ticker w); [apply tick_counters|apply counters_le_refl].
  - destruct (ticker w); [apply begin_counters|apply counters_le_refl].
  - apply resume_counters.
  - unfold counters_le. simpl. repeat split; lia.
  - apply counters_le_refl.
  - apply counters_le_refl.
  - unfold keepalive. destruct (JsMap.get i (sseClients w)) as [c|];
      [destruct (ctrl_usable c)|]; apply counters_le_refl.
  - destruct lr; unfold counters_le; simpl; repeat split; lia.
  - unfold counters_le. simpl. repeat split; lia.
Qed.

(** X12: the counters are monotone.  Along any run the start time is
    constant and none of [httpRequests], [wsConnections], [wsMessages],
    [catsSent] and [errors] ever decreases. *)
Theorem counters_never_decrease (w : World) (es : list Event) :
  startedAt (state (run Number toLowerCase JSON_parse randomCatUrl randomMood w es))
  = startedAt (state w)
  /\ (httpRequests (state w)
      <= httpRequests (state (run Number toLowerCase JSON_parse randomCatUrl randomMood w es)))%nat
  /\ (wsConnections (state w)
      <= wsConnections (state (run Number toLowerCase JSON_parse randomCatUrl randomMood w es)))%nat
  /\ (wsMessages (state w)
      <= wsMessages (state (run Number toLowerCase JSON_parse randomCatUrl randomMood w es)))%nat
  /\ (catsSent (state w)
      <= catsSent (state (run Number toLowerCase JSON_parse randomCatUrl randomMood w es)))%nat
  /\ (errors (state w)
      <= errors (state (run Number toLowerCase JSON_parse randomCatUrl randomMood w es)))%nat.
Proof.
  change (counters_le (state w)
            (state (run Number toLowerCase JSON_parse randomCatUrl randomMood w es))).
  revert w. induction es as [|e r IH]; intros w; [apply counters_le_refl|].
  simpl. eapply counters_le_trans; [apply step_counters|apply IH].
Qed.
End Silence.

(** ** CORS and the origin check *)

(** X13: for a request that carries a non-empty [Origin], the CORS headers
    are granted exactly when the origin check of the WebSocket endpoint
    passes, and then they name that origin; and whenever headers are
    granted at all, the origin check passes. *)
Theorem cors_agrees_with_origin_check (origin : option string) (cfg : AppConfig) :
  (forall o, origin = Some o -> o <> EmptyString ->
     (originAllowed origin cfg = true -> corsHeaders origin cfg = Some o)
     /\ (originAllowed origin cfg = false -> corsHeaders origin cfg = None))
  /\ (forall v, corsHeaders origin cfg = Some v -> originAllowed origin cfg = true).
Proof.
  unfold corsHeaders, originAllowed. split.
  - intros o -> Hne.
    assert (String.eqb o EmptyString = false) as -> by now apply String.eqb_neq.
    assert (JsStr.nonEmpty o = true) as ->.
    { destruct o; [contradiction|reflexivity]. }
    destruct (includes "*" (allow_origins cfg)); [split; [reflexivity|discriminate]|].
    simpl. destruct (includes o (allow_origins cfg));
      split; try reflexivity; discriminate.
  - intros v. destruct origin as [o|]; [|reflexivity].
    destruct (String.eqb o EmptyString); [reflexivity|].
    destruct (includes "*" (allow_origins cfg)); [reflexivity|].
    destruct (JsStr.nonEmpty o); simpl; [|discriminate].
    destruct (includes o (allow_origins cfg)); [reflexivity|discriminate].
Qed.

Lemma cors_agrees_with_origin_check_witness :
  corsHeaders (Some "https://cats.example") Demo.strictConfig
  = Some "https://cats.example"
  /\ corsHeaders (Some "https://dogs.example") Demo.strictConfig = None.
Proof.
  destruct (cors_agrees_with_origin_check (Some "https://cats.example")
              Demo.strictConfig) as [Hc _].
  destruct (cors_agrees_with_origin_check (Some "https://dogs.example")
              Demo.strictConfig) as [Hd _].
  split.
  - apply (Hc "https://cats.example" eq_refl); [discriminate|reflexivity].
  - apply (Hd "https://dogs.example" eq_refl); [discriminate|reflexivity].
Defined.

(** ** The configuration loader *)

Section Loader.
Variable Number : string -> number.

Lemma clampInt_range (v : option string) (min max fallback : Z) :
  min <= max -> min <= fallback <= max ->
  min <= Config.clampInt Number v min max fallback <= max.
Proof.
  intros Hmm Hfb. unfold Config.clampInt.
  destruct (match v with Some s => Number s | None => NaN end); try exact Hfb.
  cbv zeta. destruct (Qfloor q <? min) eqn:E1; [lia|].
  destruct (max <? Qfloor q) eqn:E2; [lia|].
  apply Z.ltb_ge in E1, E2. lia.
Qed.

(** X14: [clampInt] with [min <= max]: a value that converts to a finite
    number gives the floor of it brought into [min, max] (the floor
    itself when it lies there, the nearer end otherwise); a value that is
    missing or converts to no finite number gives the fallback, whatever
    the fallback is. *)
Theorem clampInt_clamps (v : option string) (min max fallback : Z) :
  min <= max ->
  (forall q, match v with Some s => Number s | None => NaN end = Fin q ->
     min <= Config.clampInt Number v min max fallback <= max
     /\ (min <= Qfloor q <= max ->
         Config.clampInt Number v min max fallback = Qfloor q)
     /\ (Qfloor q < min -> Config.clampInt Number v min max fallback = min)
     /\ (max < Qfloor q -> Config.clampInt Number v min max fallback = max))
  /\ (isFinite (match v with Some s => Number s | None => NaN end) = false ->
      Config.clampInt Number v min max fallback = fallback).
Proof.
  intros Hmm. unfold Config.clampInt. split.
  - intros q ->. cbv zeta.
    destruct (Qfloor q <? min) eqn:E1; [apply Z.ltb_lt in E1|apply Z.ltb_ge in E1].
    + repeat split; lia.
    + destruct (max <? Qfloor q) eqn:E2; [apply Z.ltb_lt in E2|apply Z.ltb_ge in E2];
        repeat split; lia.
  - destruct (match v with Some s => Number s | None => NaN end);
      [reflexivity..|discriminate].
Qed.

Lemma filter_nonEmpty_clean (l : list string) :
  ~ In EmptyString (filter JsStr.nonEmpty l).
Proof.
  intros H. apply filter_In in H as [_ H]. discriminate.
Qed.

(** X15: whatever the file holds, and whether or not it can be read, the
    loaded configuration is inside its bounds: the port in 1..65535, the
    default interval in 200..60000, the maximum of clients in 1..10000,
    and a list of allowed origins that is not empty and has no empty
    entry. *)
Theorem loadConfig_in_bounds (file : option string) :
  1 <= port (Config.loadConfig Number file) <= 65535
  /\ 200 <= cat_interval_ms (Config.loadConfig Number file) <= 60000
  /\ 1 <= max_clients (Config.loadConfig Number file) <= 10000
  /\ allow_origins (Config.loadConfig Number file) <> []
  /\ ~ In EmptyString (allow_origins (Config.loadConfig Number file)).
Proof.
  destruct file as [text|]; simpl.
  2:{ repeat split; try lia; try discriminate. intros [H|[]]. discriminate. }
  split; [apply clampInt_range; simpl; lia|].
  split; [apply clampInt_range; simpl; lia|].
  split; [apply clampInt_range; simpl; lia|].
  destruct (String.eqb (Js.trim (Config.orElse
                                   (JsMap.get "allow_origins" (Config.parseCfg text)) "*"))
                       "*").
  - split; [discriminate|]. intros [H|[]]. discriminate.
  - destruct (filter JsStr.nonEmpty _) as [|x l] eqn:E.
    + split; [discriminate|]. intros [H|[]]. discriminate.
    + split; [discriminate|]. rewrite <- E. apply filter_nonEmpty_clean.
Qed.
End Loader.

Lemma clampInt_clamps_witness :
  Config.clampInt Demo.Number (Some "100") 200 60000 2500 = 200
  /\ Config.clampInt Demo.Number (Some "fast") 200 60000 2500 = 2500.
Proof.
  destruct (clampInt_clamps Demo.Number (Some "100") 200 60000 2500) as [Hf _];
    [discriminate|].
  destruct (clampInt_clamps Demo.Number (Some "fast") 200 60000 2500) as [_ Hn];
    [discriminate|].
  split.
  - destruct (Hf (inject_Z 100) eq_refl) as (_ & _ & Hlow & _).
    apply Hlow. reflexivity.
  - apply Hn. reflexivity.
Defined.

(** ** Splitting, joining and replacing *)

Lemma includes_char_app (a : ascii) (s r : string) :
  JsStr.includes_char a (s ++ r)
  = JsStr.includes_char a s || JsStr.includes_char a r.
Proof.
  induction s as [|b s IH]; simpl; [reflexivity|].
  now rewrite IH, orb_assoc.
Qed.

Lemma split_char_nonempty (c : ascii) (s : string) : JsStr.split_char c s <> [].
Proof.
  destruct s as [|a r]; simpl; [discriminate|].
  destruct (Ascii.eqb a c); [discriminate|].
  destruct (JsStr.split_char c r); discriminate.
Qed.

(** A piece of a split holds only characters of the string, and never the
    separator. *)
Lemma split_char_pieces (c : ascii) (s : string) :
  forall p, In p (JsStr.split_char c s) ->
    JsStr.includes_char c p = false
    /\ forall a, JsStr.includes_char a p = true -> JsStr.includes_char a s = true.
Proof.
  induction s as [|b r IH]; simpl; intros p Hin.
  - destruct Hin as [<-|[]]. split; [reflexivity|discriminate].
  - destruct (Ascii.eqb b c) eqn:E.
    + destruct Hin as [<-|Hin]; [split; [reflexivity|discriminate]|].
      destruct (IH p Hin) as [H1 H2]. split; [exact H1|].
      intros a Ha. rewrite (H2 a Ha). apply orb_true_r.
    + pose proof (split_char_nonempty c r) as Hne.
      destruct (JsStr.split_char c r) as [|h t]; [contradiction|].
      destruct Hin as [<-|Hin].
      * destruct (IH h (or_introl eq_refl)) as [H1 H2]. simpl. split.
        -- now rewrite E, H1.
        -- intros a Ha. apply orb_true_iff in Ha as [Ha|Ha].
           ++ now rewrite Ha.
           ++ rewrite (H2 a Ha). apply orb_true_r.
      * destruct (IH p (or_intror Hin)) as [H1 H2]. split; [exact H1|].
        intros a Ha. rewrite (H2 a Ha). apply orb_true_r.
Qed.

Lemma replaceAll_removes (c : ascii) (rep s : string) :
  JsStr.includes_char c rep = false ->
  JsStr.includes_char c (JsStr.replaceAll_char c rep s) = false.
Proof.
  intros Hrep. induction s as [|a r IH]; simpl; [reflexivity|].
  destruct (Ascii.eqb a c) eqn:E.
  - now rewrite includes_char_app, Hrep, IH.
  - simpl. now rewrite E, IH.
Qed.

Lemma replaceAll_keeps_out (c d : ascii) (rep s : string) :
  JsStr.includes_char d rep = false ->
  JsStr.includes_char d s = false ->
  JsStr.includes_char d (JsStr.replaceAll_char c rep s) = false.
Proof.
  intros Hrep. induction s as [|a r IH]; simpl; [reflexivity|].
  intros H. apply orb_false_iff in H as [Ha Hr].
  destruct (Ascii.eqb a c).
  - now rewrite includes_char_app, Hrep, IH.
  - simpl. now rewrite Ha, IH.
Qed.

Lemma replaceAll_absent (c : ascii) (rep s : string) :
  JsStr.includes_char c s = false -> JsStr.replaceAll_char c rep s = s.
Proof.
  induction s as [|a r IH]; simpl; [reflexivity|].
  intros H. apply orb_false_iff in H as [Ha Hr]. now rewrite Ha, IH.
Qed.

(** ** The path guard *)

Lemma check_parts_none (parts : list string) :
  SafePath.check_parts parts = None
  <-> Forall (fun p => p <> ".." /\ JsStr.includes_char zero p = false) parts.
Proof.
  induction parts as [|p r IH]; simpl.
  - split; [constructor|reflexivity].
  - destruct (String.eqb p ".") eqn:E1; simpl.
    { apply String.eqb_eq in E1. subst p. rewrite IH. split.
      - intros H. constructor; [split; [discriminate|reflexivity]|exact H].
      - intros H. now inversion H. }
    destruct (String.eqb p EmptyString) eqn:E2; simpl.
    { apply String.eqb_eq in E2. subst p. rewrite IH. split.
      - intros H. constructor; [split; [discriminate|reflexivity]|exact H].
      - intros H. now inversion H. }
    destruct (String.eqb p "..") eqn:E3.
    { apply String.eqb_eq in E3. subst p. split; [discriminate|].
      intros H. inversion H as [|? ? [Hp _] _]; subst. now contradiction Hp. }
    apply String.eqb_neq in E3.
    destruct (JsStr.includes_char zero p) eqn:E4.
    { split; [discriminate|]. intros H. inversion H as [|? ? [_ Hp] _]; subst.
      congruence. }
    rewrite IH. split.
    + intros H. constructor; [split; assumption|exact H].
    + intros H. now inversion H.
Qed.

Lemma normalize_no_backslash (p : string) :
  JsStr.includes_char SafePath.backslash (SafePath.normalize p) = false.
Proof. apply replaceAll_removes. reflexivity. Qed.

Lemma parts_of_segments (requested : string) :
  SafePath.parts_of requested
  = filter JsStr.nonEmpty (JsStr.split_char "/" (SafePath.normalize requested)).
Proof.
  unfold SafePath.parts_of. cbv zeta.
  destruct (Js.startsWith (SafePath.normalize requested) "/"); reflexivity.
Qed.

(** X16: a path that [safeJoin] returns is the root, a slash, and the
    segments of the request that are not empty, in their order, joined by
    slashes, the segments being what lies between the slashes of the
    request once its backslashes are read as slashes; and no segment of
    the request is [..] or holds a backslash or a NUL. *)
Theorem safeJoin_result (root requested p : string) :
  SafePath.safeJoin root requested = inr p ->
  p = root ++ "/"
           ++ JsStr.join "/"
                (filter JsStr.nonEmpty
                        (JsStr.split_char "/" (SafePath.normalize requested)))
  /\ forall seg, In seg (JsStr.split_char "/" (SafePath.normalize requested)) ->
       seg <> ".."
       /\ JsStr.includes_char SafePath.backslash seg = false
       /\ JsStr.includes_char zero seg = false.
Proof.
  unfold SafePath.safeJoin. cbv zeta.
  destruct (SafePath.check_parts (SafePath.parts_of requested)) eqn:Hc;
    [discriminate|].
  intros [= <-]. rewrite parts_of_segments in *. split; [reflexivity|].
  apply check_parts_none in Hc. rewrite Forall_forall in Hc.
  intros seg Hin.
  destruct (split_char_pieces _ _ seg Hin) as [_ Hsub].
  assert (JsStr.includes_char SafePath.backslash seg = false) as Hb.
  { destruct (JsStr.includes_char SafePath.backslash seg) eqn:E; [|reflexivity].
    apply Hsub in E. now rewrite normalize_no_backslash in E. }
  destruct seg as [|a r].
  { split; [discriminate|]. split; reflexivity. }
  destruct (Hc (String a r)) as [H1 H2].
  { apply filter_In. split; [exact Hin|reflexivity]. }
  auto.
Qed.

(** X17: [safeJoin] throws exactly when some segment of the request,
    backslashes read as slashes, is [..] or holds a NUL; the root plays no
    part in it. *)
Theorem safeJoin_rejects (root requested : string) :
  (exists e, SafePath.safeJoin root requested = inl e)
  <-> exists seg,
      In seg (JsStr.split_char "/" (SafePath.normalize requested))
      /\ (seg = ".." \/ JsStr.includes_char zero seg = true).
Proof.
  assert (forall seg,
            In seg (SafePath.parts_of requested)
            <-> In seg (JsStr.split_char "/" (SafePath.normalize requested))
                /\ seg <> EmptyString) as Hparts.
  { intros seg. unfold SafePath.parts_of. cbv zeta. rewrite filter_In.
    assert (JsStr.nonEmpty seg = true <-> seg <> EmptyString) as ->.
    { destruct seg; simpl; split; congruence. }
    destruct (Js.startsWith (SafePath.normalize requested) "/"); [reflexivity|].
    change (JsStr.split_char "/" ("/" ++ SafePath.normalize requested))
      with (EmptyString :: JsStr.split_char "/" (SafePath.normalize requested)).
    simpl. split.
    - intros [[<-|H] Hne]; [contradiction|auto].
    - intros [H Hne]. auto. }
  unfold SafePath.safeJoin. cbv zeta.
  destruct (SafePath.check_parts (SafePath.parts_of requested)) eqn:Hc.
  - split; [intros _|intros _; eexists; reflexivity].
    destruct (Exists_dec (fun p => p = ".." \/ JsStr.includes_char zero p = true)
                         (SafePath.parts_of requested)) as [Hex|Hno].
    { intros x. destruct (string_dec x "..") as [->|Hx]; [left; now left|].
      destruct (JsStr.includes_char zero x) eqn:E; [left; now right|].
      right. intros [H|H]; [contradiction|discriminate]. }
    + apply Exists_exists in Hex as (seg & Hin & Hbad).
      exists seg. split; [now apply Hparts|exact Hbad].
    + exfalso. assert (SafePath.check_parts (SafePath.parts_of requested) = None);
        [|congruence].
      apply check_parts_none. apply Forall_forall. intros x Hin. split.
      * intros ->. apply Hno. apply Exists_exists. exists "..". auto.
      * destruct (JsStr.includes_char zero x) eqn:E; [|reflexivity].
        exfalso. apply Hno. apply Exists_exists. exists x. auto.
  - split; [intros (e & He); discriminate|].
    intros (seg & Hin & Hbad). exfalso.
    apply check_parts_none in Hc. rewrite Forall_forall in Hc.
    assert (seg <> EmptyString) as Hne.
    { intros ->. destruct Hbad as [H|H]; discriminate. }
    destruct (Hc seg (proj2 (Hparts seg) (conj Hin Hne))) as [H1 H2].
    destruct Hbad as [->|H]; [now apply H1|congruence].
Qed.

Lemma safeJoin_result_witness :
  SafePath.safeJoin "./data" ("notes//" ++ String SafePath.backslash "a.txt")
  = inr "./data/notes/a.txt"
  /\ "./data/notes/a.txt"
     = "./data" ++ "/"
         ++ JsStr.join "/"
              (filter JsStr.nonEmpty
                 (JsStr.split_char "/"
                    (SafePath.normalize
                       ("notes//" ++ String SafePath.backslash "a.txt")))).
Proof.
  split; [reflexivity|].
  apply (safeJoin_result "./data" ("notes//" ++ String SafePath.backslash "a.txt")
                         "./data/notes/a.txt").
  reflexivity.
Defined.

Lemma safeJoin_rejects_witness :
  exists e, SafePath.safeJoin "./public"
              (String SafePath.backslash (".." ++ String SafePath.backslash "secret"))
            = inl e.
Proof.
  apply (proj2 (safeJoin_rejects "./public"
                  (String SafePath.backslash
                          (".." ++ String SafePath.backslash "secret")))).
  exists "..". split; [right; left; reflexivity|left; reflexivity].
Defined.

(** ** The MIME table *)

Lemma from_last_dot_none (s : string) :
  Mime.from_last_dot s = None <-> JsStr.includes_char "." s = false.
Proof.
  induction s as [|a r IH]; simpl; [split; reflexivity|].
  destruct (Mime.from_last_dot r) as [e|].
  - split; [discriminate|]. intros H. apply orb_false_iff in H as [_ H].
    apply IH in H. discriminate.
  - destruct (Ascii.eqb a "."); simpl; [split; discriminate|].
    split; intros _; [now apply IH|reflexivity].
Qed.

Lemma from_last_dot_suffix (p e : string) :
  JsStr.includes_char "." e = false ->
  Mime.from_last_dot (p ++ String "." e) = Some (String "." e).
Proof.
  intros He. induction p as [|a p IH]; simpl.
  - apply from_last_dot_none in He. now rewrite He.
  - now rewrite IH.
Qed.

Lemma lower_ascii_dot (a : ascii) :
  Ascii.eqb (Js.lower_ascii a) "." = Ascii.eqb a ".".
Proof.
  destruct a as [[] [] [] [] [] [] [] []]; reflexivity.
Qed.

Lemma lower_ascii_idem (a : ascii) :
  Js.lower_ascii (Js.lower_ascii a) = Js.lower_ascii a.
Proof.
  destruct a as [[] [] [] [] [] [] [] []]; reflexivity.
Qed.

Lemma toLowerCase_idem (s : string) :
  Js.toLowerCase (Js.toLowerCase s) = Js.toLowerCase s.
Proof.
  induction s as [|a r IH]; simpl; [reflexivity|].
  now rewrite lower_ascii_idem, IH.
Qed.

Lemma toLowerCase_no_dot (s : string) :
  JsStr.includes_char "." (Js.toLowerCase s) = JsStr.includes_char "." s.
Proof.
  induction s as [|a r IH]; simpl; [reflexivity|].
  now rewrite lower_ascii_dot, IH.
Qed.

(** X18: the content type of a path is decided by what follows its last
    dot, without regard to case: [p.e] has the type of [.e] lower-cased,
    whatever [p] is; and a path with no dot at all is an octet stream. *)
Theorem contentType_by_last_extension (p e : string) :
  (JsStr.includes_char "." e = false ->
   Mime.contentTypeFromPath (p ++ String "." e)
   = Mime.contentTypeFromPath (String "." (Js.toLowerCase e)))
  /\ (JsStr.includes_char "." p = false ->
      Mime.contentTypeFromPath p = "application/octet-stream").
Proof.
  unfold Mime.contentTypeFromPath. split.
  - intros He. rewrite from_last_dot_suffix by exact He.
    assert (Mime.from_last_dot (String "." (Js.toLowerCase e))
            = Some (String "." (Js.toLowerCase e))) as ->.
    { apply (from_last_dot_suffix EmptyString). now rewrite toLowerCase_no_dot. }
    simpl. now rewrite toLowerCase_idem.
  - intros Hp. apply from_last_dot_none in Hp. now rewrite Hp.
Qed.

Lemma contentType_by_last_extension_witness :
  Mime.contentTypeFromPath ("/img/cat.v2" ++ String "." "JPEG") = "image/jpeg"
  /\ Mime.contentTypeFromPath "/LICENSE" = "application/octet-stream".
Proof.
  destruct (contentType_by_last_extension "/img/cat.v2" "JPEG") as [H1 _].
  destruct (contentType_by_last_extension "/LICENSE" EmptyString) as [_ H2].
  split.
  - rewrite H1; reflexivity.
  - apply H2. reflexivity.
Defined.

(** ** The file viewer *)

Lemma escape_no_angle (raw : string) :
  JsStr.includes_char "<" (Viewer.escape raw) = false
  /\ JsStr.includes_char ">" (Viewer.escape raw) = false.
Proof.
  unfold Viewer.escape. split.
  - apply replaceAll_keeps_out; [reflexivity|].
    apply replaceAll_removes. reflexivity.
  - apply replaceAll_removes. reflexivity.
Qed.

(** X19: the viewer never shows a file's text raw: whatever the file
    system holds, a page that [serveDataFile] returns shows the escaped
    text of the very file it names, with no [<] and no [>] left in it, and
    a text that has none of [&], [<], [>] is shown as it is; a request
    that the path guard refuses throws before any file is read. *)
Theorem viewer_escapes (readTextFile : string -> option string)
        (pathname : string) :
  (forall page, Viewer.serveDataFile readTextFile pathname = inr (Some page) ->
     exists raw,
       readTextFile (Viewer.viewing page) = Some raw
       /\ Viewer.shown page = Viewer.escape raw
       /\ JsStr.includes_char "<" (Viewer.shown page) = false
       /\ JsStr.includes_char ">" (Viewer.shown page) = false
       /\ (JsStr.includes_char "&" raw = false ->
           JsStr.includes_char "<" raw = false ->
           JsStr.includes_char ">" raw = false ->
           Viewer.shown page = raw))
  /\ (forall e, Viewer.serveDataFile readTextFile pathname = inl e ->
        forall other, Viewer.serveDataFile other pathname = inl e).
Proof.
  unfold Viewer.serveDataFile. cbv zeta.
  destruct (SafePath.safeJoin "./data"
              (if JsStr.nonEmpty (Viewer.drop 6 pathname)
               then Viewer.drop 6 pathname else "/")) as [e|full].
  - split; [discriminate|]. intros e' [= <-] other. reflexivity.
  - split.
    + intros page. destruct (readTextFile full) as [raw|] eqn:Hr; [|discriminate].
      intros [= <-]. simpl. exists raw. split; [exact Hr|].
      split; [reflexivity|].
      destruct (escape_no_angle raw) as [H1 H2].
      split; [exact H1|]. split; [exact H2|].
      intros Ha Hl Hg. unfold Viewer.escape.
      now rewrite (replaceAll_absent "&"), (replaceAll_absent "<"),
        (replaceAll_absent ">").
    + intros e. destruct (readTextFile full); discriminate.
Qed.

Lemma viewer_escapes_witness :
  exists raw,
    (fun _ : string => Some "1 < 2 && 3 > 2") "./data/x.txt" = Some raw
    /\ "1 &lt; 2 &amp;&amp; 3 &gt; 2" = Viewer.escape raw.
Proof.
  destruct (viewer_escapes (fun _ => Some "1 < 2 && 3 > 2") "/files/x.txt")
    as [Hpage _].
  destruct (Hpage {| Viewer.viewing := "./data/x.txt";
                     Viewer.shown := "1 &lt; 2 &amp;&amp; 3 &gt; 2" |} eq_refl)
    as (raw & H1 & H2 & _).
  exists raw. split; [exact H1|exact H2].
Defined.

(** ** The two syntaxes of a command *)

Lemma has_space_cons (a : ascii) (s : string) :
  Js.has_space (String a s) = false ->
  Js.space_len (String a s) = 0%nat /\ Js.has_space s = false.
Proof.
  cbn [Js.has_space]. intros H. apply orb_false_iff in H as [H1 H2].
  apply negb_false_iff, Nat.eqb_eq in H1. auto.
Qed.

Lemma space_len_letter (a : ascii) (s : string) :
  ((97 <=? nat_of_ascii a) && (nat_of_ascii a <=? 122))%nat = true ->
  Js.space_len (String a s) = 0%nat.
Proof.
  destruct a as [[] [] [] [] [] [] [] []]; intros H; try discriminate H;
    destruct s as [|b [|c s]]; reflexivity.
Qed.

Lemma trimStart_keep (a : ascii) (s : string) :
  Js.space_len (String a s) = 0%nat -> Js.trimStart (String a s) = String a s.
Proof. intros H. unfold Js.trimStart. cbn [Js.trimStart_go]. now rewrite H. Qed.

Lemma trimEnd_keep (a : ascii) (s : string) :
  Js.space_len (String a s) = 0%nat ->
  Js.trimEnd (String a s) = String a (Js.trimEnd s).
Proof.
  intros H. cbn [Js.trimEnd]. unfold Js.blank. cbn [Js.blank_go]. now rewrite H.
Qed.

Lemma trimEnd_word (s : string) : Js.has_space s = false -> Js.trimEnd s = s.
Proof.
  induction s as [|a r IH]; intros H; [reflexivity|].
  apply has_space_cons in H as [H1 H2]. now rewrite trimEnd_keep, IH.
Qed.

Lemma trimEnd_step (a : ascii) (s : string) :
  Js.trimEnd (String a s)
  = if Js.blank (String a s) then EmptyString else String a (Js.trimEnd s).
Proof. reflexivity. Qed.

Lemma trimEnd_space_word (c : ascii) (r : string) :
  Js.has_space (String c r) = false ->
  Js.trimEnd (String " " (String c r)) = String " " (String c r).
Proof.
  intros H. pose proof (has_space_cons _ _ H) as [H1 _].
  rewrite trimEnd_step, (trimEnd_word _ H).
  assert (Js.blank (String " " (String c r)) = false) as ->; [|reflexivity].
  unfold Js.blank.
  change (Js.blank_go 0 (String " " (String c r)))
    with (Js.blank_go 0 (String c r)).
  cbn [Js.blank_go]. now rewrite H1.
Qed.

Lemma split_keep (b : bool) (cur : string) (a : ascii) (s : string) :
  Js.space_len (String a s) = 0%nat ->
  Js.split_ws_go 0 b cur (String a s)
  = Js.split_ws_go 0 false (cur ++ String a EmptyString) s.
Proof. intros H. cbn [Js.split_ws_go]. now rewrite H. Qed.

Lemma split_ws_word (s : string) :
  forall b cur, Js.has_space s = false -> Js.split_ws_go 0 b cur s = [cur ++ s].
Proof.
  induction s as [|a r IH]; intros b cur Hs.
  - cbn [Js.split_ws_go]. now rewrite append_empty_r.
  - apply has_space_cons in Hs as [Ha Hr].
    rewrite (split_keep b cur a r Ha), (IH _ _ Hr).
    now rewrite append_assoc3.
Qed.

Ltac letters :=
  repeat first [ rewrite trimEnd_keep by (apply space_len_letter; reflexivity)
               | rewrite split_keep by (apply space_len_letter; reflexivity) ].

(** The text of a command word, a space and one more word: how it is
    trimmed and split. *)
Lemma command_and_word (c : ascii) (r : string) :
  Js.has_space (String c r) = false ->
  Js.trim ("interval " ++ String c r) = "interval " ++ String c r
  /\ Js.split_ws ("interval " ++ String c r) = ["interval"; String c r]
  /\ Js.trim ("mode " ++ String c r) = "mode " ++ String c r
  /\ Js.split_ws ("mode " ++ String c r) = ["mode"; String c r].
Proof.
  intros H. unfold Js.trim, Js.split_ws. cbn [append].
  rewrite !trimStart_keep by (apply space_len_letter; reflexivity).
  split; [|split; [|split]].
  - letters. now rewrite (trimEnd_space_word c r H).
  - letters. cbn [append].
    change (Js.split_ws_go 0 false "interval" (String " " (String c r)))
      with ("interval" :: Js.split_ws_go 0 true EmptyString (String c r)).
    now rewrite (split_ws_word _ true EmptyString H).
  - letters. now rewrite (trimEnd_space_word c r H).
  - letters. cbn [append].
    change (Js.split_ws_go 0 false "mode" (String " " (String c r)))
      with ("mode" :: Js.split_ws_go 0 true EmptyString (String c r)).
    now rewrite (split_ws_word _ true EmptyString H).
Qed.

Section TwoSyntaxes.
Variable Number : string -> number.
Variable toLowerCase : string -> string.
Variable JSON_parse : string -> option JsonCmd.

(** X20: the two syntaxes meet.  A JSON message that parses to the command
    [interval] with the value [a], or to [mode] with the value [a], has the
    effect and the reply of the plain text [interval a], or [mode a],
    for every [a] that is not empty and holds no white space, given a
    [toLowerCase] that lowers ASCII text letter by letter. *)
Theorem json_and_text_agree (i : string) (now : Z) (d a : string)
        (obj : JsonCmd) (w : World) :
  lowers_ascii toLowerCase ->
  Js.startsWith (Js.trim d) "{" = true ->
  JSON_parse (Js.trim d) = Some obj ->
  a <> EmptyString -> Js.has_space a = false ->
  (j_cmd obj = "interval" -> j_ms obj = a ->
   onmessage Number toLowerCase JSON_parse i now (DataString d) w
   = onmessage Number toLowerCase JSON_parse i now (DataString ("interval " ++ a)) w)
  /\ (j_cmd obj = "mode" -> j_mode obj = a ->
      onmessage Number toLowerCase JSON_parse i now (DataString d) w
      = onmessage Number toLowerCase JSON_parse i now (DataString ("mode " ++ a)) w).
Proof.
  intros Hlow Hb Hp Hne Hs.
  assert (String.eqb (Js.trim d) EmptyString = false) as Hd.
  { destruct (Js.trim d); [discriminate|reflexivity]. }
  destruct a as [|c r]; [contradiction|].
  destruct (command_and_word c r Hs) as (T1 & S1 & T2 & S2).
  split; intros Hc Ha.
  - unfold onmessage at 1. rewrite Hd, Hb, Hp. unfold jsonCommand. rewrite Hc, Ha.
    change (String.eqb "interval" EmptyString) with false.
    change (String.eqb "interval" "interval") with true. cbv iota.
    unfold onmessage. rewrite T1.
    change (String.eqb ("interval " ++ String c r) EmptyString) with false.
    change (Js.startsWith ("interval " ++ String c r) "{") with false. cbv iota.
    unfold textCommand. rewrite S1, (Hlow "interval") by reflexivity.
    reflexivity.
  - unfold onmessage at 1. rewrite Hd, Hb, Hp. unfold jsonCommand. rewrite Hc, Ha.
    change (String.eqb "mode" EmptyString) with false.
    change (String.eqb "mode" "interval") with false.
    change (String.eqb "mode" "mode") with true. cbv iota.
    unfold onmessage. rewrite T2.
    change (String.eqb ("mode " ++ String c r) EmptyString) with false.
    change (Js.startsWith ("mode " ++ String c r) "{") with false. cbv iota.
    unfold textCommand. rewrite S2, (Hlow "mode") by reflexivity.
    reflexivity.
Qed.
End TwoSyntaxes.

(** The JSON text [{"cmd":"interval","ms":1200}] and the plain text
    [interval 1200]. *)
Lemma json_and_text_agree_witness :
  Demo.onmessage "a" 7 (DataString Demo.interval_text) Demo.twoBin
  = Demo.onmessage "a" 7 (DataString ("interval " ++ "1200")) Demo.twoBin
  /\ since Demo.twoBin (Demo.onmessage "a" 7 (DataString Demo.interval_text) Demo.twoBin)
     = [WsSend "a" (TextFrame (MsgOk (IntervalSetTo (ofZ 1200))))].
Proof.
  split; [|reflexivity].
  apply (proj1 (json_and_text_agree Demo.Number Demo.toLowerCase Demo.JSON_parse
                  "a" 7 Demo.interval_text "1200"
                  {| j_cmd := "interval"; j_ms := "1200"; j_mode := EmptyString |}
                  Demo.twoBin ascii_lowers_ascii eq_refl eq_refl
                  ltac:(discriminate) eq_refl));
    reflexivity.
Defined.

Lemma command_is_local_witness :
  JsMap.get "b" (clients (Demo.handleCommand "a" 7 "interval" ["1200"] Demo.twoBin))
  = JsMap.get "b" (clients Demo.twoBin).
Proof.
  destruct (command_is_local Demo.Number Demo.toLowerCase "a" 7 "interval" ["1200"] Demo.twoBin)
    as (_ & _ & _ & _ & Hother & _).
  apply Hother. discriminate.
Defined.

Lemma registry_stays_within_max_witness :
  JsMap.size (clients (Demo.run (init Demo.strictConfig 0)
                                [EUpgrade None "a"; EUpgrade None "b";
                                 EUpgrade None "c"])) <= 1.
Proof.
  apply (registry_stays_within_max Demo.Number Demo.toLowerCase Demo.JSON_parse
           Demo.randomCatUrl Demo.randomMood Demo.strictConfig 0
           [EUpgrade None "a"; EUpgrade None "b"; EUpgrade None "c"] 1).
  - discriminate.
  - discriminate.
  - intros cfg [H|[H|[H|[]]]]; discriminate H.
Defined.

Lemma intervals_stay_in_bound_witness :
  in_bound (Fin (inject_Z 900)).
Proof.
  apply (intervals_stay_in_bound Demo.Number Demo.toLowerCase Demo.JSON_parse
           Demo.randomCatUrl Demo.randomMood Demo.binConfig 0
           [EUpgrade None "a"; EOpen "a";
            EMessage "a" 1 (DataString "interval 900");
            EMessage "a" 2 (DataString "interval 90000")]
           ltac:(split; discriminate)
           ltac:(intros cfg [H|[H|[H|[H|[]]]]]; discriminate H)
           "a"
           (set_intervalMs (ofZ 900)
              (set_ws {| readyState := OPEN |} (newClient "a" Demo.binConfig)))).
  left. reflexivity.
Defined.

Lemma closed_connection_is_silent_witness :
  frames_to "a"
    (since (Demo.step Demo.twoBin (EClose "a"))
           (Demo.run (Demo.step Demo.twoBin (EClose "a"))
                     [EMessage "a" 1 (DataString "ping");
                      ETick 5000 5001 (FetchErr "down");
                      EConfigChange (LoadOk DEFAULTS)]))
  = [].
Proof.
  destruct (closed_connection_is_silent Demo.Number Demo.toLowerCase Demo.JSON_parse
              Demo.randomCatUrl Demo.randomMood Demo.twoBin "a"
              [EMessage "a" 1 (DataString "ping");
               ETick 5000 5001 (FetchErr "down");
               EConfigChange (LoadOk DEFAULTS)]) as (_ & _ & H).
  - apply distinct_NoDup. reflexivity.
  - intros o [H|[H|[H|[]]]]; discriminate H.
  - exact H.
Defined.

(** ** One ticker at a time *)

Lemma timers_alive_app (a b : list Effect) :
  timers_alive (a ++ b) = timers_alive a + timers_alive b.
Proof.
  induction a as [|e a IH]; simpl; [reflexivity|].
  destruct e; rewrite ?IH; lia.
Qed.

Lemma timers_alive_none (es : list Effect) :
  forallb (fun e => negb (isTimer e)) es = true -> timers_alive es = 0.
Proof.
  induction es as [|e r IH]; simpl; [reflexivity|].
  intros H. apply andb_true_iff in H as [He Hr].
  destruct e; try discriminate; now apply IH.
Qed.

Lemma no_timer_app (a b : list Effect) :
  forallb (fun e => negb (isTimer e)) (a ++ b)
  = forallb (fun e => negb (isTimer e)) a && forallb (fun e => negb (isTimer e)) b.
Proof. apply forallb_app. Qed.

Lemma no_timer_sends (k : string) (fs : list Frame) :
  forallb (fun e => negb (isTimer e)) (map (WsSend k) fs) = true.
Proof. induction fs; simpl; auto. Qed.

Lemma no_timer_notices (e : string) (cs : JsMap.t WsClient) :
  forallb (fun e => negb (isTimer e)) (notices e cs) = true.
Proof.
  induction cs as [|[k c] r IH]; [reflexivity|].
  unfold notices in *. simpl. destruct (wsOpen c); simpl; exact IH.
Qed.

Lemma no_timer_sse (pl : list Effect) :
  forallb isSse pl = true -> forallb (fun e => negb (isTimer e)) pl = true.
Proof.
  induction pl as [|e r IH]; simpl; [reflexivity|].
  intros H. apply andb_true_iff in H as [He Hr].
  destruct e; try discriminate. simpl. now apply IH.
Qed.

Section OneTicker.
Variable Number : string -> number.
Variable toLowerCase : string -> string.
Variable JSON_parse : string -> option JsonCmd.
Variable randomCatUrl : nat -> string.
Variable randomMood : nat -> Mood.

Lemma no_timer_loop (t : Z) (bp : option Payload) (cs : JsMap.t WsClient) :
  forall n, forallb (fun e => negb (isTimer e)) (loop_log randomCatUrl t bp n cs) = true.
Proof.
  induction cs as [|[k c] r IH]; intros n; simpl; [reflexivity|].
  now rewrite no_timer_app, no_timer_sends, IH.
Qed.

Lemma tick_timers (t now : Z) (fr : FetchResult) (w : World) :
  timers_alive (log (tick randomCatUrl randomMood t now fr w))
  = timers_alive (log w).
Proof.
  destruct (clients w) as [|kc r] eqn:Hc.
  - unfold tick. rewrite Hc. reflexivity.
  - destruct (tick_spec randomCatUrl randomMood t now fr w)
      as (pl & Hpl & -> & _); [rewrite Hc; discriminate|].
    rewrite timers_alive_app, (timers_alive_none (_ ++ _)); [lia|].
    rewrite !no_timer_app, no_timer_loop, (no_timer_sse pl Hpl), !andb_true_r.
    unfold fetch_log. destruct (someoneWantsBin w); [|reflexivity].
    destruct fr; [reflexivity|]. simpl. apply no_timer_notices.
Qed.

Lemma no_timer_sse_events (ev : SseEvent) (ss : JsMap.t SseClient) :
  forallb (fun e => negb (isTimer e)) (sse_events ev ss) = true.
Proof.
  induction ss as [|[k c] r IH]; [reflexivity|].
  unfold sse_events in *. simpl. destruct (ctrl_usable c); simpl; exact IH.
Qed.

Lemma rest_timers (t now : Z) (o : option FetchResult) (w : World) :
  timers_alive (log (tick_rest randomCatUrl randomMood t now o w))
  = timers_alive (log w).
Proof.
  destruct (rest_spec randomCatUrl randomMood t now o w) as (n & -> & _).
  rewrite timers_alive_app, (timers_alive_none (_ ++ _)); [lia|].
  rewrite !no_timer_app, no_timer_loop, no_timer_sse_events, !andb_true_r.
  destruct o as [[p|e]|]; simpl; try reflexivity. apply no_timer_notices.
Qed.

Lemma begin_timers (t now : Z) (w : World) :
  timers_alive (log (tick_begin randomCatUrl randomMood t now w))
  = timers_alive (log w).
Proof.
  destruct (begin_cases randomCatUrl randomMood t now w) as [->|[->| ->]].
  - reflexivity.
  - simpl. rewrite timers_alive_app. simpl. lia.
  - apply rest_timers.
Qed.

Lemma resume_timers (t now : Z) (fr : FetchResult) (w : World) :
  timers_alive (log (tick_resume randomCatUrl randomMood t now fr w))
  = timers_alive (log w).
Proof.
  destruct (resume_cases randomCatUrl randomMood t now fr w) as [->| ->].
  - reflexivity.
  - exact (rest_timers t now (Some fr) (set_pending _ w)).
Qed.

Lemma step_timers (w : World) (e : Event) :
  timers_alive (log w) = ticker_count w ->
  timers_alive (log (step Number toLowerCase JSON_parse randomCatUrl randomMood w e))
  = ticker_count (step Number toLowerCase JSON_parse randomCatUrl randomMood w e).
Proof.
  unfold ticker_count. intros Hinv. destruct e; simpl.
  - unfold handleWs. simpl.
    destruct (originAllowed origin (config w)); simpl; [|exact Hinv].
    destruct (max_clients (config w) <=? JsMap.size (clients w)); simpl;
      [exact Hinv|].
    unfold startTickerIfNeeded. simpl.
    destruct (ticker w) eqn:Ht; simpl; [now rewrite Ht|].
    rewrite timers_alive_app. simpl. lia.
  - unfold onopen. destruct (JsMap.get i (clients w)); simpl; [|exact Hinv].
    rewrite timers_alive_app. simpl. lia.
  - destruct (onmessage_cases Number toLowerCase JSON_parse i now data w)
      as [->|(cmd & args & ->)]; [exact Hinv|].
    destruct (handleCommand_effect Number toLowerCase i now cmd args
                (set_state (incr_wsMessages (state w)) w))
      as (_ & _ & _ & -> & _ & _ & _ & (fs & -> & _)).
    simpl. rewrite timers_alive_app, (timers_alive_none (map _ _)); [lia|].
    apply no_timer_sends.
  - unfold cleanup, stopTickerIfNoClients. simpl.
    destruct (JsMap.size (JsMap.delete i (clients w)) =? 0); simpl; [|exact Hinv].
    destruct (ticker w) eqn:Ht; simpl; [|now rewrite Ht].
    rewrite timers_alive_app. simpl. lia.
  - exact Hinv.
  - destruct (ticker w) eqn:Ht; [|now rewrite Ht].
    rewrite tick_timers.
    destruct (quiet_tick randomCatUrl randomMood t now fr w) as [-> _].
    now rewrite Ht.
  - destruct (ticker w) eqn:Ht; [|now rewrite Ht].
    rewrite begin_timers.
    destruct (quiet_begin randomCatUrl randomMood t now w) as [-> _].
    now rewrite Ht.
  - rewrite resume_timers.
    now destruct (quiet_resume randomCatUrl randomMood t now fr w) as [-> _].
  - rewrite timers_alive_app. simpl. lia.
  - exact Hinv.
  - exact Hinv.
  - unfold keepalive. destruct (JsMap.get i (sseClients w)) as [c|]; [|exact Hinv].
    destruct (ctrl_usable c); [|exact Hinv].
    simpl. rewrite timers_alive_app. simpl. lia.
  - destruct lr as [cfg|err]; simpl; [|exact Hinv].
    rewrite !timers_alive_app.
    match goal with
    | |- context [timers_alive (flat_map ?f (sseClients w))] =>
        assert (timers_alive (flat_map f (sseClients w)) = 0) as ->
    end.
    { apply timers_alive_none. clear.
      induction (sseClients w) as [|[k c] r IH]; [reflexivity|].
      simpl. destruct (ctrl_usable c); simpl; exact IH. }
    match goal with
    | |- context [timers_alive (flat_map ?f (clients w))] =>
        assert (timers_alive (flat_map f (clients w)) = 0) as ->
    end.
    { apply timers_alive_none. clear.
      induction (clients w) as [|[k c] r IH]; [reflexivity|].
      simpl. destruct (wsOpen c); simpl; exact IH. }
    lia.
  - exact Hinv.
Qed.

(** X21: there is never more than one ticker.  Along every run from the
    start, the timers created and not yet cleared number one while the
    ticker is set and none while it is not. *)
Theorem one_ticker_at_a_time (w : World) :
  reachable Number toLowerCase JSON_parse randomCatUrl randomMood w ->
  timers_alive (log w) = ticker_count w.
Proof.
  induction 1 as [cfg now|w e Hr IH]; [reflexivity|].
  now apply step_timers.
Qed.
End OneTicker.

Lemma one_ticker_at_a_time_witness :
  timers_alive (log (Demo.run Demo.twoBin
                              [EClose "a"; EClose "b"; EUpgrade None "c"])) = 1.
Proof.
  apply (one_ticker_at_a_time Demo.Number Demo.toLowerCase Demo.JSON_parse
           Demo.randomCatUrl Demo.randomMood
           (Demo.run Demo.twoBin [EClose "a"; EClose "b"; EUpgrade None "c"])).
  repeat apply reach_step. apply reach_init.
Defined.

(** ** The streams of [/events] *)

Section Streams.
Variable Number : string -> number.
Variable toLowerCase : string -> string.
Variable JSON_parse : string -> option JsonCmd.
Variable randomCatUrl : nat -> string.
Variable randomMood : nat -> Mood.

(** The registry of streams changes only by a subscription or by a
    stream closing under its controller. *)
Lemma step_sse (w : World) (e : Event) :
  sseClients (step Number toLowerCase JSON_parse randomCatUrl randomMood w e)
  = match e with
    | ESubscribe i =>
        JsMap.set i {| sse_id := i; ctrl_usable := true |} (sseClients w)
    | EStreamGone i =>
        JsMap.update i (fun c => {| sse_id := sse_id c; ctrl_usable := false |})
                     (sseClients w)
    | _ => sseClients w
    end.
Proof.
  destruct e; simpl; try reflexivity.
  - unfold handleWs. simpl.
    destruct (originAllowed origin (config w)); simpl; [|reflexivity].
    destruct (max_clients (config w) <=? JsMap.size (clients w)); simpl;
      [reflexivity|].
    unfold startTickerIfNeeded. simpl. destruct (ticker w); reflexivity.
  - unfold onopen. destruct (JsMap.get i (clients w)); reflexivity.
  - destruct (onmessage_cases Number toLowerCase JSON_parse i now data w)
      as [->|(cmd & args & ->)]; [reflexivity|].
    now destruct (handleCommand_effect Number toLowerCase i now cmd args
                    (set_state (incr_wsMessages (state w)) w)) as (_ & _ & -> & _).
  - unfold cleanup, stopTickerIfNoClients. simpl.
    destruct (JsMap.size (JsMap.delete i (clients w)) =? 0); [|reflexivity].
    destruct (ticker w); reflexivity.
  - destruct (ticker w); [|reflexivity].
    destruct (clients w) as [|kc r] eqn:Hc.
    + unfold tick. rewrite Hc. reflexivity.
    + destruct (tick_spec randomCatUrl randomMood t now fr w)
        as (pl & _ & _ & _ & _ & _ & H & _); [rewrite Hc; discriminate|exact H].
  - destruct (ticker w); [|reflexivity].
    now destruct (begin_keeps randomCatUrl randomMood t now w) as (_ & H & _).
  - now destruct (resume_keeps randomCatUrl randomMood t now fr w) as (_ & H & _).
  - unfold keepalive. destruct (JsMap.get i (sseClients w)) as [c|];
      [destruct (ctrl_usable c)|]; reflexivity.
  - destruct lr; reflexivity.
Qed.

Lemma step_stream_stays (w : World) (e : Event) (i : string) :
  In i (JsMap.keys (sseClients w)) ->
  In i (JsMap.keys (sseClients
                      (step Number toLowerCase JSON_parse randomCatUrl randomMood w e))).
Proof.
  intros Hin. rewrite step_sse. destruct e; try exact Hin.
  - apply keys_set_in. now right.
  - now rewrite keys_update.
Qed.

Lemma run_stream_stays (es : list Event) (i : string) :
  forall w,
    In i (JsMap.keys (sseClients w)) ->
    In i (JsMap.keys (sseClients
                        (run Number toLowerCase JSON_parse randomCatUrl randomMood w es))).
Proof.
  induction es as [|e r IH]; intros w Hin; [exact Hin|].
  change (run Number toLowerCase JSON_parse randomCatUrl randomMood w (e :: r))
    with (run Number toLowerCase JSON_parse randomCatUrl randomMood
              (step Number toLowerCase JSON_parse randomCatUrl randomMood w e) r).
  apply IH. now apply step_stream_stays.
Qed.

(** X22: a subscription to [/events] is registered and greeted, and then
    fails.  Every [GET /events] puts the stream into the registry and
    enqueues its hello, with a snapshot of the configuration in effect, and
    is answered 500 and counted as an error; the cancellation of the
    stream changes nothing; and whatever happens next the stream stays in
    the registry. *)
Theorem subscription_registers_then_fails (w : World) (i : string) (es : list Event) :
  fst (serveEvents randomMood i (set_state (incr_httpRequests (state w)) w))
  = TextResponse ("Internal error: " ++ streamError) 500
  /\ errors (state (step Number toLowerCase JSON_parse randomCatUrl randomMood
                         w (ESubscribe i)))
     = S (errors (state w))
  /\ JsMap.get i (sseClients (step Number toLowerCase JSON_parse randomCatUrl randomMood
                                   w (ESubscribe i)))
     = Some {| sse_id := i; ctrl_usable := true |}
  /\ (exists (mood : Mood) (body : SafeConfig),
        since w (step Number toLowerCase JSON_parse randomCatUrl randomMood
                      w (ESubscribe i))
        = [SseEnqueue i (SseHello i mood body)]
        /\ safe_target_ip body = target_ip (config w)
        /\ safe_port body = port (config w)
        /\ safe_cat_interval_ms body = cat_interval_ms (config w)
        /\ safe_cat_mode body = cat_mode (config w)
        /\ safe_max_clients body = max_clients (config w))
  /\ (forall w', step Number toLowerCase JSON_parse randomCatUrl randomMood
                      w' (ECancel i) = w')
  /\ In i (JsMap.keys
             (sseClients
                (run Number toLowerCase JSON_parse randomCatUrl randomMood
                     (step Number toLowerCase JSON_parse randomCatUrl randomMood
                           w (ESubscribe i))
                     es))).
Proof.
  split; [reflexivity|]. split; [reflexivity|].
  split; [simpl; apply get_set_same|]. split; [|split; [reflexivity|]].
  - exists (randomMood (draws w)), (safeConfigForClient (config w)).
    split; [now apply since_app|]. repeat split.
  - apply run_stream_stays. rewrite step_sse. apply keys_set_in. now left.
Qed.
End Streams.

Lemma subscription_registers_then_fails_witness :
  errors (state (Demo.step Demo.twoBin (ESubscribe "s"))) = 1%nat
  /\ In "s" (JsMap.keys
               (sseClients
                  (Demo.run (Demo.step Demo.twoBin (ESubscribe "s"))
                            [ECancel "s"; ETick 5000 5001 (FetchOk Demo.png)]))).
Proof.
  destruct (subscription_registers_then_fails Demo.Number Demo.toLowerCase
              Demo.JSON_parse Demo.randomCatUrl Demo.randomMood Demo.twoBin "s"
              [ECancel "s"; ETick 5000 5001 (FetchOk Demo.png)])
    as (_ & He & _ & _ & _ & Hin).
  split; [exact He|exact Hin].
Defined.
